(** * LearnFinance: Leitner scheduler, progress store and quiz scoring

    A shallow embedding of the JavaScript modules
    - flashcards  (src/js/utils.js, second document): [getCardState],
      [sortCards], [handleAnswer];
    - progress    (src/js/exam-outline.js, second document): [updateStreaks],
      [recordActivity], [markChapterComplete], [markTopicStudied],
      [saveQuizScore], [exportProgress], [importProgress];
    - learn / quiz (src/unnamed/part_000, part_003): [showQuizSummary],
      [showResults], [startQuiz] and the handlers of the quiz page.

    Modelling conventions.
    - A calendar date [YYYY-MM-DD] is the number of days since the epoch
      (a [Z]).  Comparing two such strings with [<=], [===] or
      [localeCompare] is comparing the day numbers.
    - The host clock is a parameter: [today] for [todayISO()] /
      [todayString()], the UTC calendar day, and [now] for
      [new Date().toISOString()].
    - The host's time zone is a parameter too, the class [Host] with the
      two conversions [LocalTime] and [UTC] of ECMAScript.  A [Date] is
      its time value, in milliseconds since the epoch; parsing, [setDate]
      and [toISOString] are embedded over it ([parseLocal], [setDate],
      [isoDay]).  The class carries the two facts about local midnights
      that hold in every zone.  What holds in every zone is stated for
      every host; what depends on the zone names the hosts it is about.
    - Timestamps and identifiers are strings, compared code unit by code
      unit.
    - The [lf_progress] item is the typed value it parses to; the shape
      repair of [loadProgress] on malformed JSON is outside the model.
    - A JavaScript function that reads and writes module variables or
      [localStorage] and may throw is a computation in the monad [Js]: a
      throw keeps every write made before it.
    - [localStorage.setItem] is assumed to succeed. *)

From Stdlib Require Import ZArith Lia SpecFloat.
From stdpp Require Import base option list sorting gmap strings.

Local Open Scope Z_scope.

(** ** Computations with state and exceptions *)

Inductive Outcome (A : Type) : Type :=
| Returned (a : A)
| Thrown.
Arguments Returned {A} a.
Arguments Thrown {A}.

Definition Js (S A : Type) : Type := S -> Outcome A * S.

Definition ret {S A} (a : A) : Js S A := fun s => (Returned a, s).

Definition bind {S A B} (m : Js S A) (k : A -> Js S B) : Js S B :=
  fun s => match m s with
           | (Returned a, s') => k a s'
           | (Thrown, s') => (Thrown, s')
           end.

Definition throw {S A} : Js S A := fun s => (Thrown, s).

Definition get {S} : Js S S := fun s => (Returned s, s).

Definition put {S} (s : S) : Js S unit := fun _ => (Returned tt, s).

Definition modify {S} (f : S -> S) : Js S unit := fun s => (Returned tt, f s).

(** [try { body } catch { handler }] *)
Definition tryCatch {S A} (body handler : Js S A) : Js S A :=
  fun s => match body s with
           | (Returned a, s') => (Returned a, s')
           | (Thrown, s') => handler s'
           end.

(** A value that is [undefined]/[null] throws a [TypeError] when a property
    is read from it. *)
Definition orThrow {S A} (o : option A) : Js S A :=
  match o with
  | Some a => ret a
  | None => throw
  end.

Declare Scope js_scope.
Delimit Scope js_scope with js.
Notation "x <- c ;; k" := (bind c (fun x => k))
  (at level 100, c at next level, right associativity) : js_scope.
Notation "c ;;; k" := (bind c (fun _ => k))
  (at level 100, right associativity) : js_scope.

(** ** [Array.prototype.sort(comparefn)]

    The comparator is a computation (it may touch module state).  The
    method is a stable sort; it is embedded as a stable insertion sort.
    For a consistent comparator the choice of algorithm does not matter:
    the sorted, stable permutation of a list is unique
    ([sort_by_unique] below). *)

Fixpoint Array_insert {S A} (comparefn : A -> A -> Js S Z) (x : A) (l : list A)
  : Js S (list A) :=
  match l with
  | [] => ret [x]
  | y :: l' =>
      (c <- comparefn x y ;;
       if c <=? 0 then ret (x :: y :: l')
       else (r <- Array_insert comparefn x l' ;; ret (y :: r)))%js
  end.

Fixpoint Array_sort {S A} (comparefn : A -> A -> Js S Z) (l : list A)
  : Js S (list A) :=
  match l with
  | [] => ret []
  | x :: l' => (r <- Array_sort comparefn l' ;; Array_insert comparefn x r)%js
  end.

(** [[...new Set(l)]]: the elements of [l] in order of first occurrence. *)
Definition Set_add {A} `{EqDecision A} (acc : list A) (x : A) : list A :=
  if decide (x ∈ acc) then acc else acc ++ [x].

Definition Set_from {A} `{EqDecision A} (l : list A) : list A :=
  foldl Set_add [] l.

(** The same insertion sort with a pure comparator; [Array_sort] is shown
    below to compute it when the comparator's effects do not change its
    verdicts. *)
Fixpoint insert_by {A} (cmp : A -> A -> Z) (x : A) (l : list A) : list A :=
  match l with
  | [] => [x]
  | y :: l' => if cmp x y <=? 0 then x :: y :: l' else y :: insert_by cmp x l'
  end.

Fixpoint sort_by {A} (cmp : A -> A -> Z) (l : list A) : list A :=
  match l with
  | [] => []
  | x :: l' => insert_by cmp x (sort_by cmp l')
  end.

(** [a] may stand before [b] according to the comparator. *)
Definition cmp_le {A} (cmp : A -> A -> Z) (a b : A) : Prop := cmp a b ≤ 0.

(** [a] and [b] compare equal. *)
Definition cmp_eq {A} (cmp : A -> A -> Z) (a b : A) : Prop :=
  cmp_le cmp a b ∧ cmp_le cmp b a.

#[global] Instance cmp_eq_dec {A} (cmp : A -> A -> Z) (a b : A) :
  Decision (cmp_eq cmp a b).
Proof. unfold cmp_eq, cmp_le. apply _. Defined.

(** ** The host's time zone and [Date]

    A time value is a number of milliseconds since the epoch, in UTC.
    [LocalTime] turns a time value into the local one and [UTC] a local
    one into a time value (ECMAScript's abstract operations of these
    names); they are the only part of [Date] that depends on the zone. *)

Definition msPerDay : Z := 86400000.
Definition msPerHour : Z := 3600000.

(** [date.toISOString().slice(0, 10)] (or [.split('T')[0]]): the UTC day of
    a time value. *)
Definition isoDay (t : Z) : Z := t `div` msPerDay.

(** Two facts hold of the conversions in every zone, since the offsets of
    a zone stay within a day of UTC and of each other: the local midnights
    of successive days come in the order of the days, and the local
    midnight of a day, printed in UTC, is not on a later day. *)
Class Host := {
  LocalTime : Z -> Z;
  UTC : Z -> Z;
  midnightsInOrder d1 d2 :
    d1 ≤ d2 → UTC (d1 * msPerDay) ≤ UTC (d2 * msPerDay);
  midnightNotLater d :
    isoDay (UTC (LocalTime (UTC (d * msPerDay)))) ≤ d
}.

(** [new Date('YYYY-MM-DD')]: a date-only string is UTC midnight. *)
Definition parseUTC (d : Z) : Z := d * msPerDay.

(** [new Date('YYYY-MM-DD' + 'T00:00:00')]: a date-time string without
    offset is local midnight. *)
Definition parseLocal {host : Host} (d : Z) : Z := UTC (d * msPerDay).

(** [date.setDate(date.getDate() + n)]: the local day moves by [n], the
    local time within the day is kept. *)
Definition setDate {host : Host} (t : Z) (n : Z) : Z :=
  UTC (LocalTime t + n * msPerDay).

(** A host in UTC. *)
Program Definition utcHost : Host := {| LocalTime t := t; UTC t := t |}.
Next Obligation. intros d1 d2 H. unfold msPerDay. lia. Qed.
Next Obligation.
  intros d. unfold isoDay. rewrite Z.div_mul by done. lia.
Qed.

(** A host whose zone is [off] milliseconds east of UTC all year ([off] is
    negative west of UTC). *)
Program Definition fixedOffset (off : Z) (Hoff : - msPerDay < off) : Host :=
  {| LocalTime t := t + off; UTC t := t - off |}.
Next Obligation. intros off _ d1 d2 H. unfold msPerDay. lia. Qed.
Next Obligation.
  intros off Hoff d. unfold isoDay.
  apply Z.lt_succ_r, Z.div_lt_upper_bound; [done|]. unfold msPerDay in *. lia.
Qed.

(** A host in Europe/Berlin around the start of summer time 2026: one hour
    east of UTC until 2026-03-29T01:00:00Z, two hours from then on.  A
    local time in the skipped hour is read with the offset before the
    change. *)
Program Definition berlin2026 : Host :=
  {| LocalTime t :=
       if t <? 1774746000000 then t + msPerHour else t + 2 * msPerHour;
     UTC t :=
       if t <? 1774746000000 + 2 * msPerHour then t - msPerHour
       else t - 2 * msPerHour |}.
Next Obligation.
  intros d1 d2 H. unfold msPerDay, msPerHour.
  repeat match goal with |- context [?a <? ?b] => destruct (Z.ltb_spec a b) end; lia.
Qed.
Next Obligation.
  intros d. unfold isoDay.
  apply Z.lt_succ_r, Z.div_lt_upper_bound; [done|]. unfold msPerDay, msPerHour.
  repeat match goal with |- context [?a <? ?b] => destruct (Z.ltb_spec a b) end; lia.
Qed.

(** *** Vocabulary of the statements *)

(** The zone of the host is [off] milliseconds east of UTC at all times. *)
Definition constantOffset {host : Host} (off : Z) : Prop :=
  ∀ t, LocalTime t = t + off ∧ UTC t = t - off.

(** * Flashcards: the Leitner scheduler *)

Module Flashcards.

Record Card := { id : string; term : string; definition : string }.

Record CardState := { box : Z; nextReview : Z }.

Record Stats := { mastered : Z; reviewing : Z; total : Z }.

(** The module variables, the arrays they refer to, and the
    [lf_flashcards] item of [localStorage]. *)
Record Module := {
  arrays : gmap nat (list Card);
  studyQueue : nat;
  currentIndex : nat;
  sessionStats : Stats;
  leitnerState : gmap string CardState;
  stored : option (gmap string CardState)
}.

Definition BOX_INTERVALS : gmap Z Z :=
  {[ 1 := 0; 2 := 2; 3 := 4; 4 := 7; 5 := 14 ]}.

(** [addDays(dateStr, days)]: the date is parsed as UTC midnight, moved
    with [setDate] in local time and printed as a UTC day.  [days] is
    [undefined] when the box has no interval: the date becomes invalid and
    [toISOString] throws. *)
Definition addDays {host : Host} (dateStr : Z) (days : option Z) : Js Module Z :=
  match days with
  | Some d => ret (isoDay (setDate (parseUTC dateStr) d))
  | None => throw
  end.

Definition set_leitnerState (f : gmap string CardState -> gmap string CardState)
  (m : Module) : Module :=
  {| arrays := arrays m; studyQueue := studyQueue m;
     currentIndex := currentIndex m; sessionStats := sessionStats m;
     leitnerState := f (leitnerState m); stored := stored m |}.

Definition set_arrays (f : gmap nat (list Card) -> gmap nat (list Card))
  (m : Module) : Module :=
  {| arrays := f (arrays m); studyQueue := studyQueue m;
     currentIndex := currentIndex m; sessionStats := sessionStats m;
     leitnerState := leitnerState m; stored := stored m |}.

Definition set_sessionStats (f : Stats -> Stats) (m : Module) : Module :=
  {| arrays := arrays m; studyQueue := studyQueue m;
     currentIndex := currentIndex m; sessionStats := f (sessionStats m);
     leitnerState := leitnerState m; stored := stored m |}.

Definition saveLeitnerState : Js Module unit :=
  modify (fun m =>
    {| arrays := arrays m; studyQueue := studyQueue m;
       currentIndex := currentIndex m; sessionStats := sessionStats m;
       leitnerState := leitnerState m; stored := Some (leitnerState m) |}).

Definition defaultState (today : Z) : CardState :=
  {| box := 1; nextReview := today |}.

(** [getCardState] returns the object stored under [cardId]; the model
    returns its current contents. *)
Definition getCardState (today : Z) (cardId : string) : Js Module CardState :=
  (m <- get ;;
   match leitnerState m !! cardId with
   | Some st => ret st
   | None =>
       modify (set_leitnerState <[cardId := defaultState today]>) ;;;
       ret (defaultState today)
   end)%js.

Definition isDue (today : Z) (cardId : string) : Js Module bool :=
  (state <- getCardState today cardId ;;
   ret (bool_decide (nextReview state ≤ today)))%js.

Definition boxToStars (b : Z) : Z := b.

(** [String.prototype.localeCompare] on two dates. *)
Definition localeCompare (a b : Z) : Z :=
  match a ?= b with
  | Lt => -1
  | Eq => 0
  | Gt => 1
  end.

(** The comparator of [sortCards]. *)
Definition compareCards (today : Z) (a b : Card) : Js Module Z :=
  (sa <- getCardState today (id a) ;;
   sb <- getCardState today (id b) ;;
   let aDue := bool_decide (nextReview sa ≤ today) in
   let bDue := bool_decide (nextReview sb ≤ today) in
   if aDue && negb bDue then ret (-1)
   else if negb aDue && bDue then ret 1
   else if negb (box sa =? box sb) then ret (box sa - box sb)
   else ret (localeCompare (nextReview sa) (nextReview sb)))%js.

(** [[...cards]]: a new array with the same elements. *)
Definition spread (cards : nat) : Js Module nat :=
  (m <- get ;;
   l <- orThrow (arrays m !! cards) ;;
   let r := fresh (dom (arrays m)) in
   modify (set_arrays <[r := l]>) ;;;
   ret r)%js.

(** [arr.sort(comparefn)]: sorts the array [arr] in place, returns [arr]. *)
Definition sortInPlace (comparefn : Card -> Card -> Js Module Z) (arr : nat)
  : Js Module nat :=
  (m <- get ;;
   l <- orThrow (arrays m !! arr) ;;
   l' <- Array_sort comparefn l ;;
   modify (set_arrays <[arr := l']>) ;;;
   ret arr)%js.

Definition sortCards (today : Z) (cards : nat) : Js Module nat :=
  (copy <- spread cards ;;
   sortInPlace (compareCards today) copy)%js.

(** In-place updates of the state object of [cardId]. *)
Definition set_box (cardId : string) (b : Z) : Js Module unit :=
  modify (set_leitnerState
            (alter (fun st => {| box := b; nextReview := nextReview st |}) cardId)).

Definition set_nextReview (cardId : string) (d : Z) : Js Module unit :=
  modify (set_leitnerState
            (alter (fun st => {| box := box st; nextReview := d |}) cardId)).

(** [handleAnswer(knowIt, cardEl)], without the DOM animation and the
    deferred [currentIndex++].  [state] is the object held by
    [leitnerState], so the closing [leitnerState[card.id] = state] stores
    nothing new. *)
Definition handleAnswer {host : Host} (today : Z) (knowIt : bool)
  : Js Module unit :=
  (m <- get ;;
   queue <- orThrow (arrays m !! studyQueue m) ;;
   card <- orThrow (queue !! currentIndex m) ;;
   state <- getCardState today (id card) ;;
   (if knowIt then
      let b := Z.min (box state + 1) 5 in
      set_box (id card) b ;;;
      d <- addDays today (BOX_INTERVALS !! b) ;;
      set_nextReview (id card) d ;;;
      modify (set_sessionStats (fun s =>
        {| mastered := mastered s + 1; reviewing := reviewing s;
           total := total s |}))
    else
      set_box (id card) 1 ;;;
      set_nextReview (id card) today ;;;
      modify (set_sessionStats (fun s =>
        {| mastered := mastered s; reviewing := reviewing s + 1;
           total := total s |}))) ;;;
   saveLeitnerState)%js.

(** *** Vocabulary of the statements *)

(** The state [getCardState] answers for a card id. *)
Definition stateOf (today : Z) (ls : gmap string CardState) (cardId : string)
  : CardState :=
  default (defaultState today) (ls !! cardId).

Definition due (today : Z) (ls : gmap string CardState) (c : Card) : bool :=
  bool_decide (nextReview (stateOf today ls (id c)) ≤ today).

(** The verdict of [compareCards], as a function of the Leitner map. *)
Definition compareKeys (today : Z) (ls : gmap string CardState) (a b : Card) : Z :=
  let sa := stateOf today ls (id a) in
  let sb := stateOf today ls (id b) in
  if due today ls a && negb (due today ls b) then -1
  else if negb (due today ls a) && due today ls b then 1
  else if negb (box sa =? box sb) then box sa - box sb
  else localeCompare (nextReview sa) (nextReview sb).

(** The composite order of the specification: due before not due, then
    ascending box, then ascending review date. *)
Definition precedes (today : Z) (ls : gmap string CardState) (a b : Card) : Prop :=
  let sa := stateOf today ls (id a) in
  let sb := stateOf today ls (id b) in
  (due today ls a = true ∧ due today ls b = false) ∨
  (due today ls a = due today ls b ∧
   (box sa < box sb ∨ (box sa = box sb ∧ nextReview sa ≤ nextReview sb))).

Definition sameKey (today : Z) (ls : gmap string CardState) (a b : Card) : Prop :=
  box (stateOf today ls (id a)) = box (stateOf today ls (id b)) ∧
  nextReview (stateOf today ls (id a)) = nextReview (stateOf today ls (id b)).

(** [m'] is [m] with default states created for some ids of [l], and
    nothing else changed. *)
Definition touched (today : Z) (l : list Card) (m m' : Module) : Prop :=
  arrays m' = arrays m ∧ studyQueue m' = studyQueue m ∧
  currentIndex m' = currentIndex m ∧ sessionStats m' = sessionStats m ∧
  stored m' = stored m ∧
  ∀ i, leitnerState m' !! i = leitnerState m !! i ∨
       (leitnerState m !! i = None ∧
        leitnerState m' !! i = Some (defaultState today) ∧
        i ∈ id <$> l).

(** The interval table of the specification. *)
Definition intervalTable : list (Z * Z) :=
  [(1, 0); (2, 2); (3, 4); (4, 7); (5, 14)].

End Flashcards.

(** * Progress: the progress store and the streak tracker *)

Module Progress.

Record QuizScore := { date : string; score : Z; total : Z; passed : bool }.

Record ExamProgress := {
  topicsStudied : list string;
  chaptersCompleted : list string;
  quizScores : list QuizScore;
  flashcardsMastered : Z;
  lastActivity : option string
}.

Record Streaks := { dates : list Z; current : Z; longest : Z }.

Record ProgressData := {
  exams : gmap string ExamProgress;
  streaks : Streaks
}.

(** The [lf_progress] item of [localStorage]; [None] when it is absent. *)
Abbreviation Storage := (option ProgressData).

Definition getDefaultProgress : ProgressData :=
  {| exams := ∅; streaks := {| dates := []; current := 0; longest := 0 |} |}.

Definition getDefaultExamProgress : ExamProgress :=
  {| topicsStudied := []; chaptersCompleted := []; quizScores := [];
     flashcardsMastered := 0; lastActivity := None |}.

Definition loadProgress : Js Storage ProgressData :=
  (raw <- get ;;
   match raw with
   | None => ret getDefaultProgress
   | Some data => ret data
   end)%js.

Definition saveProgress (data : ProgressData) : Js Storage unit :=
  put (Some data).

(** [ensureExam(data, examId)] returns the exam object held by [data]; the
    model returns the updated [data] and the contents of that object, and
    [set_exam] writes a change of the object back. *)
Definition ensureExam (data : ProgressData) (examId : string)
  : ProgressData * ExamProgress :=
  match exams data !! examId with
  | Some exam => (data, exam)
  | None =>
      ({| exams := <[examId := getDefaultExamProgress]> (exams data);
          streaks := streaks data |}, getDefaultExamProgress)
  end.

Definition set_exam (data : ProgressData) (examId : string) (exam : ExamProgress)
  : ProgressData :=
  {| exams := <[examId := exam]> (exams data); streaks := streaks data |}.

Definition set_streaks (data : ProgressData) (s : Streaks) : ProgressData :=
  {| exams := exams data; streaks := s |}.

(** The [for] loop of [updateStreaks]: [rest] is [sorted.slice(i)],
    [checkDate] the time value of the [Date] of that name. *)
Fixpoint streakLoop {host : Host} (rest : list Z)
  (i checkDate diffFromToday current : Z) : Z :=
  match rest with
  | [] => current
  | sorted_i :: rest' =>
      let expected := setDate checkDate (- i) in
      if sorted_i =? isoDay expected then
        streakLoop rest' (i + 1) checkDate diffFromToday (current + 1)
      else if (i =? 0) && (diffFromToday =? 1) then
        let checkDate' := setDate checkDate (- 1) in
        if sorted_i =? isoDay checkDate' then
          streakLoop rest' (i + 1) checkDate' diffFromToday (current + 1)
        else current
      else current
  end.

(** [updateStreaks(data)].  [checkDate] is local midnight of [today] and
    [diffFromToday] the floor of its distance, in days, to local midnight
    of the most recent date ([Math.floor] of a quotient of two integers,
    which the floating-point division does not carry across an integer at
    these magnitudes).  The branch on an empty [sorted] cannot be reached
    from a non-empty [dates]; it follows the source ([sorted[0]]
    undefined, [diffFromToday] NaN, no iteration). *)
Definition updateStreaks {host : Host} (today : Z) (data : ProgressData)
  : ProgressData :=
  let s := streaks data in
  match dates s with
  | [] => set_streaks data {| dates := []; current := 0; longest := longest s |}
  | _ :: _ =>
      let sorted := reverse (merge_sort Z.le (Set_from (dates s))) in
      match sorted with
      | [] => set_streaks data {| dates := sorted; current := 0;
                                  longest := if longest s <? 0 then 0 else longest s |}
      | mostRecent :: _ =>
          let checkDate := parseLocal today in
          let diffFromToday :=
            (checkDate - parseLocal mostRecent) `div` msPerDay in
          if 1 <? diffFromToday then
            set_streaks data {| dates := sorted; current := 0; longest := longest s |}
          else
            let current := streakLoop sorted 0 checkDate diffFromToday 0 in
            set_streaks data
              {| dates := sorted; current := current;
                 longest := if longest s <? current then current else longest s |}
      end
  end.

Definition recordActivity {host : Host} (today : Z) : Js Storage unit :=
  (data <- loadProgress ;;
   let s := streaks data in
   let data1 :=
     if decide (today ∈ dates s) then data
     else set_streaks data {| dates := dates s ++ [today]; current := current s;
                              longest := longest s |} in
   saveProgress (updateStreaks today data1))%js.

Definition set_lastActivity (exam : ExamProgress) (t : option string) : ExamProgress :=
  {| topicsStudied := topicsStudied exam;
     chaptersCompleted := chaptersCompleted exam;
     quizScores := quizScores exam;
     flashcardsMastered := flashcardsMastered exam;
     lastActivity := t |}.

Definition set_chaptersCompleted (exam : ExamProgress) (l : list string) : ExamProgress :=
  {| topicsStudied := topicsStudied exam;
     chaptersCompleted := l;
     quizScores := quizScores exam;
     flashcardsMastered := flashcardsMastered exam;
     lastActivity := lastActivity exam |}.

Definition set_topicsStudied (exam : ExamProgress) (l : list string) : ExamProgress :=
  {| topicsStudied := l;
     chaptersCompleted := chaptersCompleted exam;
     quizScores := quizScores exam;
     flashcardsMastered := flashcardsMastered exam;
     lastActivity := lastActivity exam |}.

Definition set_quizScores (exam : ExamProgress) (l : list QuizScore) : ExamProgress :=
  {| topicsStudied := topicsStudied exam;
     chaptersCompleted := chaptersCompleted exam;
     quizScores := l;
     flashcardsMastered := flashcardsMastered exam;
     lastActivity := lastActivity exam |}.

Definition set_flashcardsMastered (exam : ExamProgress) (n : Z) : ExamProgress :=
  {| topicsStudied := topicsStudied exam;
     chaptersCompleted := chaptersCompleted exam;
     quizScores := quizScores exam;
     flashcardsMastered := n;
     lastActivity := lastActivity exam |}.

Definition markChapterComplete {host : Host} (today : Z) (now : string)
  (examId chapterId : string) (complete : bool) : Js Storage unit :=
  (data <- loadProgress ;;
   let '(data, exam) := ensureExam data examId in
   let exam :=
     if complete && negb (bool_decide (chapterId ∈ chaptersCompleted exam)) then
       set_chaptersCompleted exam (chaptersCompleted exam ++ [chapterId])
     else if negb complete then
       set_chaptersCompleted exam
         (filter (fun c => c ≠ chapterId) (chaptersCompleted exam))
     else exam in
   let exam := set_lastActivity exam (Some now) in
   saveProgress (set_exam data examId exam) ;;;
   recordActivity today)%js.

Definition markTopicStudied {host : Host} (today : Z) (now : string)
  (examId topicId : string) (studied : bool) : Js Storage unit :=
  (data <- loadProgress ;;
   let '(data, exam) := ensureExam data examId in
   let exam :=
     if studied && negb (bool_decide (topicId ∈ topicsStudied exam)) then
       set_topicsStudied exam (topicsStudied exam ++ [topicId])
     else if negb studied then
       set_topicsStudied exam (filter (fun t => t ≠ topicId) (topicsStudied exam))
     else exam in
   let exam := set_lastActivity exam (Some now) in
   saveProgress (set_exam data examId exam) ;;;
   recordActivity today)%js.

Definition saveQuizScore {host : Host} (today : Z) (now : string)
  (examId : string) (score total : Z) (passed : bool) : Js Storage unit :=
  (data <- loadProgress ;;
   let '(data, exam) := ensureExam data examId in
   let exam :=
     set_quizScores exam
       (quizScores exam ++
          [{| date := now; score := score; total := total; passed := passed |}]) in
   let exam := set_lastActivity exam (Some now) in
   saveProgress (set_exam data examId exam) ;;;
   recordActivity today)%js.

Definition getExamProgress (examId : string) : Js Storage ExamProgress :=
  (data <- loadProgress ;;
   ret (default getDefaultExamProgress (exams data !! examId)))%js.

(** *** Import and export *)

(** What [importProgress] reads from an imported exam entry: a field is
    [Some] when it passes the test guarding its merge ([Array.isArray],
    [typeof ... === 'number'], being a string).  An element of [quizScores]
    is [None] when it is [null] or [undefined]. *)
Record ExamData := {
  d_topicsStudied : option (list string);
  d_chaptersCompleted : option (list string);
  d_quizScores : option (list (option QuizScore));
  d_flashcardsMastered : option Z;
  d_lastActivity : option string
}.

Record StreakData := { d_dates : option (list Z); d_longest : option Z }.

(** An imported object: [s_exams] is [Some] when [imported.exams] is an
    object (an entry is [None] when its value is [null]), [s_streaks] is
    [Some] when [imported.streaks] is truthy. *)
Record Snapshot := {
  s_exams : option (gmap string (option ExamData));
  s_streaks : option StreakData
}.

(** The argument of [importProgress], and the results of [JSON.parse]. *)
Inductive Value :=
| VUndefined
| VNull
| VBoolean (b : bool)
| VNumber (n : Z)
| VString (s : string)
| VObject (o : Snapshot).

Definition truthy (s : string) : bool := bool_decide (s ≠ ""%string).

(** The loop [for (const quiz of examData.quizScores)]; reading [quiz.date]
    of a [null] element throws. *)
Fixpoint pushNewQuizzes (existingDates : list string)
  (imported : list (option QuizScore)) (scores : list QuizScore)
  : option (list QuizScore) :=
  match imported with
  | [] => Some scores
  | None :: _ => None
  | Some quiz :: rest =>
      pushNewQuizzes existingDates rest
        (if truthy (date quiz) && negb (bool_decide (date quiz ∈ existingDates))
         then scores ++ [quiz] else scores)
  end.

(** The body of the loop over the imported exams, on the exam object
    [existing].  ([existing.chaptersCompleted] is always an array here, so
    the source's repair of a missing one does nothing.) *)
Definition mergeExam (existing : ExamProgress) (examData : ExamData)
  : option ExamProgress :=
  let existing :=
    match d_topicsStudied examData with
    | Some l => set_topicsStudied existing (Set_from (topicsStudied existing ++ l))
    | None => existing
    end in
  let existing :=
    match d_chaptersCompleted examData with
    | Some l =>
        set_chaptersCompleted existing (Set_from (chaptersCompleted existing ++ l))
    | None => existing
    end in
  existing ←
    match d_quizScores examData with
    | Some l =>
        let existingDates := Set_from (date <$> quizScores existing) in
        set_quizScores existing <$>
          pushNewQuizzes existingDates l (quizScores existing)
    | None => Some existing
    end;
  let existing :=
    match d_flashcardsMastered examData with
    | Some n => set_flashcardsMastered existing (Z.max (flashcardsMastered existing) n)
    | None => existing
    end in
  let existing :=
    match d_lastActivity examData with
    | Some t =>
        if truthy t then
          match lastActivity existing with
          | Some t0 =>
              if negb (truthy t0) || String.ltb t0 t
              then set_lastActivity existing (Some t) else existing
          | None => set_lastActivity existing (Some t)
          end
        else existing
    | None => existing
    end in
  Some existing.

(** The loop over [Object.entries(imported.exams)], on the local object
    [current].  The keys of an object are distinct, so the order of the
    entries does not affect the result ([mergeExams_list] below). *)
Fixpoint mergeExams (entries : list (string * option ExamData))
  (current : ProgressData) : option ProgressData :=
  match entries with
  | [] => Some current
  | (examId, examData) :: rest =>
      let '(current, existing) := ensureExam current examId in
      examData ← examData;
      existing ← mergeExam existing examData;
      mergeExams rest (set_exam current examId existing)
  end.

Definition mergeStreaks {host : Host} (today : Z) (sd : option StreakData)
  (current : ProgressData) : ProgressData :=
  match sd with
  | Some sd =>
      match d_dates sd with
      | Some ds =>
          let s := streaks current in
          let mergedDates := Set_from (dates s ++ ds) in
          let longest' :=
            match d_longest sd with
            | Some n => Z.max (if longest s =? 0 then 0 else longest s) n
            | None => longest s
            end in
          updateStreaks today
            (set_streaks current
               {| dates := mergedDates; current := Progress.current s;
                  longest := longest' |})
      | None => current
      end
  | None => current
  end.

(** [importProgress(json)].  [JSON_parse] is the host's [JSON.parse],
    [None] when it throws.  The merge works on the object [loadProgress]
    returned; [saveProgress] is the only write. *)
Definition importProgress {host : Host} (JSON_parse : string -> option Value)
  (today : Z)
  (json : Value) : Js Storage bool :=
  tryCatch
    (imported <- match json with
                 | VString s => orThrow (JSON_parse s)
                 | _ => ret json
                 end ;;
     imported <- match imported with
                 | VObject o => ret o
                 | _ => throw
                 end ;;
     current <- loadProgress ;;
     current <- match s_exams imported with
                | Some es => orThrow (mergeExams (map_to_list es) current)
                | None => ret current
                end ;;
     saveProgress (mergeStreaks today (s_streaks imported) current) ;;;
     ret true)%js
    (ret false).

Definition exportProgress (JSON_stringify : ProgressData -> string)
  : Js Storage string :=
  (data <- loadProgress ;; ret (JSON_stringify data))%js.

Definition resetProgress : Js Storage unit := put None.

(** How an exported store reads back: every field is present. *)
Definition examDataOf (exam : ExamProgress) : ExamData :=
  {| d_topicsStudied := Some (topicsStudied exam);
     d_chaptersCompleted := Some (chaptersCompleted exam);
     d_quizScores := Some (Some <$> quizScores exam);
     d_flashcardsMastered := Some (flashcardsMastered exam);
     d_lastActivity := lastActivity exam |}.

Definition snapshotOf (data : ProgressData) : Snapshot :=
  {| s_exams := Some ((fun e => Some (examDataOf e)) <$> exams data);
     s_streaks := Some {| d_dates := Some (dates (streaks data));
                          d_longest := Some (longest (streaks data)) |} |}.

(** *** Vocabulary of the statements *)

(** The store as [loadProgress] reads it. *)
Definition loaded (st : Storage) : ProgressData :=
  match st with
  | Some data => data
  | None => getDefaultProgress
  end.

(** The first step of [recordActivity]: today's date is pushed when it is
    not among the dates. *)
Definition withToday (today : Z) (data : ProgressData) : ProgressData :=
  if decide (today ∈ dates (streaks data)) then data
  else set_streaks data {| dates := dates (streaks data) ++ [today];
                           current := current (streaks data);
                           longest := longest (streaks data) |}.

(** Strictly descending dates. *)
Definition descending (l : list Z) : Prop :=
  StronglySorted (fun a b => b < a) l.

(** The days [start], [start - 1], ..., [start - (n - 1)] are all in [ds]
    and the day before them is not: a run of exactly [n] consecutive days
    ending at [start]. *)
Definition consecutiveDays (ds : list Z) (start : Z) (n : nat) : Prop :=
  (∀ j : nat, (j < n)%nat → start - Z.of_nat j ∈ ds) ∧
  start - Z.of_nat n ∉ ds.

Definition streakInvariant (data : ProgressData) : Prop :=
  current (streaks data) ≤ longest (streaks data) ∧
  NoDup (dates (streaks data)).

(** The later of two optional timestamps in string order. *)
Definition later (a b : option string) : option string :=
  match a, b with
  | None, _ => b
  | _, None => a
  | Some x, Some y => if String.ltb x y then Some y else Some x
  end.

(** The object read from the argument of [importProgress], if any. *)
Definition importedObject (JSON_parse : string -> option Value) (json : Value)
  : option Snapshot :=
  match json with
  | VString s =>
      match JSON_parse s with
      | Some (VObject o) => Some o
      | _ => None
      end
  | VObject o => Some o
  | _ => None
  end.


(** Every exam of the store has duplicate-free topic and chapter lists. *)
Definition uniqueIds (data : ProgressData) : Prop :=
  ∀ k e, exams data !! k = Some e →
         NoDup (topicsStudied e) ∧ NoDup (chaptersCompleted e).

(** Every imported exam entry is an object and so is every element of its
    [quizScores]. *)
Definition entryOk (e : option ExamData) : Prop :=
  match e with
  | Some ed =>
      match d_quizScores ed with
      | Some l => Forall is_Some l
      | None => True
      end
  | None => False
  end.

Definition snapshotOk (o : Snapshot) : Prop :=
  match s_exams o with
  | Some es => map_Forall (fun _ e => entryOk e) es
  | None => True
  end.

End Progress.

(** * Quiz scoring *)

Module Quiz.

Import Progress.

(** JavaScript numbers are IEEE 754 binary64 values. *)
Definition prec : Z := 53.
Definition emax : Z := 1024.

Definition Number (z : Z) : spec_float := binary_normalize prec emax z 0 false.

(** [Math.round(x)]: the integer nearest to [x], ties towards +infinity,
    that is [floor(x + 1/2)] computed exactly.  A finite value with a
    negative exponent is below 2^53 in magnitude, so its rounding is
    representable; the sign of a zero result is not tracked. *)
Definition Math_round (x : spec_float) : spec_float :=
  match x with
  | S754_finite s m e =>
      if 0 <=? e then x
      else Number ((2 * cond_Zopp s (Z.pos m) + 2 ^ (- e)) `div` 2 ^ (1 - e))
  | _ => x
  end.

(** [Math.round((correct / total) * 100)] *)
Definition percentOf (correct total : Z) : spec_float :=
  Math_round (SFmul prec emax (SFdiv prec emax (Number correct) (Number total))
                (Number 100)).

(** [x >= y] *)
Definition ge (x y : spec_float) : bool := SFleb y x.

(** The score record pushed by [showQuizSummary(correct, total)]
    (part_000), which writes the store itself when the page names an
    exam. *)
Definition showQuizSummary (now : string) (examId : option string)
  (correct total : Z) : Js Storage unit :=
  let percent := if 0 <? total then percentOf correct total else Number 0 in
  match examId with
  | Some examId =>
      (progress <- loadProgress ;;
       let '(progress, exam) := ensureExam progress examId in
       let exam :=
         set_quizScores exam
           (quizScores exam ++
              [{| date := now; score := correct; total := total;
                  passed := ge percent (Number 70) |}]) in
       let exam := set_lastActivity exam (Some now) in
       saveProgress (set_exam progress examId exam))%js
  | None => ret tt
  end.

(** The scoring and saving steps of [showResults] (part_003);
    [examMeta] is the passing score of the exam's metadata when loaded. *)
Definition showResults {host : Host} (today : Z) (now : string)
  (examId : string) (examMeta : option Z) (correct count : Z)
  : Js Storage unit :=
  let scorePercent := percentOf correct count in
  let passingScore := match examMeta with Some p => p | None => 70 end in
  let passed := ge scorePercent (Number passingScore) in
  saveQuizScore today now examId correct count passed.

(** The score saved last for an exam. *)
Definition lastScore (st : Storage) (examId : string) : option QuizScore :=
  match exams (loaded st) !! examId with
  | Some exam => last (quizScores exam)
  | None => None
  end.

End Quiz.

(** * Further functions of the cited files

    [Utils]: [clamp], [shuffleArray] (src/js/utils.js, first document).
    [FlashcardsSession]: [loadLeitnerState], [startSession], [renderCard]
    and the deferred step of [handleAnswer] (src/js/utils.js, second
    document).
    [ProgressReads]: [isChapterComplete], [getCompletedChapters],
    [getAllProgress], [computeOverallStats] (src/js/exam-outline.js, second
    document).
    [Learn]: the click handler of [initChapterProgress] and the chapter
    scan of [initCourseOverview] (src/unnamed/part_000).
    [QuizEngine]: the state of the quiz engine and its handlers
    (src/unnamed/part_003). *)

Module Utils.

(** [clamp(val, min, max)], on integers. *)
Definition clamp (val min max : Z) : Z := Z.min (Z.max val min) max.

(** [[a[i], a[j]] = [a[j], a[i]]]: the right-hand side is read first, then
    [a[i]] and [a[j]] are written.  Both indices are inside the array
    wherever [shuffleArray] swaps; outside, the model leaves the list as it
    is. *)
Definition swap {A} (i j : nat) (a : list A) : list A :=
  match a !! i, a !! j with
  | Some x, Some y => <[j := x]> (<[i := y]> a)
  | _, _ => a
  end.

(** The loop [for (let i = a.length - 1; i > 0; i--)] of [shuffleArray];
    [draw i] is the index [Math.floor(Math.random() * (i + 1))] drawn at
    step [i]. *)
Fixpoint shuffleLoop {A} (draw : nat -> nat) (i : nat) (a : list A) : list A :=
  match i with
  | O => a
  | S i' => shuffleLoop draw i' (swap (S i') (draw (S i')) a)
  end.

(** [shuffleArray(arr)]: works on the copy [[...arr]]. *)
Definition shuffleArray {A} (draw : nat -> nat) (arr : list A) : list A :=
  shuffleLoop draw (length arr - 1) arr.

End Utils.

Module FlashcardsSession.
Import Flashcards.

(** [loadLeitnerState()]: the stored map, [{}] when there is none. *)
Definition loadLeitnerState : Js Module (gmap string CardState) :=
  (m <- get ;;
   ret (match stored m with
        | Some ls => ls
        | None => ∅
        end))%js.

Definition set_currentIndex (f : nat -> nat) (m : Module) : Module :=
  {| arrays := arrays m; studyQueue := studyQueue m;
     currentIndex := f (currentIndex m); sessionStats := sessionStats m;
     leitnerState := leitnerState m; stored := stored m |}.

Definition set_studyQueue (q : nat) (m : Module) : Module :=
  {| arrays := arrays m; studyQueue := q;
     currentIndex := currentIndex m; sessionStats := sessionStats m;
     leitnerState := leitnerState m; stored := stored m |}.

(** What the page shows when a function has rendered. *)
Inductive Screen := NoCards | CardShown | SummaryShown.

(** [renderCard()], without the DOM (the root element is present): the
    session is over when [currentIndex >= studyQueue.length], otherwise
    the state of the card to show is fetched. *)
Definition renderCard (today : Z) : Js Module Screen :=
  (m <- get ;;
   queue <- orThrow (arrays m !! studyQueue m) ;;
   if bool_decide (length queue ≤ currentIndex m)%nat then ret SummaryShown
   else (card <- orThrow (queue !! currentIndex m) ;;
         getCardState today (id card) ;;;
         ret CardShown))%js.

(** The callback [handleAnswer] schedules: [currentIndex++; renderCard()]. *)
Definition advance (today : Z) : Js Module Screen :=
  (modify (set_currentIndex S) ;;; renderCard today)%js.

(** [startSession(examId, '')] after the deck is fetched; [cards] is
    [data.cards], [None] when the fetch failed or the field is missing.
    The topic filter is not applied when [topicFilter] is empty. *)
Definition startSession (today : Z) (cards : option (list Card))
  : Js Module Screen :=
  (modify (set_sessionStats (fun _ =>
     {| mastered := 0; reviewing := 0; total := 0 |})) ;;;
   ls <- loadLeitnerState ;;
   modify (set_leitnerState (fun _ => ls)) ;;;
   match cards with
   | None => ret NoCards
   | Some [] => ret NoCards
   | Some l =>
       m <- get ;;
       let allCards := fresh (dom (arrays m)) in
       modify (set_arrays <[allCards := l]>) ;;;
       queue <- sortCards today allCards ;;
       modify (set_studyQueue queue) ;;;
       modify (set_currentIndex (fun _ => O)) ;;;
       modify (set_sessionStats (fun s =>
         {| mastered := mastered s; reviewing := reviewing s;
            total := Z.of_nat (length l) |})) ;;;
       renderCard today
   end)%js.

(** One round of study: an answer, then the scheduled callback. *)
Definition answerAndAdvance {host : Host} (today : Z) (knowIt : bool)
  : Js Module Screen :=
  (handleAnswer today knowIt ;;; advance today)%js.

(** Rounds of study, one answer each; [screen] is what the page shows
    before the first of them. *)
Fixpoint study {host : Host} (today : Z) (answers : list bool)
  (screen : Screen) : Js Module Screen :=
  match answers with
  | [] => ret screen
  | knowIt :: rest =>
      (screen <- answerAndAdvance today knowIt ;; study today rest screen)%js
  end.

(** [reviewed] of [renderSummary]. *)
Definition reviewed (m : Module) : Z :=
  mastered (sessionStats m) + reviewing (sessionStats m).

(** Every stored box is in 1..5. *)
Definition boxesOk (m : Module) : Prop :=
  ∀ i st, leitnerState m !! i = Some st → 1 ≤ box st ≤ 5.

End FlashcardsSession.

Module ProgressReads.
Import Progress.

Definition isChapterComplete (examId chapterId : string) : Js Storage bool :=
  (data <- loadProgress ;;
   match exams data !! examId with
   | None => ret false
   | Some exam => ret (bool_decide (chapterId ∈ chaptersCompleted exam))
   end)%js.

Definition getCompletedChapters (examId : string) : Js Storage (list string) :=
  (data <- loadProgress ;;
   match exams data !! examId with
   | None => ret []
   | Some exam => ret (chaptersCompleted exam)
   end)%js.

Definition getAllProgress : Js Storage ProgressData := loadProgress.

Record OverallStats := {
  os_topicsStudied : Z;
  os_quizzesTaken : Z;
  os_bestScore : option spec_float;
  os_currentStreak : Z;
  os_longestStreak : Z
}.

(** [quiz.total > 0 ? Math.round((quiz.score / quiz.total) * 100) : 0] *)
Definition quizPct (quiz : QuizScore) : spec_float :=
  if 0 <? total quiz then Quiz.percentOf (score quiz) (total quiz)
  else Quiz.Number 0.

(** The inner loop of [computeOverallStats] over the scores of an exam. *)
Definition bestStep (bestScore : option spec_float) (quiz : QuizScore)
  : option spec_float :=
  match bestScore with
  | None => Some (quizPct quiz)
  | Some b => if SFltb b (quizPct quiz) then Some (quizPct quiz) else Some b
  end.

(** The body of the loop over [Object.values(progress.exams)]. *)
Definition statsStep (acc : Z * Z * option spec_float) (examData : ExamProgress)
  : Z * Z * option spec_float :=
  let '(nTopics, nQuizzes, bestScore) := acc in
  (nTopics + Z.of_nat (length (topicsStudied examData)),
   nQuizzes + Z.of_nat (length (quizScores examData)),
   foldl bestStep bestScore (quizScores examData)).

(** [computeOverallStats(progress, exams)].  The sums and the maximum do
    not depend on the order in which [Object.values] lists the exams. *)
Definition computeOverallStats (progress : ProgressData) : OverallStats :=
  let '(nTopics, nQuizzes, bestScore) :=
    foldl statsStep (0, 0, None) (snd <$> map_to_list (exams progress)) in
  {| os_topicsStudied := nTopics;
     os_quizzesTaken := nQuizzes;
     os_bestScore := bestScore;
     os_currentStreak := current (streaks progress);
     os_longestStreak := longest (streaks progress) |}.

(** *** Vocabulary of the statements *)

(** What [getExamProgress] and [getCompletedChapters] read from a store. *)
Definition examOf (st : Storage) (examId : string) : ExamProgress :=
  default getDefaultExamProgress (exams (loaded st) !! examId).

Definition chaptersOf (st : Storage) (examId : string) : list string :=
  chaptersCompleted (examOf st examId).

(** The dashboard figures of a store. *)
Definition statsOf (st : Storage) : OverallStats :=
  computeOverallStats (loaded st).

End ProgressReads.

Module Learn.
Import Progress.

(** The click handler installed by [initChapterProgress].  The learn
    module reads and writes the [lf_progress] item with its own
    [loadProgress], [ensureExam] and [saveProgressData], which on a typed
    store are those of the progress module. *)
Definition toggleChapter (today : Z) (now : string) (examId chapterId : string)
  : Js Storage unit :=
  (current <- loadProgress ;;
   let '(current, exam) := ensureExam current examId in
   if bool_decide (chapterId ∈ chaptersCompleted exam) then
     let exam :=
       set_chaptersCompleted exam
         (filter (fun c => c ≠ chapterId) (chaptersCompleted exam)) in
     saveProgress (set_exam current examId exam)
   else
     let exam :=
       set_chaptersCompleted exam (chaptersCompleted exam ++ [chapterId]) in
     let exam := set_lastActivity exam (Some now) in
     let current := set_exam current examId exam in
     let s := streaks current in
     let current :=
       if decide (today ∈ dates s) then current
       else set_streaks current {| dates := dates s ++ [today];
                                   current := Progress.current s;
                                   longest := longest s |} in
     saveProgress current)%js.

(** The scan of [initCourseOverview] over the chapter items: an item is
    its [data-chapter] attribute, [None] when it has none.  The result is
    the position of the item marked as current. *)
Definition scanStep (completedSet : list string) (firstIncomplete : option nat)
  (i : nat) (item : option string) : option nat :=
  match item with
  | None => firstIncomplete
  | Some chapterId =>
      if bool_decide (chapterId ∈ completedSet) then firstIncomplete
      else match firstIncomplete with
           | None => Some i
           | Some _ => firstIncomplete
           end
  end.

Fixpoint scanFrom (completedSet : list string) (i : nat)
  (items : list (option string)) (firstIncomplete : option nat) : option nat :=
  match items with
  | [] => firstIncomplete
  | item :: rest =>
      scanFrom completedSet (S i) rest (scanStep completedSet firstIncomplete i item)
  end.

Definition firstIncomplete (completedSet : list string)
  (chapterItems : list (option string)) : option nat :=
  scanFrom completedSet 0 chapterItems None.

End Learn.

Module QuizEngine.

Record Question := {
  question : string;
  choices : list string;
  correct : Z;
  topic : option string;
  explanation : option string
}.

(** [state.count] before the quiz starts: a number, or [Infinity] for
    'all'. *)
Inductive Count := Finite (n : Z) | Infinity.

(** The fields of [state] set by [initQuiz] or the configuration form. *)
Record Config := { c_examId : string; c_count : Count; c_timed : bool }.

(** [state] once [startQuiz] has loaded the questions, which is when
    [renderQuiz] installs the handlers below: [count] is a number from
    then on.  [examMeta] is the passing score of the metadata found.  The
    timer fields are left out; no handler below reads them. *)
Record State := {
  examId : string;
  examMeta : option Z;
  questions : list Question;
  answers : gmap Z Z;
  flagged : gset Z;
  currentIndex : Z;
  count : Z;
  timed : bool;
  submitted : bool;
  reviewMode : bool
}.

(** [arr.slice(0, end)] *)
Definition slice0 {A} (arr : list A) (end_ : Z) : list A :=
  if end_ <? 0 then take (Z.to_nat (Z.max (Z.of_nat (length arr) + end_) 0)) arr
  else take (Z.to_nat end_) arr.

(** [state.questions[state.currentIndex]], [undefined] being [None]. *)
Definition currentQuestion (st : State) : option Question :=
  if currentIndex st <? 0 then None
  else questions st !! Z.to_nat (currentIndex st).

(** [renderQuestion(root)] on the page built by [renderQuiz], where the
    question area exists.  It writes nothing to [state]; it reads the
    fields of the question under [currentIndex], and with no question
    there [q.topic] throws a TypeError. *)
Definition renderQuestion (st : State) : Outcome unit :=
  match currentQuestion st with
  | Some _ => Returned tt
  | None => Thrown
  end.

(** [renderQuiz(root)]: builds the page, installs the handlers below and
    renders the first question. *)
Definition renderQuiz (st : State) : Outcome unit := renderQuestion st.

(** [startQuiz(root)] after the two fetches: [exams] is [None] when the
    metadata did not load and otherwise the passing score of the exam
    found, if any; [bank] is [None] when the questions did not load.  The
    result is [None] when no quiz is started, and otherwise the [state]
    assigned together with the outcome of the closing [renderQuiz]. *)
Definition startQuiz (draw : nat -> nat) (cfg : Config)
  (exams : option (option Z)) (bank : option (list Question))
  : option (Outcome unit * State) :=
  let examMeta :=
    match exams with
    | Some found => found
    | None => None
    end in
  match bank with
  | None => None
  | Some [] => None
  | Some bank =>
      let shuffled := Utils.shuffleArray draw bank in
      let limit :=
        match c_count cfg with
        | Infinity => Z.of_nat (length shuffled)
        | Finite n => Z.min n (Z.of_nat (length shuffled))
        end in
      let questions := slice0 shuffled limit in
      let st := {| examId := c_examId cfg;
                   examMeta := examMeta;
                   questions := questions;
                   answers := ∅;
                   flagged := ∅;
                   currentIndex := 0;
                   count := Z.of_nat (length questions);
                   timed := c_timed cfg;
                   submitted := false;
                   reviewMode := false |} in
      Some (renderQuiz st, st)
  end.

Record TopicScore := { t_correct : Z; t_total : Z }.

(** The callback of [state.questions.forEach] in [showResults]. *)
Definition scoreStep (answers : gmap Z Z) (acc : Z * gmap string TopicScore)
  (i : Z) (q : Question) : Z * gmap string TopicScore :=
  let '(nCorrect, topicScores) := acc in
  let isCorrect := bool_decide (answers !! i = Some (correct q)) in
  let nCorrect := if isCorrect then nCorrect + 1 else nCorrect in
  let topic :=
    match topic q with
    | Some t => if Progress.truthy t then t else "General"%string
    | None => "General"%string
    end in
  let entry :=
    match topicScores !! topic with
    | Some e => e
    | None => {| t_correct := 0; t_total := 0 |}
    end in
  let entry := {| t_correct := t_correct entry; t_total := t_total entry + 1 |} in
  let entry :=
    if isCorrect
    then {| t_correct := t_correct entry + 1; t_total := t_total entry |}
    else entry in
  (nCorrect, <[topic := entry]> topicScores).

Fixpoint scoreFrom (answers : gmap Z Z) (i : Z) (qs : list Question)
  (acc : Z * gmap string TopicScore) : Z * gmap string TopicScore :=
  match qs with
  | [] => acc
  | q :: rest => scoreFrom answers (i + 1) rest (scoreStep answers acc i q)
  end.

(** [correct] and [topicScores] of [showResults]. *)
Definition score (st : State) : Z * gmap string TopicScore :=
  scoreFrom (answers st) 0 (questions st) (0, ∅).

(** The page: the quiz engine's [state] and the progress store. *)
Record World := { quiz : State; store : Progress.Storage }.

Definition onQuiz (f : State -> State) : Js World unit :=
  modify (fun w => {| quiz := f (quiz w); store := store w |}).

Definition onStore {A} (c : Js Progress.Storage A) : Js World A :=
  fun w => match c (store w) with
           | (o, s) => (o, {| quiz := quiz w; store := s |})
           end.

Definition set_answers (f : gmap Z Z -> gmap Z Z) (st : State) : State :=
  {| examId := examId st; examMeta := examMeta st; questions := questions st;
     answers := f (answers st); flagged := flagged st;
     currentIndex := currentIndex st; count := count st; timed := timed st;
     submitted := submitted st; reviewMode := reviewMode st |}.

Definition set_flagged (f : gset Z -> gset Z) (st : State) : State :=
  {| examId := examId st; examMeta := examMeta st; questions := questions st;
     answers := answers st; flagged := f (flagged st);
     currentIndex := currentIndex st; count := count st; timed := timed st;
     submitted := submitted st; reviewMode := reviewMode st |}.

Definition set_currentIndex (i : Z) (st : State) : State :=
  {| examId := examId st; examMeta := examMeta st; questions := questions st;
     answers := answers st; flagged := flagged st;
     currentIndex := i; count := count st; timed := timed st;
     submitted := submitted st; reviewMode := reviewMode st |}.

Definition set_submitted (b : bool) (st : State) : State :=
  {| examId := examId st; examMeta := examMeta st; questions := questions st;
     answers := answers st; flagged := flagged st;
     currentIndex := currentIndex st; count := count st; timed := timed st;
     submitted := b; reviewMode := reviewMode st |}.

Definition set_reviewMode (b : bool) (st : State) : State :=
  {| examId := examId st; examMeta := examMeta st; questions := questions st;
     answers := answers st; flagged := flagged st;
     currentIndex := currentIndex st; count := count st; timed := timed st;
     submitted := submitted st; reviewMode := b |}.

Definition set_questions (qs : list Question) (st : State) : State :=
  {| examId := examId st; examMeta := examMeta st; questions := qs;
     answers := answers st; flagged := flagged st;
     currentIndex := currentIndex st; count := count st; timed := timed st;
     submitted := submitted st; reviewMode := reviewMode st |}.

(** [showResults(root)]: the score is computed from [state] and saved
    through [saveQuizScore]; a failure of the save is caught. *)
Definition showResults {host : Host} (today : Z) (now : string)
  : Js World unit :=
  (w <- get ;;
   let st := quiz w in
   let '(nCorrect, _) := score st in
   onStore (tryCatch
              (Quiz.showResults today now (examId st) (examMeta st)
                 nCorrect (count st))
              (ret tt)))%js.

Definition selectAnswer (choiceIndex : Z) : Js World unit :=
  (w <- get ;;
   if submitted (quiz w) then ret tt
   else onQuiz (fun st => set_answers <[currentIndex st := choiceIndex]> st))%js.

Definition toggleFlag : Js World unit :=
  onQuiz (fun st =>
    let i := currentIndex st in
    if bool_decide (i ∈ flagged st) then set_flagged (fun f => f ∖ {[i]}) st
    else set_flagged (fun f => f ∪ {[i]}) st).

Definition goToQuestion {host : Host} (today : Z) (now : string) (index : Z)
  : Js World unit :=
  (w <- get ;;
   let st := quiz w in
   if (index <? 0) || (count st <=? index) then
     (if submitted st && (count st <=? index) then showResults today now
      else ret tt)
   else onQuiz (set_currentIndex index))%js.

Definition submitQuiz {host : Host} (today : Z) (now : string) : Js World unit :=
  (onQuiz (set_submitted true) ;;; showResults today now)%js.

(** [unanswered] of [confirmSubmit]. *)
Definition unanswered (st : State) : Z :=
  count st - Z.of_nat (size (answers st)).

(** [confirmSubmit(root)]; [confirm] is the user's answer to the dialog. *)
Definition confirmSubmit {host : Host} (today : Z) (now : string)
  (confirm : bool) : Js World unit :=
  if confirm then submitQuiz today now else ret tt.

(** The click handlers of the Previous and Next buttons. *)
Definition prevClick {host : Host} (today : Z) (now : string) : Js World unit :=
  (w <- get ;; goToQuestion today now (currentIndex (quiz w) - 1))%js.

Definition nextClick {host : Host} (today : Z) (now : string) (confirm : bool)
  : Js World unit :=
  (w <- get ;;
   let st := quiz w in
   if (currentIndex st =? count st - 1) && negb (submitted st)
   then confirmSubmit today now confirm
   else goToQuestion today now (currentIndex st + 1))%js.

(** The click handlers of the Review Answers and Try Again buttons. *)
Definition reviewClick : Js World unit :=
  onQuiz (fun st => set_currentIndex 0 (set_reviewMode true st)).

Definition retryClick (draw : nat -> nat) : Js World unit :=
  onQuiz (fun st =>
    let st := set_answers (fun _ => ∅) st in
    let st := set_flagged (fun _ => ∅) st in
    let st := set_currentIndex 0 st in
    let st := set_submitted false st in
    let st := set_reviewMode false st in
    set_questions (Utils.shuffleArray draw (questions st)) st).

(** *** Vocabulary of the statements *)

(** What the user can do while a quiz is on the page. *)
Inductive Event :=
| Select (choiceIndex : Z)
| Flag
| GoTo (index : Z)
| Prev
| Next (confirm : bool)
| Review.

Definition handle {host : Host} (today : Z) (now : string) (ev : Event)
  : Js World unit :=
  match ev with
  | Select c => selectAnswer c
  | Flag => toggleFlag
  | GoTo i => goToQuestion today now i
  | Prev => prevClick today now
  | Next confirm => nextClick today now confirm
  | Review => reviewClick
  end.

Fixpoint handleAll {host : Host} (today : Z) (now : string) (evs : list Event)
  : Js World unit :=
  match evs with
  | [] => ret tt
  | ev :: rest => (handle today now ev ;;; handleAll today now rest)%js
  end.

(** The state of a running quiz: [count] questions, the current one among
    them, answers and flags only for them. *)
Definition running (st : State) : Prop :=
  count st = Z.of_nat (length (questions st)) ∧
  0 ≤ currentIndex st < count st ∧
  (∀ i, is_Some (answers st !! i) → 0 ≤ i < count st) ∧
  (∀ i, i ∈ flagged st → 0 ≤ i < count st).

(** The sums of the per-topic counters. *)
Definition sumCorrect (topicScores : gmap string TopicScore) : Z :=
  map_fold (fun _ e acc => t_correct e + acc) 0 topicScores.

Definition sumTotal (topicScores : gmap string TopicScore) : Z :=
  map_fold (fun _ e acc => t_total e + acc) 0 topicScores.

(** The per-topic counters are consistent. *)
Definition topicsOk (topicScores : gmap string TopicScore) : Prop :=
  ∀ t e, topicScores !! t = Some e →
         0 ≤ t_correct e ≤ t_total e ∧ 1 ≤ t_total e.

(** The record [showResults] saves for a quiz at time [now]. *)
Definition attempt (now : string) (st : State) : Progress.QuizScore :=
  {| Progress.date := now;
     Progress.score := (score st).1;
     Progress.total := count st;
     Progress.passed :=
       Quiz.ge (Quiz.percentOf (score st).1 (count st))
         (Quiz.Number (match examMeta st with
                       | Some p => p
                       | None => 70
                       end)) |}.

(** The quiz scores saved for an exam. *)
Definition savedScores (st : Progress.Storage) (examId : string)
  : list Progress.QuizScore :=
  Progress.quizScores
    (default Progress.getDefaultExamProgress
       (Progress.exams (Progress.loaded st) !! examId)).

End QuizEngine.

(** * Sample states *)

Module FlashcardsExamples.
Import Flashcards.

Definition bond : Card :=
  {| id := "bond"; term := "Bond"; definition := "A debt security" |}.
Definition stock : Card :=
  {| id := "stock"; term := "Stock"; definition := "An equity security" |}.
Definition option : Card :=
  {| id := "option"; term := "Option"; definition := "A derivative contract" |}.

(** Today is day 10; [bond] is in box 3 and not due, [stock] is in box 2
    and due, [option] has no state yet. *)
Definition sampleModule : Module :=
  {| arrays := {[ 0%nat := [bond; stock; option] ]};
     studyQueue := 0%nat;
     currentIndex := 1%nat;
     sessionStats := {| mastered := 0; reviewing := 0; total := 3 |};
     leitnerState := {[ "bond"%string := {| box := 3; nextReview := 12 |};
                        "stock"%string := {| box := 2; nextReview := 9 |} ]};
     stored := None |}.

(** A freshly loaded page: nothing in memory, two cards in the stored
    item. *)
Definition savedModule : Module :=
  {| arrays := ∅;
     studyQueue := 0%nat;
     currentIndex := 0%nat;
     sessionStats := {| mastered := 0; reviewing := 0; total := 0 |};
     leitnerState := ∅;
     stored := Some {[ "bond"%string := {| box := 3; nextReview := 12 |};
                       "stock"%string := {| box := 2; nextReview := 9 |} ]} |}.

(** 2026-03-28, the day before summer time starts in Europe/Berlin, is
    day 20540; [stock] is in box 1 and due. *)
Definition springModule : Module :=
  {| arrays := {[ 0%nat := [stock] ]};
     studyQueue := 0%nat;
     currentIndex := 0%nat;
     sessionStats := {| mastered := 0; reviewing := 0; total := 1 |};
     leitnerState := {[ "stock"%string := {| box := 1; nextReview := 20540 |} ]};
     stored := None |}.

(** A module whose card has a box below the range. *)
Definition damagedModule : Module :=
  {| arrays := {[ 0%nat := [stock] ]};
     studyQueue := 0%nat;
     currentIndex := 0%nat;
     sessionStats := {| mastered := 0; reviewing := 0; total := 1 |};
     leitnerState := {[ "stock"%string := {| box := -1; nextReview := 9 |} ]};
     stored := None |}.

End FlashcardsExamples.

Module ProgressExamples.
Import Progress.

Definition quizA : QuizScore :=
  {| date := "2024-01-08T10:00:00.000Z"; score := 20; total := 25; passed := true |}.
Definition quizB : QuizScore :=
  {| date := "2024-01-09T11:30:00.000Z"; score := 15; total := 25; passed := false |}.

Definition sieExam : ExamProgress :=
  {| topicsStudied := ["t1"%string];
     chaptersCompleted := ["ch1"%string];
     quizScores := [quizA];
     flashcardsMastered := 3;
     lastActivity := Some "2024-01-08T10:00:00.000Z"%string |}.

(** A store last used on days 8 and 9. *)
Definition sampleData : ProgressData :=
  {| exams := {[ "sie"%string := sieExam ]};
     streaks := {| dates := [9; 8]; current := 2; longest := 4 |} |}.

Definition sieImport : ExamData :=
  {| d_topicsStudied := Some ["t1"; "t2"]%string;
     d_chaptersCompleted := Some ["ch2"%string];
     d_quizScores := Some [Some quizA; Some quizB];
     d_flashcardsMastered := Some 7;
     d_lastActivity := Some "2024-01-09T11:30:00.000Z"%string |}.

Definition sampleSnapshot : Snapshot :=
  {| s_exams := Some {[ "sie"%string := Some sieImport ]};
     s_streaks := Some {| d_dates := Some [10; 9]; d_longest := Some 5 |} |}.


Definition withDates (ds : list Z) : ProgressData :=
  {| exams := ∅; streaks := {| dates := ds; current := 0; longest := 0 |} |}.

(** An import whose streak data has no array of dates. *)
Definition datelessSnapshot : Snapshot :=
  {| s_exams := Some {[ "sie"%string := Some sieImport ]};
     s_streaks := Some {| d_dates := None; d_longest := Some 9 |} |}.

End ProgressExamples.

Module QuizExamples.
Import QuizEngine.

Definition q1 : Question :=
  {| question := "What is a bond?"; choices := ["Debt"; "Equity"; "Option"; "Fund"];
     correct := 0; topic := Some "Debt"%string; explanation := None |}.
Definition q2 : Question :=
  {| question := "What is a stock?"; choices := ["Debt"; "Equity"; "Option"; "Fund"];
     correct := 1; topic := Some "Equity"%string; explanation := None |}.
Definition q3 : Question :=
  {| question := "What is a call?"; choices := ["Debt"; "Equity"; "Option"; "Fund"];
     correct := 2; topic := None; explanation := Some "A call is an option."%string |}.

(** A quiz of three questions in progress: the first two answered, the
    second one wrongly; the third is current. *)
Definition sampleQuiz : State :=
  {| examId := "sie"; examMeta := Some 70; questions := [q1; q2; q3];
     answers := {[ 0 := 0; 1 := 3 ]}; flagged := {[ 1 ]};
     currentIndex := 2; count := 3; timed := false;
     submitted := false; reviewMode := false |}.

Definition sampleWorld : World :=
  {| quiz := sampleQuiz; store := Some ProgressExamples.sampleData |}.

Definition sampleConfig : Config :=
  {| c_examId := "sie"; c_count := Finite 2; c_timed := false |}.

End QuizExamples.

(** * Facts about the monad and the sort *)

Section SortFacts.
Context {A : Type} (cmp : A -> A -> Z).

Local Abbreviation cmp_le := (cmp_le cmp).

Hypothesis cmp_total : ∀ a b, cmp_le a b ∨ cmp_le b a.
Hypothesis cmp_trans : ∀ a b c, cmp_le a b → cmp_le b c → cmp_le a c.

Lemma insert_by_Permutation x l : insert_by cmp x l ≡ₚ x :: l.
Proof.
  induction l as [|y l IH]; simpl; [done|].
  destruct (cmp x y <=? 0); [done|].
  rewrite IH. apply Permutation_swap.
Qed.

Lemma sort_by_Permutation l : sort_by cmp l ≡ₚ l.
Proof.
  induction l as [|x l IH]; simpl; [done|].
  by rewrite insert_by_Permutation, IH.
Qed.

Lemma insert_by_sorted x l :
  StronglySorted cmp_le l → StronglySorted cmp_le (insert_by cmp x l).
Proof.
  induction 1 as [|y l Hl IH Hy]; simpl.
  - repeat constructor.
  - destruct (Z.leb_spec (cmp x y) 0) as [Hxy|Hxy].
    + constructor; [by constructor|].
      constructor; [done|].
      eapply Forall_impl; [exact Hy|]. intros z Hz. by eapply cmp_trans.
    + constructor; [done|].
      rewrite insert_by_Permutation. constructor; [|done].
      destruct (cmp_total x y) as [H|H]; [|done].
      unfold cmp_le in H. lia.
Qed.

Lemma sort_by_sorted l : StronglySorted cmp_le (sort_by cmp l).
Proof.
  induction l as [|x l IH]; simpl; [constructor|].
  by apply insert_by_sorted.
Qed.

(** Stability: the elements of a class [P] whose members compare equal
    keep their relative order. *)
Lemma insert_by_filter (P : A → Prop) `{∀ a, Decision (P a)} x l :
  (∀ a b, P a → P b → cmp_le a b) →
  filter P (insert_by cmp x l) = filter P (x :: l).
Proof.
  intros HP. induction l as [|y l IH]; simpl; [done|].
  destruct (Z.leb_spec (cmp x y) 0) as [Hxy|Hxy]; [done|].
  rewrite filter_cons, IH, !filter_cons.
  destruct (decide (P y)) as [Hy|Hy], (decide (P x)) as [Hx|Hx]; try done.
  specialize (HP x y Hx Hy). unfold cmp_le in HP. lia.
Qed.

Lemma sort_by_filter (P : A → Prop) `{∀ a, Decision (P a)} l :
  (∀ a b, P a → P b → cmp_le a b) →
  filter P (sort_by cmp l) = filter P l.
Proof.
  intros HP. induction l as [|x l IH]; simpl; [done|].
  rewrite insert_by_filter, !filter_cons, IH by done. done.
Qed.


(** A sorted list in which equal elements keep the order they have in
    [l2] is determined by [l2]: a stable sort has one possible result. *)
Lemma stable_sorted_unique l1 l2 :
  StronglySorted cmp_le l1 → StronglySorted cmp_le l2 → l1 ≡ₚ l2 →
  (∀ k, filter (cmp_eq cmp k) l1 = filter (cmp_eq cmp k) l2) →
  l1 = l2.
Proof.
  intros H1. revert l2. induction H1 as [|x l1 Hl1 IH Hx]; intros l2 H2 Hp Hf.
  { by apply Permutation_nil_l in Hp. }
  destruct H2 as [|y l2 Hl2 Hy].
  { by apply Permutation_nil_r in Hp. }
  rewrite Forall_forall in Hx, Hy.
  assert (cmp_le x x) as Hxx by (destruct (cmp_total x x); done).
  assert (cmp_le y y) as Hyy by (destruct (cmp_total y y); done).
  assert (cmp_le x y) as Hxy.
  { assert (y ∈ x :: l1) as Hin by (rewrite Hp; left).
    apply elem_of_cons in Hin as [->|Hin]; auto. }
  assert (cmp_le y x) as Hyx.
  { assert (x ∈ y :: l2) as Hin by (rewrite <-Hp; left).
    apply elem_of_cons in Hin as [->|Hin]; auto. }
  assert (x = y) as <-.
  { specialize (Hf x). rewrite !filter_cons in Hf.
    rewrite decide_True in Hf by done.
    rewrite (decide_True (P := cmp_eq cmp x y)) in Hf by done.
    congruence. }
  f_equal. apply IH; [done|by apply (inj (x ::.))|].
  intros k. specialize (Hf k). rewrite !filter_cons in Hf.
  destruct (decide (cmp_eq cmp k x)); congruence.
Qed.

Lemma sort_by_unique l l' :
  StronglySorted cmp_le l' → l' ≡ₚ l →
  (∀ k, filter (cmp_eq cmp k) l' = filter (cmp_eq cmp k) l) →
  l' = sort_by cmp l.
Proof.
  intros Hs Hp Hf. apply stable_sorted_unique; [done|apply sort_by_sorted| |].
  - by rewrite sort_by_Permutation.
  - intros k. rewrite Hf. symmetry. apply sort_by_filter.
    intros a b [_ Ha] [Hb _]. by eapply cmp_trans.
Qed.

End SortFacts.

Lemma insert_by_ext_in {A} (c1 c2 : A → A → Z) x l :
  (∀ b, b ∈ l → c1 x b = c2 x b) → insert_by c1 x l = insert_by c2 x l.
Proof.
  induction l as [|y l IH]; intros E; simpl; [done|].
  rewrite (E y) by left. rewrite IH; [done|]. intros b Hb. apply E. by right.
Qed.

(** The result depends on the comparator's verdicts on the elements of the
    list only. *)
Lemma sort_by_ext_in {A} (c1 c2 : A → A → Z) l :
  (∀ a b, a ∈ l → b ∈ l → c1 a b = c2 a b) → sort_by c1 l = sort_by c2 l.
Proof.
  induction l as [|x l IH]; intros E; simpl; [done|].
  rewrite IH by (intros a b Ha Hb; apply E; by right).
  apply insert_by_ext_in. intros b Hb. apply E; [left|].
  right. by rewrite sort_by_Permutation in Hb.
Qed.

Lemma StronglySorted_weaken {A} (R R' : relation A) l :
  (∀ a b, R a b → R' a b) → StronglySorted R l → StronglySorted R' l.
Proof.
  intros HR. induction 1 as [|x l Hl IH Hx]; constructor; [done|].
  eapply Forall_impl; [exact Hx|]. intros; by apply HR.
Qed.

(** [Array_sort] with an effectful comparator whose effects stay inside a
    preorder [R] on states that preserves the comparator's verdicts. *)
Section ArraySortFacts.
Context {S A : Type} (comparefn : A -> A -> Js S Z) (cmp : S -> A -> A -> Z).
Context (R : relation S) (P : A → Prop).

Hypothesis R_refl : ∀ s, R s s.
Hypothesis R_trans : ∀ s1 s2 s3, R s1 s2 → R s2 s3 → R s1 s3.
Hypothesis cmp_stable : ∀ s s' a b, R s s' → cmp s' a b = cmp s a b.
Hypothesis comparefn_run : ∀ a b s, P a → P b →
  ∃ s', comparefn a b s = (Returned (cmp s a b), s') ∧ R s s'.

Lemma insert_by_ext (c1 c2 : A → A → Z) x l :
  (∀ a b, c1 a b = c2 a b) → insert_by c1 x l = insert_by c2 x l.
Proof.
  intros E. induction l as [|y l IH]; simpl; [done|]. by rewrite E, IH.
Qed.

Lemma Array_insert_run x l s :
  P x → Forall P l →
  ∃ s', Array_insert comparefn x l s = (Returned (insert_by (cmp s) x l), s') ∧
        R s s'.
Proof.
  intros Hx Hl. revert s. induction Hl as [|y l Hy Hl IH]; intros s; simpl.
  - eexists; split; [done|apply R_refl].
  - unfold bind at 1.
    destruct (comparefn_run x y s Hx Hy) as (s1 & -> & Hs1).
    destruct (cmp s x y <=? 0).
    + eexists; split; [done|done].
    + destruct (IH s1) as (s2 & Hrun & Hs2).
      unfold bind. rewrite Hrun. eexists; split; [|by eapply R_trans].
      rewrite (insert_by_ext (cmp s1) (cmp s)); [done|].
      intros a b. by apply cmp_stable.
Qed.

Lemma Array_sort_run l s :
  Forall P l →
  ∃ s', Array_sort comparefn l s = (Returned (sort_by (cmp s) l), s') ∧ R s s'.
Proof.
  induction 1 as [|x l Hx Hl IH]; simpl.
  - eexists; split; [done|apply R_refl].
  - destruct IH as (s1 & Hrun & Hs1).
    unfold bind. rewrite Hrun.
    destruct (Array_insert_run x (sort_by (cmp s) l) s1 Hx) as (s2 & Hins & Hs2).
    { by rewrite sort_by_Permutation. }
    rewrite Hins. eexists; split; [|by eapply R_trans].
    rewrite (insert_by_ext (cmp s1) (cmp s)); [done|].
    intros a b. by apply cmp_stable.
Qed.

End ArraySortFacts.

(** * Facts about the host's dates *)

Section HostFacts.
Context {host : Host}.

Lemma msPerDay_pos : 0 < msPerDay.
Proof. done. Qed.

Lemma isoDay_midnight d off : 0 ≤ off < msPerDay → isoDay (d * msPerDay + off) = d.
Proof.
  intros Hoff. unfold isoDay. symmetry.
  apply (Z.div_unique _ _ _ off); [left; done|lia].
Qed.

(** In a zone with a constant offset [setDate] moves a time value by whole
    days. *)
Lemma setDate_constant off t n :
  constantOffset off → setDate t n = t + n * msPerDay.
Proof.
  intros Hoff. unfold setDate.
  rewrite (proj1 (Hoff t)), (proj2 (Hoff _)). lia.
Qed.

Lemma parseLocal_constant off d :
  constantOffset off → parseLocal d = d * msPerDay - off.
Proof. intros Hoff. unfold parseLocal. by rewrite (proj2 (Hoff _)). Qed.

(** There, [addDays] adds the days. *)
Lemma addDays_constant off d n :
  constantOffset off → isoDay (setDate (parseUTC d) n) = d + n.
Proof.
  intros Hoff. rewrite (setDate_constant off) by done. unfold parseUTC.
  replace (d * msPerDay + n * msPerDay) with ((d + n) * msPerDay + 0) by lia.
  by apply isoDay_midnight.
Qed.

(** Local midnights come in the order of their dates. *)
Lemma parseLocal_mono d1 d2 : d1 ≤ d2 → parseLocal d1 ≤ parseLocal d2.
Proof. apply midnightsInOrder. Qed.

End HostFacts.

Lemma utcHost_constant : constantOffset (host := utcHost) 0.
Proof. intros t. simpl. lia. Qed.

Lemma fixedOffset_constant off Hoff :
  constantOffset (host := fixedOffset off Hoff) off.
Proof. by intros t. Qed.

Module FlashcardsFacts.
Import Flashcards.

Lemma stateOf_lookup today ls i st : ls !! i = Some st → stateOf today ls i = st.
Proof. unfold stateOf. by intros ->. Qed.

Lemma touched_refl today l m : touched today l m m.
Proof. repeat split; auto. Qed.

Lemma touched_trans today l m1 m2 m3 :
  touched today l m1 m2 → touched today l m2 m3 → touched today l m1 m3.
Proof.
  intros (?&?&?&?&?&H12) (?&?&?&?&?&H23).
  repeat split; try congruence.
  intros i. destruct (H12 i) as [E12|(N1&E2&Hi)], (H23 i) as [E23|(N2&E3&Hi')].
  - left. congruence.
  - right. split_and!; [congruence|done|done].
  - right. split_and!; [done|congruence|done].
  - congruence.
Qed.

Lemma touched_mono today l l' m m' :
  l ⊆ l' → touched today l m m' → touched today l' m m'.
Proof.
  intros Hsub (?&?&?&?&?&H). repeat split; try done.
  intros i. destruct (H i) as [E|(N&E&Hi)]; [by left|right].
  split_and!; [done..|].
  apply list_elem_of_fmap in Hi as (c & -> & Hc).
  apply list_elem_of_fmap. eauto.
Qed.

Lemma touched_stateOf today l m m' i :
  touched today l m m' →
  stateOf today (leitnerState m') i = stateOf today (leitnerState m) i.
Proof.
  intros (_&_&_&_&_&H). unfold stateOf.
  destruct (H i) as [->|(->&->&_)]; done.
Qed.

Lemma touched_compareKeys today l m m' a b :
  touched today l m m' →
  compareKeys today (leitnerState m') a b = compareKeys today (leitnerState m) a b.
Proof.
  intros H. unfold compareKeys, due.
  by rewrite !(touched_stateOf today l m m').
Qed.

Lemma getCardState_run today c m :
  ∃ m', getCardState today (id c) m =
          (Returned (stateOf today (leitnerState m) (id c)), m') ∧
        touched today [c] m m' ∧
        leitnerState m' !! id c = Some (stateOf today (leitnerState m) (id c)).
Proof.
  unfold getCardState, bind, get, stateOf.
  destruct (leitnerState m !! id c) as [st|] eqn:E; simpl.
  - eexists; split_and!; [done|apply touched_refl|done].
  - eexists; split_and!; [done| |simpl; by rewrite lookup_insert_eq].
    repeat split; simpl; try done.
    intros i. destruct (decide (i = id c)) as [->|Hne].
    + right. rewrite lookup_insert_eq. split_and!; [done|done|set_solver].
    + left. by rewrite lookup_insert_ne.
Qed.

Lemma compareCards_run today a b m :
  ∃ m', compareCards today a b m =
          (Returned (compareKeys today (leitnerState m) a b), m') ∧
        touched today [a; b] m m'.
Proof.
  unfold compareCards. unfold bind at 1.
  destruct (getCardState_run today a m) as (m1 & -> & H1 & _).
  unfold bind at 1.
  destruct (getCardState_run today b m1) as (m2 & -> & H2 & _).
  rewrite (touched_stateOf today [a] m m1 (id b) H1).
  exists m2. split.
  - unfold compareKeys, due.
    repeat match goal with |- context [if ?c then _ else _] => destruct c end;
      done.
  - eapply touched_trans; eapply touched_mono; try eassumption;
      intros x; rewrite !elem_of_cons; tauto.
Qed.

Lemma compareKeys_precedes today ls a b :
  cmp_le (compareKeys today ls) a b ↔ precedes today ls a b.
Proof.
  unfold cmp_le, compareKeys, precedes, due, localeCompare.
  repeat case_bool_decide; simpl;
    destruct (Z.eqb_spec (box (stateOf today ls (id a)))
                (box (stateOf today ls (id b)))); simpl;
    destruct (Z.compare_spec (nextReview (stateOf today ls (id a)))
                (nextReview (stateOf today ls (id b))));
    split; intros; try lia; intuition (try discriminate; try lia).
Qed.

Lemma precedes_total today ls a b : precedes today ls a b ∨ precedes today ls b a.
Proof.
  unfold precedes, due.
  repeat case_bool_decide; intuition (try discriminate; try lia).
  all: destruct (Z.lt_total (box (stateOf today ls (id a)))
                   (box (stateOf today ls (id b)))) as [?|[?|?]];
    destruct (Z.le_ge_cases (nextReview (stateOf today ls (id a)))
                (nextReview (stateOf today ls (id b))));
    intuition lia.
Qed.

Lemma precedes_trans today ls a b c :
  precedes today ls a b → precedes today ls b c → precedes today ls a c.
Proof.
  unfold precedes, due.
  repeat case_bool_decide; intuition (try discriminate; try lia).
Qed.

Lemma sameKey_precedes today ls k a b :
  sameKey today ls k a → sameKey today ls k b → precedes today ls a b.
Proof.
  unfold sameKey, precedes, due. intros [E1 E2] [E3 E4]. right.
  rewrite <-E2, <-E4, <-E1, <-E3. split; [done|right; lia].
Qed.

#[local] Instance sameKey_dec today ls k a : Decision (sameKey today ls k a).
Proof. unfold sameKey. apply _. Defined.

(** The whole effect of [sortCards]: a fresh array holding the stable
    insertion sort of the input by [compareKeys], default states created
    for ids of the input only. *)
Lemma sortCards_run today m cards l :
  arrays m !! cards = Some l →
  ∃ r m0 m',
    r = fresh (dom (arrays m)) ∧
    touched today l (set_arrays <[r := l]> m) m0 ∧
    m' = set_arrays <[r := sort_by (compareKeys today (leitnerState m)) l]> m0 ∧
    sortCards today cards m = (Returned r, m').
Proof.
  intros Hl. unfold sortCards, spread, sortInPlace, bind, get, modify, ret.
  rewrite Hl. simpl. rewrite lookup_insert_eq. simpl.
  set (r := fresh (dom (arrays m))). set (m1 := set_arrays <[r := l]> m).
  destruct (Array_sort_run (compareCards today)
              (fun s => compareKeys today (leitnerState s))
              (touched today l) (fun c => c ∈ l)
              (touched_refl today l) (touched_trans today l)) with (l := l) (s := m1)
    as (m0 & Hrun & Hm0).
  - intros s s' a b H. by eapply touched_compareKeys.
  - intros a b s Ha Hb. destruct (compareCards_run today a b s) as (s' & E & H).
    exists s'. split; [done|]. eapply touched_mono; [|exact H].
    intros x Hx. rewrite !elem_of_cons, elem_of_nil in Hx.
    by destruct Hx as [->|[->|[]]].
  - by apply Forall_forall.
  - rewrite Hrun. by exists r, m0, (set_arrays <[r := sort_by (compareKeys today (leitnerState m)) l]> m0).
Qed.

(** C2: [sortCards] orders the cards by the composite key.  For every
    array of cards and every Leitner map, the call returns an array holding
    a permutation of the input in which, for positions i < j, a due card
    never follows a card that is not due, cards of the same group are in
    ascending box order, and within equal box in ascending review date; the
    sort is stable (cards with equal keys keep their input order), the
    states answered for the cards are those before the call, and the
    resulting order is a function of the cards and their states alone: a
    call on any array with the same cards, in a module state that gives
    them the same states, produces the same order. *)
Theorem sortCards_ordered today m cards l :
  arrays m !! cards = Some l →
  ∃ r m' l',
    sortCards today cards m = (Returned r, m') ∧
    arrays m' !! r = Some l' ∧
    l' ≡ₚ l ∧
    (∀ i j a b, (i < j)%nat → l' !! i = Some a → l' !! j = Some b →
       let ls := leitnerState m in
       let sa := stateOf today ls (id a) in
       let sb := stateOf today ls (id b) in
       (due today ls b = true → due today ls a = true) ∧
       (due today ls a = due today ls b → box sa ≤ box sb) ∧
       (due today ls a = due today ls b → box sa = box sb →
        nextReview sa ≤ nextReview sb)) ∧
    (∀ k, filter (sameKey today (leitnerState m) k) l' =
          filter (sameKey today (leitnerState m) k) l) ∧
    (∀ i, stateOf today (leitnerState m') i = stateOf today (leitnerState m) i) ∧
    (∀ m2 cards2,
       arrays m2 !! cards2 = Some l →
       (∀ c, c ∈ l → stateOf today (leitnerState m2) (id c) =
                     stateOf today (leitnerState m) (id c)) →
       ∃ r2 m2', sortCards today cards2 m2 = (Returned r2, m2') ∧
                 arrays m2' !! r2 = Some l').
Proof.
  intros Hl. destruct (sortCards_run today m cards l Hl) as (r & m0 & m' & Hr & Hm0 & -> & Hrun).
  set (ls := leitnerState m).
  exists r. eexists. exists (sort_by (compareKeys today ls) l).
  assert (StronglySorted (precedes today ls) (sort_by (compareKeys today ls) l)) as Hsorted.
  { eapply (StronglySorted_weaken (cmp_le (compareKeys today ls))).
    - intros a b. apply compareKeys_precedes.
    - apply sort_by_sorted.
      + intros a b. rewrite !compareKeys_precedes. apply precedes_total.
      + intros a b c. rewrite !compareKeys_precedes. apply precedes_trans. }
  split_and!.
  - done.
  - simpl. by rewrite lookup_insert_eq.
  - apply sort_by_Permutation.
  - intros i j a b Hij Ha Hb.
    assert (precedes today ls a b) as Hab.
    { apply list_elem_of_split_length in Ha as (l1 & l2 & E & Hi).
      rewrite E in Hsorted, Hb.
      apply StronglySorted_app_1_r, StronglySorted_cons in Hsorted as [Hall _].
      rewrite Forall_forall in Hall. apply Hall.
      rewrite lookup_app_r in Hb by lia.
      destruct (j - length l1)%nat as [|n] eqn:En; [lia|].
      simpl in Hb. by eapply list_elem_of_lookup_2. }
    unfold precedes, due in *. simpl. repeat case_bool_decide; intuition (try discriminate; try lia).
  - intros k. apply sort_by_filter. intros a b Ha Hb.
    apply compareKeys_precedes. by eapply sameKey_precedes.
  - intros i. simpl. apply (touched_stateOf today l (set_arrays <[r:=l]> m) m0 i Hm0).
  - intros m2 cards2 Hl2 Hsame.
    destruct (sortCards_run today m2 cards2 l Hl2) as (r2 & m3 & m2' & _ & _ & -> & Hrun2).
    exists r2. eexists. split; [exact Hrun2|]. simpl. rewrite lookup_insert_eq.
    f_equal. apply sort_by_ext_in. intros a b Ha Hb.
    unfold compareKeys, due. by rewrite !Hsame.
Qed.

(** C10: [sortCards] does not mutate its argument.  The returned array is
    newly allocated and holds a permutation of the input; the input array
    and every other existing array keep their contents and order; every
    existing card state is kept, and the only new states are default
    states for ids of the input cards. *)
Theorem sortCards_frame today m cards l :
  arrays m !! cards = Some l →
  ∃ r m' l',
    sortCards today cards m = (Returned r, m') ∧
    arrays m !! r = None ∧ r ≠ cards ∧
    arrays m' !! r = Some l' ∧ l' ≡ₚ l ∧
    arrays m' !! cards = Some l ∧
    (∀ p, p ≠ r → arrays m' !! p = arrays m !! p) ∧
    (∀ i st, leitnerState m !! i = Some st → leitnerState m' !! i = Some st) ∧
    (∀ i, leitnerState m !! i = None →
          leitnerState m' !! i = None ∨
          (leitnerState m' !! i = Some (defaultState today) ∧ i ∈ id <$> l)) ∧
    studyQueue m' = studyQueue m ∧ currentIndex m' = currentIndex m ∧
    sessionStats m' = sessionStats m ∧ stored m' = stored m.
Proof.
  intros Hl.
  destruct (sortCards_run today m cards l Hl)
    as (r & m0 & m' & Hr & (Harr & Hq & Hidx & Hstats & Hsto & Hls) & -> & Hrun).
  assert (arrays m !! r = None) as Hfresh.
  { apply not_elem_of_dom. rewrite Hr. apply is_fresh. }
  assert (r ≠ cards) as Hne by congruence.
  exists r, (set_arrays <[r:=sort_by (compareKeys today (leitnerState m)) l]> m0),
    (sort_by (compareKeys today (leitnerState m)) l).
  simpl in *. rewrite Harr. split_and!.
  - done.
  - done.
  - done.
  - by rewrite lookup_insert_eq.
  - apply sort_by_Permutation.
  - by rewrite !lookup_insert_ne.
  - intros p Hp. by rewrite !lookup_insert_ne.
  - intros i st Hi. destruct (Hls i) as [E|(N&_)]; congruence.
  - intros i Hi. destruct (Hls i) as [E|(_&E&Hin)]; [left; congruence|by right].
  - done.
  - done.
  - done.
  - done.
Qed.

Lemma BOX_INTERVALS_table b d :
  BOX_INTERVALS !! b = Some d ↔ (b, d) ∈ intervalTable.
Proof.
  unfold BOX_INTERVALS, intervalTable. rewrite !elem_of_cons, elem_of_nil.
  rewrite !lookup_insert, lookup_singleton.
  split.
  - repeat case_decide; subst; intros Hd; simplify_eq; tauto.
  - intros Hd. decompose [or] Hd; clear Hd; simplify_eq;
      repeat case_decide; done.
Qed.

(** The two transitions of [handleAnswer] on the card under study, on a
    host whose offset from UTC is constant.  With the card's box in 1..5,
    "knows it" sets the box to [min(box + 1, 5)] and the review date to
    today plus the interval the table {1:0, 2:2, 3:4, 4:7, 5:14} gives for
    the new box; "still learning" sets the box to 1 and the review date to
    today, so the card is due.  Both persist the map and leave the other
    cards alone. *)
Lemma handleAnswer_transition {host : Host} off today m queue card :
  constantOffset off →
  arrays m !! studyQueue m = Some queue →
  queue !! currentIndex m = Some card →
  let st := stateOf today (leitnerState m) (id card) in
  (1 ≤ box st ≤ 5 →
   ∃ m' d,
     handleAnswer today true m = (Returned tt, m') ∧
     (Z.min (box st + 1) 5, d) ∈ intervalTable ∧
     leitnerState m' !! id card =
       Some {| box := Z.min (box st + 1) 5; nextReview := today + d |} ∧
     stored m' = Some (leitnerState m') ∧
     (∀ i, i ≠ id card → leitnerState m' !! i = leitnerState m !! i)) ∧
  (∃ m',
     handleAnswer today false m = (Returned tt, m') ∧
     leitnerState m' !! id card = Some {| box := 1; nextReview := today |} ∧
     isDue today (id card) m' = (Returned true, m') ∧
     stored m' = Some (leitnerState m') ∧
     (∀ i, i ≠ id card → leitnerState m' !! i = leitnerState m !! i)).
Proof.
  intros Hoff Hq Hc st.
  destruct (getCardState_run today card m) as (m1 & Hget & Hm1 & Hst).
  fold st in Hget, Hst.
  assert (∀ i, i ≠ id card → leitnerState m1 !! i = leitnerState m !! i) as Hothers.
  { intros i Hi. destruct Hm1 as (_&_&_&_&_&H).
    destruct (H i) as [E|(_&_&Hin)]; [done|].
    rewrite list_fmap_singleton, list_elem_of_singleton in Hin. done. }
  split.
  - intros Hbox.
    assert (∃ d, BOX_INTERVALS !! Z.min (box st + 1) 5 = Some d) as [d Hd].
    { assert (Z.min (box st + 1) 5 = 2 ∨ Z.min (box st + 1) 5 = 3 ∨
              Z.min (box st + 1) 5 = 4 ∨ Z.min (box st + 1) 5 = 5) as H by lia.
      destruct H as [-> | [-> | [-> | ->]]]; eexists; reflexivity. }
    eexists. exists d. split_and!.
    + unfold handleAnswer, addDays, bind, get, orThrow. simpl. rewrite Hq. simpl.
      rewrite Hc. simpl. rewrite Hget. rewrite Hd. simpl.
      rewrite (addDays_constant off) by done. reflexivity.
    + by apply BOX_INTERVALS_table.
    + simpl. rewrite !lookup_alter_eq, Hst. done.
    + done.
    + intros i Hi. simpl. rewrite !lookup_alter_ne by done. by apply Hothers.
  - eexists. split_and!.
    + unfold handleAnswer, bind, get, orThrow. simpl. rewrite Hq. simpl.
      rewrite Hc. simpl. rewrite Hget. simpl. reflexivity.
    + simpl. rewrite !lookup_alter_eq, Hst. done.
    + unfold isDue, getCardState, bind, get. simpl.
      rewrite !lookup_alter_eq, Hst. simpl.
      unfold ret. f_equal. f_equal. apply bool_decide_eq_true. simpl. lia.
    + done.
    + intros i Hi. simpl. rewrite !lookup_alter_ne by done. by apply Hothers.
Qed.

Import FlashcardsExamples.

Lemma sortCards_ordered_witness :
  arrays sampleModule !! 0%nat = Some [bond; stock; option] ∧
  ∃ r m' l',
    sortCards 10 0%nat sampleModule = (Returned r, m') ∧
    arrays m' !! r = Some l' ∧
    l' ≡ₚ [bond; stock; option] ∧
    (∀ k, filter (sameKey 10 (leitnerState sampleModule) k) l' =
          filter (sameKey 10 (leitnerState sampleModule) k) [bond; stock; option]).
Proof.
  assert (arrays sampleModule !! 0%nat = Some [bond; stock; option]) as H
    by reflexivity.
  split; [exact H|].
  destruct (sortCards_ordered 10 sampleModule 0%nat [bond; stock; option] H)
    as (r & m' & l' & H1 & H2 & H3 & _ & H5 & _).
  exists r, m', l'. auto.
Defined.

Lemma sortCards_frame_witness :
  arrays sampleModule !! 0%nat = Some [bond; stock; option] ∧
  ∃ r m',
    sortCards 10 0%nat sampleModule = (Returned r, m') ∧
    r ≠ 0%nat ∧
    arrays m' !! 0%nat = Some [bond; stock; option] ∧
    leitnerState m' !! "bond"%string = Some {| box := 3; nextReview := 12 |}.
Proof.
  assert (arrays sampleModule !! 0%nat = Some [bond; stock; option]) as H
    by reflexivity.
  split; [exact H|].
  destruct (sortCards_frame 10 sampleModule 0%nat [bond; stock; option] H)
    as (r & m' & l' & H1 & _ & H3 & _ & _ & H6 & _ & H8 & _).
  exists r, m'. split_and!; [exact H1|exact H3|exact H6|].
  apply H8. reflexivity.
Defined.

Lemma handleAnswer_transition_witness :
  arrays sampleModule !! studyQueue sampleModule = Some [bond; stock; option] ∧
  [bond; stock; option] !! currentIndex sampleModule = Some stock ∧
  1 ≤ box (stateOf 10 (leitnerState sampleModule) (id stock)) ≤ 5 ∧
  (∃ m', handleAnswer (host := utcHost) 10 true sampleModule = (Returned tt, m') ∧
         leitnerState m' !! "stock"%string =
           Some {| box := 3; nextReview := 14 |}) ∧
  (∃ m', handleAnswer (host := utcHost) 10 false sampleModule = (Returned tt, m') ∧
         leitnerState m' !! "stock"%string =
           Some {| box := 1; nextReview := 10 |}).
Proof.
  assert (arrays sampleModule !! studyQueue sampleModule =
            Some [bond; stock; option]) as Hq by reflexivity.
  assert ([bond; stock; option] !! currentIndex sampleModule = Some stock) as Hc
    by reflexivity.
  assert (1 ≤ box (stateOf 10 (leitnerState sampleModule) (id stock)) ≤ 5) as Hb
    by (vm_compute; split; discriminate).
  split; [exact Hq|]. split; [exact Hc|]. split; [exact Hb|]. split.
  - destruct (handleAnswer_transition (host := utcHost) 0 10 sampleModule _ stock
                utcHost_constant Hq Hc) as [Hknow _].
    destruct (Hknow Hb) as (m' & d & Hrun & Htab & Hst & _).
    exists m'. split; [exact Hrun|].
    apply BOX_INTERVALS_table in Htab.
    vm_compute in Htab. injection Htab as <-. exact Hst.
  - destruct (handleAnswer_transition (host := utcHost) 0 10 sampleModule _ stock
                utcHost_constant Hq Hc) as [_ Hstill].
    destruct Hstill as (m' & Hrun & Hst & _).
    exists m'. split; [exact Hrun|exact Hst].
Defined.

(** C1: across the start of summer time [handleAnswer] stores a review
    date one day short.  On a host in Europe/Berlin, on 2026-03-28 (day
    20540), a known card goes from box 1 to box 2, whose interval is 2
    days; the review date stored is 2026-03-29 (day 20541), not
    2026-03-30 (day 20542): [addDays] reads the date as UTC midnight,
    moves it in local time and prints the UTC day.  The box, the counter
    and the stored item are as the claim says. *)
Theorem handleAnswer_spring_forward :
  ∃ m',
    handleAnswer (host := berlin2026) 20540 true springModule = (Returned tt, m') ∧
    BOX_INTERVALS !! 2 = Some 2 ∧
    leitnerState m' !! "stock"%string = Some {| box := 2; nextReview := 20541 |} ∧
    stored m' = Some (leitnerState m') ∧
    isDue 20541 "stock" m' = (Returned true, m').
Proof.
  eexists. split_and!; [reflexivity|reflexivity|reflexivity|reflexivity|].
  reflexivity.
Qed.

End FlashcardsFacts.

(** * Insertion-ordered sets and sorted dates *)

Section SetFacts.
Context {A : Type} `{EqDecision A}.
Implicit Types l acc : list A.

Lemma foldl_Set_add_elem acc l x :
  x ∈ foldl Set_add acc l ↔ x ∈ acc ∨ x ∈ l.
Proof.
  revert acc. induction l as [|y l IH]; intros acc; simpl.
  - rewrite elem_of_nil. tauto.
  - rewrite IH, elem_of_cons. unfold Set_add.
    destruct (decide (y ∈ acc)) as [Hy|Hy].
    + split; [tauto|]. intros [?|[->|?]]; tauto.
    + rewrite elem_of_app, list_elem_of_singleton. tauto.
Qed.

Lemma foldl_Set_add_NoDup acc l : NoDup acc → NoDup (foldl Set_add acc l).
Proof.
  revert acc. induction l as [|y l IH]; intros acc Hacc; simpl; [done|].
  apply IH. unfold Set_add. destruct (decide (y ∈ acc)) as [Hy|Hy]; [done|].
  apply NoDup_app. split_and!; [done| |apply NoDup_singleton].
  intros x Hx ->%list_elem_of_singleton. done.
Qed.

Lemma foldl_Set_add_absorb acc l :
  (∀ x, x ∈ l → x ∈ acc) → foldl Set_add acc l = acc.
Proof.
  induction l as [|y l IH]; intros Hsub; simpl; [done|].
  unfold Set_add at 2. rewrite decide_True by (apply Hsub; left).
  apply IH. intros x Hx. apply Hsub. by right.
Qed.

Lemma foldl_Set_add_fresh acc l :
  NoDup (acc ++ l) → foldl Set_add acc l = acc ++ l.
Proof.
  revert acc. induction l as [|y l IH]; intros acc Hnd; simpl.
  - by rewrite app_nil_r.
  - unfold Set_add. rewrite decide_False.
    + rewrite IH; rewrite <-(assoc_L (++)); done.
    + apply NoDup_app in Hnd as (_ & Hnd & _). intros Hy.
      apply (Hnd y Hy). left.
Qed.

Lemma Set_from_elem l x : x ∈ Set_from l ↔ x ∈ l.
Proof. unfold Set_from. rewrite foldl_Set_add_elem, elem_of_nil. tauto. Qed.

Lemma Set_from_NoDup l : NoDup (Set_from l).
Proof. apply foldl_Set_add_NoDup. constructor. Qed.

Lemma Set_from_id l : NoDup l → Set_from l = l.
Proof. intros H. unfold Set_from. by rewrite foldl_Set_add_fresh. Qed.

Lemma Set_from_app l k : Set_from (l ++ k) = foldl Set_add (Set_from l) k.
Proof. unfold Set_from. by rewrite foldl_app. Qed.

Lemma Set_from_app_absorb l k :
  (∀ x, x ∈ k → x ∈ l) → NoDup l → Set_from (l ++ k) = l.
Proof.
  intros Hsub Hl. rewrite Set_from_app, Set_from_id by done.
  by apply foldl_Set_add_absorb.
Qed.

Lemma Set_from_twice l k : Set_from (Set_from (l ++ k) ++ k) = Set_from (l ++ k).
Proof.
  apply Set_from_app_absorb; [|apply Set_from_NoDup].
  intros x Hx. rewrite Set_from_elem, elem_of_app. by right.
Qed.

Lemma Set_from_self l : NoDup l → Set_from (l ++ l) = l.
Proof. intros. by apply Set_from_app_absorb. Qed.

Lemma Set_from_nil_inv l : Set_from l = [] → l = [].
Proof.
  destruct l as [|x l]; [done|]. intros H.
  assert (x ∈ Set_from (x :: l)) as Hx by (apply Set_from_elem; left).
  rewrite H in Hx. by apply elem_of_nil in Hx.
Qed.

End SetFacts.

Section DescendingFacts.
Import Progress.

Lemma descending_NoDup l : descending l → NoDup l.
Proof.
  induction 1 as [|x l Hl IH Hx]; constructor; [|done].
  intros Hin. rewrite Forall_forall in Hx. specialize (Hx x Hin). lia.
Qed.

Lemma descending_unique l1 l2 :
  descending l1 → descending l2 → (∀ x, x ∈ l1 ↔ x ∈ l2) → l1 = l2.
Proof.
  intros H1 H2 Hel. eapply StronglySorted_unique_strong; [|exact H1|exact H2|].
  - intros x1 x2 _ _ Ha Hb. simpl in *. lia.
  - apply NoDup_Permutation; auto using descending_NoDup.
Qed.

Lemma StronglySorted_strict (l : list Z) :
  StronglySorted (flip Z.le) l → NoDup l → descending l.
Proof.
  induction 1 as [|x l Hl IH Hx]; intros Hnd; [constructor|].
  apply NoDup_cons in Hnd as [Hx' Hnd]. constructor; [by apply IH|].
  rewrite Forall_forall in *. intros y Hy. specialize (Hx y Hy).
  unfold flip in Hx. assert (x ≠ y) by (by intros ->). lia.
Qed.

(** [[...new Set(dates)].sort().reverse()] *)
Lemma sorted_dates_elem (ds : list Z) x :
  x ∈ reverse (merge_sort Z.le (Set_from ds)) ↔ x ∈ ds.
Proof. by rewrite elem_of_reverse, merge_sort_Permutation, Set_from_elem. Qed.

Lemma sorted_dates_descending (ds : list Z) :
  descending (reverse (merge_sort Z.le (Set_from ds))).
Proof.
  apply StronglySorted_strict.
  - apply Sorted_StronglySorted; [apply _|].
    apply Sorted_reverse, Sorted_merge_sort. apply _.
  - rewrite reverse_Permutation, merge_sort_Permutation. apply Set_from_NoDup.
Qed.

Lemma sorted_dates_fixed (ds : list Z) :
  descending ds → reverse (merge_sort Z.le (Set_from ds)) = ds.
Proof.
  intros H. apply descending_unique; [apply sorted_dates_descending|done|].
  intros x. apply sorted_dates_elem.
Qed.

End DescendingFacts.

(** * The streak tracker *)

Module StreakFacts.
Import Progress.

Lemma consecutiveDays_elem ds ds' start n :
  (∀ x, x ∈ ds ↔ x ∈ ds') →
  consecutiveDays ds start n → consecutiveDays ds' start n.
Proof.
  intros E [H1 H2]. split.
  - intros j Hj. apply E. auto.
  - by rewrite <-E.
Qed.

(** The head of the sorted dates is the most recent date. *)
Lemma sorted_dates_head ds top :
  top ∈ ds → (∀ d, d ∈ ds → d ≤ top) →
  ∃ rest, reverse (merge_sort Z.le (Set_from ds)) = top :: rest.
Proof.
  intros Hin Hmax.
  pose proof (sorted_dates_descending ds) as Hdesc.
  pose proof (sorted_dates_elem ds) as Hel.
  destruct (reverse (merge_sort Z.le (Set_from ds))) as [|x rest].
  - apply Hel in Hin. by apply elem_of_nil in Hin.
  - exists rest. f_equal.
    apply StronglySorted_cons in Hdesc as [Hx _]. rewrite Forall_forall in Hx.
    assert (x ≤ top) by (apply Hmax, Hel; left).
    apply Hel, elem_of_cons in Hin as [->|Hin]; [done|].
    specialize (Hx _ Hin). simpl in Hx. lia.
Qed.

Lemma sorted_dates_nonempty (ds : list Z) :
  ds ≠ [] → ∃ top rest, reverse (merge_sort Z.le (Set_from ds)) = top :: rest.
Proof.
  intros Hne. destruct (reverse (merge_sort Z.le (Set_from ds))) as [|x r] eqn:E.
  - destruct ds as [|d ds]; [done|].
    assert (d ∈ reverse (merge_sort Z.le (Set_from (d :: ds)))) as Hd.
    { apply sorted_dates_elem. left. }
    rewrite E in Hd. by apply elem_of_nil in Hd.
  - eauto.
Qed.

(** The head of the sorted dates is at least every date. *)
Lemma sorted_dates_top ds top rest d :
  reverse (merge_sort Z.le (Set_from ds)) = top :: rest → d ∈ ds → d ≤ top.
Proof.
  intros E Hd.
  pose proof (sorted_dates_descending ds) as Hdesc.
  apply sorted_dates_elem in Hd. rewrite E in Hdesc, Hd.
  apply StronglySorted_cons in Hdesc as [Hx _]. rewrite Forall_forall in Hx.
  apply elem_of_cons in Hd as [->|Hd]; [lia|].
  specialize (Hx _ Hd). simpl in Hx. lia.
Qed.

(** ** In every zone *)

Section WithHost.
Context {host : Host}.

Lemma updateStreaks_unfold today data top rest :
  dates (streaks data) ≠ [] →
  reverse (merge_sort Z.le (Set_from (dates (streaks data)))) = top :: rest →
  updateStreaks today data =
    set_streaks data
      (if 1 <? (parseLocal today - parseLocal top) `div` msPerDay then
         {| dates := top :: rest; current := 0;
            longest := longest (streaks data) |}
       else
         let cur :=
           streakLoop (top :: rest) 0 (parseLocal today)
             ((parseLocal today - parseLocal top) `div` msPerDay) 0 in
         {| dates := top :: rest; current := cur;
            longest := if longest (streaks data) <? cur then cur
                       else longest (streaks data) |}).
Proof.
  intros Hne E. unfold updateStreaks.
  destruct (dates (streaks data)) as [|d ds] eqn:Hd; [done|].
  rewrite E. by destruct (1 <? _).
Qed.

(** Recomputing a recomputed streak changes nothing. *)
Lemma updateStreaks_idempotent today data :
  updateStreaks today (updateStreaks today data) = updateStreaks today data.
Proof.
  destruct (dates (streaks data)) as [|d0 ds0] eqn:Hd.
  { unfold updateStreaks. rewrite Hd. simpl. done. }
  destruct (sorted_dates_nonempty (dates (streaks data))) as (top & rest & E).
  { by rewrite Hd. }
  assert (dates (streaks data) ≠ []) as Hne by (by rewrite Hd).
  assert (descending (top :: rest)) as Hdesc.
  { rewrite <-E. apply sorted_dates_descending. }
  rewrite (updateStreaks_unfold today data top rest Hne E).
  set (l := longest (streaks data)).
  set (diff := (parseLocal today - parseLocal top) `div` msPerDay).
  set (cur := streakLoop (top :: rest) 0 (parseLocal today) diff 0).
  destruct (1 <? diff) eqn:Hdiff.
  - rewrite (updateStreaks_unfold today _ top rest);
      cbn [set_streaks streaks dates current longest exams];
      [|done|by apply sorted_dates_fixed].
    fold diff. by rewrite Hdiff.
  - cbv zeta.
    rewrite (updateStreaks_unfold today _ top rest);
      cbn [set_streaks streaks dates current longest exams];
      [|done|by apply sorted_dates_fixed].
    fold diff. rewrite Hdiff. fold cur. do 2 f_equal.
    destruct (Z.ltb_spec l cur); destruct (Z.ltb_spec cur cur);
      try destruct (Z.ltb_spec l cur); lia.
Qed.

(** Recomputation leaves the dates strictly descending, hence free of
    duplicates, whatever the store. *)
Lemma updateStreaks_dates today data :
  descending (dates (streaks (updateStreaks today data))) ∧
  ∀ x, x ∈ dates (streaks (updateStreaks today data)) ↔ x ∈ dates (streaks data).
Proof.
  destruct (decide (dates (streaks data) = [])) as [Hd|Hne].
  { unfold updateStreaks. rewrite Hd. simpl. split; [constructor|done]. }
  destruct (sorted_dates_nonempty (dates (streaks data)) Hne) as (top & rest & E).
  rewrite (updateStreaks_unfold today data top rest Hne E).
  assert (∀ a b (c : bool),
            dates (streaks (set_streaks data (if c then a else b))) =
            if c then dates a else dates b) as Hif by (by intros a b []).
  rewrite Hif. cbn [dates].
  replace (if 1 <? (parseLocal today - parseLocal top) `div` msPerDay
           then top :: rest else top :: rest) with (top :: rest)
    by (by destruct (1 <? _)).
  rewrite <-E. split; [apply sorted_dates_descending|].
  intros x. apply sorted_dates_elem.
Qed.

Lemma updateStreaks_longest_mono today data :
  longest (streaks data) ≤ longest (streaks (updateStreaks today data)).
Proof.
  unfold updateStreaks.
  destruct (dates (streaks data)); simpl; [lia|].
  destruct (reverse _); simpl.
  - destruct (Z.ltb_spec (longest (streaks data)) 0); lia.
  - destruct (1 <? _); simpl; [lia|].
    match goal with |- context [?a <? ?b] => destruct (Z.ltb_spec a b) end; lia.
Qed.

Lemma updateStreaks_exams today data :
  exams (updateStreaks today data) = exams data.
Proof.
  unfold updateStreaks.
  destruct (dates (streaks data)); simpl; [done|].
  destruct (reverse _); simpl; [done|].
  by destruct (1 <? _).
Qed.

(** [longest >= current] after a recomputation, when [longest] was not
    negative before ... *)
Lemma updateStreaks_invariant today data :
  0 ≤ longest (streaks data) → streakInvariant (updateStreaks today data).
Proof.
  intros Hl. split; [|apply descending_NoDup, updateStreaks_dates].
  unfold updateStreaks.
  destruct (dates (streaks data)); simpl; [lia|].
  destruct (reverse _); simpl.
  - destruct (Z.ltb_spec (longest (streaks data)) 0); lia.
  - destruct (1 <? _); simpl; [lia|].
    match goal with |- context [?a <? ?b] => destruct (Z.ltb_spec a b) end; lia.
Qed.

(** ... and in any case when today is among the dates: the most recent
    date is then not before today, and neither is its local midnight. *)
Lemma updateStreaks_invariant_today today data :
  today ∈ dates (streaks data) → streakInvariant (updateStreaks today data).
Proof.
  intros Hin. split; [|apply descending_NoDup, updateStreaks_dates].
  assert (dates (streaks data) ≠ []) as Hne.
  { intros H. rewrite H in Hin. by apply elem_of_nil in Hin. }
  destruct (sorted_dates_nonempty (dates (streaks data)) Hne) as (top & rest & E).
  rewrite (updateStreaks_unfold today data top rest Hne E).
  pose proof (sorted_dates_top _ _ _ _ E Hin) as Hle.
  pose proof (parseLocal_mono today top Hle) as Hmid.
  replace (1 <? (parseLocal today - parseLocal top) `div` msPerDay) with false.
  2:{ symmetry. apply Z.ltb_ge.
      assert ((parseLocal today - parseLocal top) `div` msPerDay ≤ 0); [|lia].
      apply Z.div_le_upper_bound; [done|lia]. }
  simpl.
  match goal with |- context [?a <? ?b] => destruct (Z.ltb_spec a b) end; lia.
Qed.

Lemma recordActivity_run today st :
  recordActivity today st =
    (Returned tt, Some (updateStreaks today (withToday today (loaded st)))).
Proof. by destruct st. Qed.

Lemma withToday_elem today data : today ∈ dates (streaks (withToday today data)).
Proof.
  unfold withToday. destruct (decide _) as [H|H]; [done|].
  simpl. apply elem_of_app. right. left.
Qed.

Lemma recordActivity_invariant today st :
  streakInvariant (loaded (snd (recordActivity today st))).
Proof.
  rewrite recordActivity_run. simpl.
  apply updateStreaks_invariant_today, withToday_elem.
Qed.

(** C4: [recordActivity] is idempotent within a day.  For every store, in
    every zone, a second call on the same day returns normally and leaves
    the store as the first call left it: same [current], same [longest],
    same dates. *)
Theorem recordActivity_idempotent today st :
  let st1 := snd (recordActivity today st) in
  let st2 := snd (recordActivity today st1) in
  fst (recordActivity today st) = Returned tt ∧
  fst (recordActivity today st1) = Returned tt ∧
  current (streaks (loaded st2)) = current (streaks (loaded st1)) ∧
  longest (streaks (loaded st2)) = longest (streaks (loaded st1)) ∧
  dates (streaks (loaded st2)) = dates (streaks (loaded st1)) ∧
  st2 = st1.
Proof.
  intros st1 st2.
  assert (st2 = st1) as E.
  { subst st2 st1. rewrite !recordActivity_run. simpl. f_equal.
    set (data1 := updateStreaks today (withToday today (loaded st))).
    assert (today ∈ dates (streaks data1)) as Hin.
    { apply updateStreaks_dates, withToday_elem. }
    unfold withToday at 1. rewrite decide_True by done.
    apply updateStreaks_idempotent. }
  rewrite E. subst st1. rewrite !recordActivity_run. done.
Qed.

End WithHost.

(** ** In a zone with a constant offset *)

Section ConstantOffset.
Context {host : Host} (off : Z).
Hypothesis Hoff : constantOffset off.

(** The distance between two local midnights is a whole number of days. *)
Lemma diffFromToday_constant today top :
  (parseLocal today - parseLocal top) `div` msPerDay = today - top.
Proof.
  rewrite !(parseLocal_constant off) by done.
  replace (today * msPerDay - off - (top * msPerDay - off))
    with ((today - top) * msPerDay) by lia.
  by apply Z.div_mul.
Qed.

(** At or west of UTC the UTC day of a local midnight is its date, so the
    loop expects the day [c - i] at index [i]. *)
Lemma expected_west c i :
  - msPerDay < off ≤ 0 →
  isoDay (setDate (c * msPerDay - off) (- i)) = c - i.
Proof.
  intros Hwest. rewrite (setDate_constant off) by done.
  replace (c * msPerDay - off + - i * msPerDay)
    with ((c - i) * msPerDay + - off) by lia.
  apply isoDay_midnight. lia.
Qed.

(** East of UTC local midnight falls on the previous UTC day, so the loop
    expects the day [c - i - 1]. *)
Lemma expected_east c i :
  0 < off < msPerDay →
  isoDay (setDate (c * msPerDay - off) (- i)) = c - i - 1.
Proof.
  intros Heast. rewrite (setDate_constant off) by done.
  replace (c * msPerDay - off + - i * msPerDay)
    with ((c - i - 1) * msPerDay + (msPerDay - off)) by lia.
  apply isoDay_midnight. lia.
Qed.

(** From index [i] on, with no adjustment pending, the loop counts the run
    of consecutive days ending at [c - i], at or west of UTC. *)
Lemma streakLoop_run rest i c diff cur (n : nat) :
  - msPerDay < off ≤ 0 →
  0 ≤ i → (0 < i ∨ diff ≠ 1) →
  descending rest →
  (∀ x, x ∈ rest → x ≤ c - i) →
  consecutiveDays rest (c - i) n →
  streakLoop rest i (c * msPerDay - off) diff cur = cur + Z.of_nat n.
Proof.
  intros Hwest Hi Hd Hdesc. revert i cur n Hi Hd.
  induction Hdesc as [|x rest Hrest IH Hx]; intros i cur n Hi Hd Hle [Hrun Hend].
  - destruct n as [|n]; [simpl; lia|].
    specialize (Hrun 0%nat ltac:(lia)). by apply elem_of_nil in Hrun.
  - rewrite Forall_forall in Hx. cbn [streakLoop]. rewrite expected_west by done.
    destruct n as [|n].
    + assert (x ≠ c - i) as Hne.
      { intros ->. apply Hend. rewrite Z.sub_0_r. left. }
      rewrite (proj2 (Z.eqb_neq _ _) Hne).
      replace ((i =? 0) && (diff =? 1)) with false; [simpl; lia|].
      symmetry. apply andb_false_iff. rewrite !Z.eqb_neq. lia.
    + assert (x = c - i) as ->.
      { pose proof (Hrun 0%nat ltac:(lia)) as H0. rewrite Z.sub_0_r in H0.
        apply elem_of_cons in H0 as [H0|H0]; [done|].
        specialize (Hx _ H0). specialize (Hle x ltac:(left)). simpl in Hx. lia. }
      rewrite Z.eqb_refl.
      rewrite (IH (i + 1) (cur + 1) n); [lia|lia|lia| |].
      * intros y Hy. specialize (Hx y Hy). simpl in Hx. lia.
      * split.
        -- intros j Hj. pose proof (Hrun (S j) ltac:(lia)) as Hin.
           apply elem_of_cons in Hin as [Hin|Hin]; [lia|].
           replace (c - (i + 1) - Z.of_nat j)
             with (c - i - Z.of_nat (S j)) by lia.
           done.
        -- intros Hin. apply Hend.
           replace (c - i - Z.of_nat (S n))
             with (c - (i + 1) - Z.of_nat n) by lia.
           by right.
Qed.

(** When the most recent date is today, [current] is the length of the run
    of consecutive days ending today, at or west of UTC. *)
Lemma updateStreaks_current_today today data (n : nat) :
  - msPerDay < off ≤ 0 →
  today ∈ dates (streaks data) →
  (∀ d, d ∈ dates (streaks data) → d ≤ today) →
  consecutiveDays (dates (streaks data)) today n →
  current (streaks (updateStreaks today data)) = Z.of_nat n.
Proof.
  intros Hwest Hin Hmax Hrun.
  destruct (sorted_dates_head _ _ Hin Hmax) as [rest E].
  rewrite (updateStreaks_unfold today data today rest);
    [|by intros H; rewrite H in Hin; apply elem_of_nil in Hin|done].
  rewrite diffFromToday_constant, Z.sub_diag. change (1 <? 0) with false.
  cbn [set_streaks streaks current]. rewrite <-E.
  rewrite (parseLocal_constant off) by done.
  rewrite (streakLoop_run _ 0 today 0 0 n);
    [lia|done|lia|lia|apply sorted_dates_descending| |].
  - intros x Hx. apply (proj1 (sorted_dates_elem _ _)) in Hx.
    specialize (Hmax x Hx). lia.
  - rewrite Z.sub_0_r. eapply consecutiveDays_elem; [|exact Hrun].
    intros x. by rewrite sorted_dates_elem.
Qed.

(** When the most recent date is yesterday, [current] is the length of the
    run of consecutive days ending yesterday, at or west of UTC. *)
Lemma updateStreaks_current_yesterday today data (n : nat) :
  - msPerDay < off ≤ 0 →
  today - 1 ∈ dates (streaks data) →
  (∀ d, d ∈ dates (streaks data) → d ≤ today - 1) →
  consecutiveDays (dates (streaks data)) (today - 1) n →
  current (streaks (updateStreaks today data)) = Z.of_nat n.
Proof.
  intros Hwest Hin Hmax Hrun.
  destruct (sorted_dates_head _ _ Hin Hmax) as [rest E].
  rewrite (updateStreaks_unfold today data (today - 1) rest);
    [|by intros H; rewrite H in Hin; apply elem_of_nil in Hin|done].
  rewrite diffFromToday_constant.
  replace (today - (today - 1)) with 1 by lia. change (1 <? 1) with false.
  rewrite (parseLocal_constant off) by done.
  cbn [set_streaks streaks current streakLoop].
  rewrite expected_west by done.
  replace (today - 1 =? today - 0) with false by (symmetry; apply Z.eqb_neq; lia).
  change ((0 =? 0) && (1 =? 1)) with true. cbv iota.
  replace (setDate (today * msPerDay - off) (- (1)))
    with ((today - 1) * msPerDay - off)
    by (rewrite (setDate_constant off) by done; lia).
  replace (isoDay ((today - 1) * msPerDay - off)) with (today - 1).
  2:{ symmetry. replace ((today - 1) * msPerDay - off)
        with ((today - 1) * msPerDay + - off) by lia.
      apply isoDay_midnight. lia. }
  rewrite Z.eqb_refl.
  pose proof (sorted_dates_descending (dates (streaks data))) as Hdesc.
  pose proof (sorted_dates_elem (dates (streaks data))) as Hel.
  rewrite E in Hdesc, Hel.
  apply StronglySorted_cons in Hdesc as [Hx Hdesc]. rewrite Forall_forall in Hx.
  destruct Hrun as [Hrun Hend].
  destruct n as [|n].
  { exfalso. apply Hend. by rewrite Z.sub_0_r. }
  change (0 + 1) with 1.
  rewrite (streakLoop_run rest 1 (today - 1) 1 1 n); [lia|done|lia|lia|done| |].
  - intros x Hx'. specialize (Hx x Hx'). simpl in Hx. lia.
  - split.
    + intros j Hj. pose proof (Hrun (S j) ltac:(lia)) as Hj'.
      apply Hel, elem_of_cons in Hj' as [Hj'|Hj']; [lia|].
      replace (today - 1 - 1 - Z.of_nat j) with (today - 1 - Z.of_nat (S j)) by lia.
      done.
    + intros Hin'. apply Hend, Hel.
      replace (today - 1 - Z.of_nat (S n)) with (today - 1 - 1 - Z.of_nat n) by lia.
      by right.
Qed.

(** East of UTC, when today is the most recent date the loop stops at its
    first step: the day it expects there is yesterday. *)
Lemma updateStreaks_current_east today data :
  0 < off < msPerDay →
  today ∈ dates (streaks data) →
  (∀ d, d ∈ dates (streaks data) → d ≤ today) →
  current (streaks (updateStreaks today data)) = 0.
Proof.
  intros Heast Hin Hmax.
  destruct (sorted_dates_head _ _ Hin Hmax) as [rest E].
  rewrite (updateStreaks_unfold today data today rest);
    [|by intros H; rewrite H in Hin; apply elem_of_nil in Hin|done].
  rewrite diffFromToday_constant, Z.sub_diag. change (1 <? 0) with false.
  rewrite (parseLocal_constant off) by done.
  cbn [set_streaks streaks current streakLoop].
  rewrite expected_east by done.
  replace (today =? today - 0 - 1) with false by (symmetry; apply Z.eqb_neq; lia).
  done.
Qed.

(** Streak continuity at or west of UTC.  With the date set
    {D-2, D-1, D} the current streak is 3; with {D-5} only it is 0; and
    when the most recent date is yesterday the streak is not broken: the
    number of consecutive days ending yesterday (at least one) is returned
    as [current]. *)
Lemma streak_continuity today data :
  - msPerDay < off ≤ 0 →
  let ds := dates (streaks data) in
  let current' := current (streaks (updateStreaks today data)) in
  ((∀ d, d ∈ ds ↔ d = today - 2 ∨ d = today - 1 ∨ d = today) → current' = 3) ∧
  ((∀ d, d ∈ ds ↔ d = today - 5) → current' = 0) ∧
  (∀ n : nat,
     today - 1 ∈ ds → (∀ d, d ∈ ds → d ≤ today - 1) →
     consecutiveDays ds (today - 1) n →
     current' = Z.of_nat n ∧ 1 ≤ current').
Proof.
  intros Hwest ds current'. split_and!.
  - intros Hds. subst current'.
    rewrite (updateStreaks_current_today today data 3); [done|done| | |].
    + apply Hds. auto.
    + intros d Hd. apply Hds in Hd. lia.
    + split.
      * intros j Hj. apply Hds.
        destruct j as [|[|[|j]]]; [right; right; lia|right; left; lia|left; lia|lia].
      * intros H. apply Hds in H. lia.
  - intros Hds. subst current'.
    destruct (sorted_dates_head ds (today - 5)) as [rest E].
    { apply Hds. done. }
    { intros d Hd. apply Hds in Hd. lia. }
    rewrite (updateStreaks_unfold today data (today - 5) rest); [| |done].
    + rewrite diffFromToday_constant.
      replace (today - (today - 5)) with 5 by lia. done.
    + intros H. assert (today - 5 ∈ ds) as Hin by (by apply Hds).
      unfold ds in Hin. rewrite H in Hin. by apply elem_of_nil in Hin.
  - intros n Hin Hmax Hrun. subst current'.
    rewrite (updateStreaks_current_yesterday today data n) by done.
    split; [done|]. destruct n as [|n]; [|lia].
    destruct Hrun as [_ Hend]. exfalso. apply Hend. by rewrite Z.sub_0_r.
Qed.

End ConstantOffset.

Import ProgressExamples.

Lemma streak_continuity_witness :
  ((∀ d, d ∈ [10; 8; 9] ↔ d = 10 - 2 ∨ d = 10 - 1 ∨ d = 10) ∧
   current (streaks (updateStreaks (host := utcHost) 10 (withDates [10; 8; 9]))) = 3) ∧
  ((∀ d, d ∈ [5] ↔ d = 10 - 5) ∧
   current (streaks (updateStreaks (host := utcHost) 10 (withDates [5]))) = 0) ∧
  ((10 - 1 ∈ [7; 9; 8; 5] ∧ (∀ d, d ∈ [7; 9; 8; 5] → d ≤ 10 - 1) ∧
    consecutiveDays [7; 9; 8; 5] (10 - 1) 3) ∧
   current (streaks (updateStreaks (host := utcHost) 10 (withDates [7; 9; 8; 5]))) = 3).
Proof.
  assert (- msPerDay < 0 ≤ 0) as Hw by done.
  assert (∀ d, d ∈ [10; 8; 9] ↔ d = 10 - 2 ∨ d = 10 - 1 ∨ d = 10) as H1.
  { intros d. rewrite !elem_of_cons, elem_of_nil. lia. }
  assert (∀ d, d ∈ [5] ↔ d = 10 - 5) as H2.
  { intros d. rewrite !elem_of_cons, elem_of_nil. lia. }
  assert (10 - 1 ∈ [7; 9; 8; 5]) as H3.
  { rewrite !elem_of_cons. lia. }
  assert (∀ d, d ∈ [7; 9; 8; 5] → d ≤ 10 - 1) as H4.
  { intros d. rewrite !elem_of_cons, elem_of_nil. lia. }
  assert (consecutiveDays [7; 9; 8; 5] (10 - 1) 3) as H5.
  { split.
    - intros j Hj. rewrite !elem_of_cons.
      destruct j as [|[|[|j]]]; simpl; lia.
    - rewrite !elem_of_cons, elem_of_nil. simpl. lia. }
  split; [split; [exact H1|]|split; [split; [exact H2|]|split; [auto|]]].
  - apply (streak_continuity (host := utcHost) 0 utcHost_constant 10
             (withDates [10; 8; 9]) Hw). exact H1.
  - apply (streak_continuity (host := utcHost) 0 utcHost_constant 10
             (withDates [5]) Hw). exact H2.
  - destruct (streak_continuity (host := utcHost) 0 utcHost_constant 10
                (withDates [7; 9; 8; 5]) Hw) as (_ & _ & H).
    destruct (H 3%nat H3 H4 H5) as [E _]. exact E.
Defined.

(** C3: east of UTC the streak is lost.  On a host in Europe/Berlin, on
    2026-01-12 (day 20465) with the dates 2026-01-10, 2026-01-11 and
    2026-01-12 stored, [updateStreaks] sets [current] to 0, where the
    claim says 3 and where a host in UTC computes 3: the loop prints local
    midnight of today with [toISOString], which is the day before in UTC,
    and stops at its first step. *)
Theorem streak_lost_east_of_UTC :
  current (streaks (updateStreaks (host := berlin2026) 20465
                      (withDates [20463; 20464; 20465]))) = 0 ∧
  current (streaks (updateStreaks (host := utcHost) 20465
                      (withDates [20463; 20464; 20465]))) = 3.
Proof. split; reflexivity. Qed.

End StreakFacts.

(** * Import and export *)

Module ImportFacts.
Import Progress StreakFacts.

Lemma ltb_irrefl (t : string) : String.ltb t t = false.
Proof.
  unfold String.ltb. pose proof (String.compare_antisym t t) as H.
  destruct (String.compare t t); simpl in H; congruence.
Qed.

Lemma all_Some {A} (l : list (option A)) :
  Forall is_Some l → ∃ l0, l = Some <$> l0.
Proof.
  induction 1 as [|x l [a ->] _ [l0 ->]]; [by exists []|by exists (a :: l0)].
Qed.

Lemma Forall_is_Some_fmap {A} (l0 : list A) : Forall is_Some (Some <$> l0).
Proof. induction l0; constructor; eauto. Qed.

(** The quizzes pushed by the loop: those with a truthy date that is not
    among the dates collected before the loop. *)
Lemma pushNewQuizzes_Some D l0 qs :
  pushNewQuizzes D (Some <$> l0) qs =
    Some (qs ++ filter (fun q => truthy (date q) = true ∧ date q ∉ D) l0).
Proof.
  revert qs. induction l0 as [|q l0 IH]; intros qs; simpl.
  - by rewrite app_nil_r.
  - rewrite IH, filter_cons.
    destruct (decide (truthy (date q) = true ∧ date q ∉ D)) as [[Ht Hin]|Hn].
    + rewrite Ht, bool_decide_eq_false_2 by done. simpl.
      by rewrite <-(assoc_L (++)).
    + destruct (truthy (date q)) eqn:Ht; simpl; [|done].
      rewrite bool_decide_eq_true_2; [done|].
      destruct (decide (date q ∈ D)); [done|]. destruct Hn. done.
Qed.

Lemma pushNewQuizzes_is_Some D l qs :
  is_Some (pushNewQuizzes D l qs) ↔ Forall is_Some l.
Proof.
  split.
  - revert qs. induction l as [|[q|] l IH]; intros qs H; simpl in *.
    + constructor.
    + constructor; [eauto|]. by eapply IH.
    + by destruct H.
  - intros [l0 ->]%all_Some. rewrite pushNewQuizzes_Some. eauto.
Qed.

Lemma filter_none {A} (P : A → Prop) `{∀ x, Decision (P x)} (l : list A) :
  (∀ x, x ∈ l → ¬ P x) → filter P l = [].
Proof.
  induction l as [|x l IH]; intros Hl; [done|].
  rewrite filter_cons_False by (apply Hl; left).
  apply IH. intros y Hy. apply Hl. by right.
Qed.

Lemma filter_ext_in {A} (P1 P2 : A → Prop)
  `{∀ x, Decision (P1 x)} `{∀ x, Decision (P2 x)} (l : list A) :
  (∀ x, x ∈ l → P1 x ↔ P2 x) → filter P1 l = filter P2 l.
Proof.
  induction l as [|x l IH]; intros Hl; [done|].
  rewrite !filter_cons, IH by (intros y Hy; apply Hl; by right).
  destruct (decide (P1 x)) as [H1|H1], (decide (P2 x)) as [H2|H2]; try done;
    exfalso; apply (Hl x ltac:(left)) in H1 || apply (Hl x ltac:(left)) in H2;
    done.
Qed.

Lemma pushNewQuizzes_idempotent l qs qs' :
  pushNewQuizzes (Set_from (date <$> qs)) l qs = Some qs' →
  pushNewQuizzes (Set_from (date <$> qs')) l qs' = Some qs'.
Proof.
  intros H.
  assert (is_Some (pushNewQuizzes (Set_from (date <$> qs)) l qs)) as Hs by eauto.
  apply pushNewQuizzes_is_Some, all_Some in Hs as [l0 ->].
  rewrite pushNewQuizzes_Some in H. injection H as <-.
  rewrite pushNewQuizzes_Some.
  rewrite (filter_none (fun q => truthy (date q) = true ∧
             date q ∉ Set_from (date <$> qs ++ filter _ l0)));
    [by rewrite app_nil_r|].
  intros q Hq [Ht Hnot]. apply Hnot.
  rewrite Set_from_elem, fmap_app, elem_of_app.
  destruct (decide (date q ∈ Set_from (date <$> qs))) as [Hin|Hin].
  - left. by apply Set_from_elem.
  - right. apply list_elem_of_fmap. exists q. split; [done|].
    apply list_elem_of_filter. done.
Qed.

Lemma pushNewQuizzes_exported qs :
  pushNewQuizzes (Set_from (date <$> qs)) (Some <$> qs) qs = Some qs.
Proof.
  rewrite pushNewQuizzes_Some, filter_none; [by rewrite app_nil_r|].
  intros q Hq [_ Hnot]. apply Hnot.
  rewrite Set_from_elem. apply list_elem_of_fmap. eauto.
Qed.

Lemma ltb_empty (t : string) : t ≠ ""%string → String.ltb "" t = true.
Proof. by destruct t. Qed.

Lemma truthy_true t : truthy t = true ↔ t ≠ ""%string.
Proof. unfold truthy. by rewrite bool_decide_eq_true. Qed.

Lemma mergeExam_is_Some e ed : is_Some (mergeExam e ed) ↔ entryOk (Some ed).
Proof.
  destruct e as [t c q f la], ed as [dt dc dq df dla].
  unfold mergeExam, entryOk. simpl.
  destruct dq as [l|]; simpl; [|by eauto].
  assert (∀ D, is_Some (pushNewQuizzes D l q) ↔ Forall is_Some l) as Hq
    by (intros; apply pushNewQuizzes_is_Some).
  destruct dt, dc; simpl; rewrite <-(Hq (Set_from (date <$> q)));
    destruct (pushNewQuizzes _ l q); simpl; split; intros [? ?]; try done; eauto.
Qed.

(** What a successful merge of one exam yields, field by field. *)
Lemma mergeExam_fields e ed e' :
  mergeExam e ed = Some e' →
  topicsStudied e' =
    match d_topicsStudied ed with
    | Some l => Set_from (topicsStudied e ++ l)
    | None => topicsStudied e
    end ∧
  chaptersCompleted e' =
    match d_chaptersCompleted ed with
    | Some l => Set_from (chaptersCompleted e ++ l)
    | None => chaptersCompleted e
    end ∧
  match d_quizScores ed with
  | Some l =>
      pushNewQuizzes (Set_from (date <$> quizScores e)) l (quizScores e) =
        Some (quizScores e')
  | None => quizScores e' = quizScores e
  end ∧
  flashcardsMastered e' =
    match d_flashcardsMastered ed with
    | Some n => Z.max (flashcardsMastered e) n
    | None => flashcardsMastered e
    end ∧
  lastActivity e' =
    match d_lastActivity ed with
    | Some t =>
        if truthy t then
          match lastActivity e with
          | Some t0 => if negb (truthy t0) || String.ltb t0 t then Some t
                       else Some t0
          | None => Some t
          end
        else lastActivity e
    | None => lastActivity e
    end.
Proof.
  destruct e as [t c q f la], ed as [dt dc dq df dla].
  unfold mergeExam. simpl. intros H.
  destruct dq as [l|]; simpl in H.
  - destruct dt, dc; simpl in H;
      destruct (pushNewQuizzes _ l q) as [q'|] eqn:Hq; simpl in H; try done;
      injection H as <-;
      destruct df, dla as [ta|]; simpl; try destruct (truthy ta); simpl;
      try destruct la as [t0|]; simpl;
      try destruct (negb (truthy t0) || String.ltb t0 ta); simpl; done.
  - injection H as <-.
    destruct dt, dc, df, dla as [ta|]; simpl; try destruct (truthy ta); simpl;
      try destruct la as [t0|]; simpl;
      try destruct (negb (truthy t0) || String.ltb t0 ta); simpl; done.
Qed.

(** Conversely the fields determine the merged exam. *)
Lemma exam_eq e1 e2 :
  topicsStudied e1 = topicsStudied e2 →
  chaptersCompleted e1 = chaptersCompleted e2 →
  quizScores e1 = quizScores e2 →
  flashcardsMastered e1 = flashcardsMastered e2 →
  lastActivity e1 = lastActivity e2 →
  e1 = e2.
Proof. destruct e1, e2; simpl; congruence. Qed.

Lemma mergeExam_idempotent e ed e' :
  mergeExam e ed = Some e' → mergeExam e' ed = Some e'.
Proof.
  intros H.
  assert (is_Some (mergeExam e' ed)) as [e'' H'].
  { apply mergeExam_is_Some. apply (mergeExam_is_Some e). eauto. }
  rewrite H'. f_equal.
  apply mergeExam_fields in H as (Ht & Hc & Hq & Hf & Hla).
  apply mergeExam_fields in H' as (Ht' & Hc' & Hq' & Hf' & Hla').
  apply exam_eq.
  - rewrite Ht', Ht. destruct (d_topicsStudied ed); [apply Set_from_twice|done].
  - rewrite Hc', Hc. destruct (d_chaptersCompleted ed); [apply Set_from_twice|done].
  - destruct (d_quizScores ed) as [l|]; [|congruence].
    apply pushNewQuizzes_idempotent in Hq. congruence.
  - rewrite Hf', Hf. destruct (d_flashcardsMastered ed); lia.
  - rewrite Hla', Hla. destruct (d_lastActivity ed) as [t|]; [|done].
    destruct (truthy t) eqn:Ht1; [|done].
    destruct (lastActivity e) as [t0|].
    + destruct (negb (truthy t0) || String.ltb t0 t) eqn:Hcmp.
      * by rewrite Ht1, ltb_irrefl.
      * by rewrite Hcmp.
    + by rewrite Ht1, ltb_irrefl.
Qed.

(** Merging an exam with its own export changes nothing when its id lists
    are duplicate-free. *)
Lemma mergeExam_exported e :
  NoDup (topicsStudied e) → NoDup (chaptersCompleted e) →
  mergeExam e (examDataOf e) = Some e.
Proof.
  intros Ht Hc.
  assert (is_Some (mergeExam e (examDataOf e))) as [e' H].
  { apply mergeExam_is_Some. simpl. apply Forall_is_Some_fmap. }
  rewrite H. f_equal.
  apply mergeExam_fields in H as (Ht' & Hc' & Hq' & Hf' & Hla'). simpl in *.
  apply exam_eq.
  - rewrite Ht'. by apply Set_from_self.
  - rewrite Hc'. by apply Set_from_self.
  - rewrite pushNewQuizzes_exported in Hq'. congruence.
  - rewrite Hf'. lia.
  - rewrite Hla'. destruct (lastActivity e) as [t|]; [|done].
    destruct (truthy t) eqn:E; [|done]. simpl. by rewrite ltb_irrefl.
Qed.

Lemma ensureExam_spec cur k :
  (ensureExam cur k).2 = default getDefaultExamProgress (exams cur !! k) ∧
  streaks (ensureExam cur k).1 = streaks cur ∧
  ∀ k', k' ≠ k → exams (ensureExam cur k).1 !! k' = exams cur !! k'.
Proof.
  unfold ensureExam. destruct (exams cur !! k) eqn:E; simpl; split_and!; try done.
  intros k' Hk. by rewrite lookup_insert_ne.
Qed.

(** The loop over the imported exams merges every entry into the exam of
    its id and touches nothing else. *)
Lemma mergeExams_list entries cur cur' :
  NoDup entries.*1 →
  mergeExams entries cur = Some cur' →
  streaks cur' = streaks cur ∧
  (∀ k v, (k, v) ∈ entries →
     ∃ ed, v = Some ed ∧
       exams cur' !! k =
         mergeExam (default getDefaultExamProgress (exams cur !! k)) ed) ∧
  (∀ k, k ∉ entries.*1 → exams cur' !! k = exams cur !! k).
Proof.
  revert cur. induction entries as [|[k0 v0] entries IH]; intros cur Hnd H.
  - simpl in H. injection H as <-. split_and!; [done| |done].
    intros k v Hin. by apply elem_of_nil in Hin.
  - simpl in Hnd, H. apply NoDup_cons in Hnd as [Hk0 Hnd].
    destruct (ensureExam_spec cur k0) as (Hex & Hst & Hother).
    destruct (ensureExam cur k0) as [cur0 existing]. simpl in Hex, Hst, Hother.
    destruct v0 as [ed0|]; simpl in H; [|done].
    destruct (mergeExam existing ed0) as [ex'|] eqn:Hmerge; simpl in H; [|done].
    destruct (IH _ Hnd H) as (IHs & IHin & IHout).
    split_and!.
    + by rewrite IHs.
    + intros k v Hin. apply elem_of_cons in Hin as [[= -> ->]|Hin].
      * exists ed0. split; [done|].
        rewrite (IHout k0 Hk0). simpl. rewrite lookup_insert_eq.
        by rewrite <-Hex.
      * assert (k ≠ k0) as Hne.
        { intros ->. apply Hk0. apply list_elem_of_fmap. by exists (k0, v). }
        destruct (IHin k v Hin) as (ed & -> & Hk). exists ed. split; [done|].
        rewrite Hk. simpl. by rewrite lookup_insert_ne, Hother.
    + intros k Hk. simpl in Hk. apply not_elem_of_cons in Hk as [Hne Hk].
      rewrite (IHout k Hk). simpl. by rewrite lookup_insert_ne, Hother.
Qed.

Lemma mergeExams_is_Some entries cur :
  is_Some (mergeExams entries cur) ↔ Forall (fun p => entryOk p.2) entries.
Proof.
  revert cur. induction entries as [|[k0 v0] entries IH]; intros cur; simpl.
  - split; [constructor|eauto].
  - destruct (ensureExam cur k0) as [cur0 existing].
    rewrite Forall_cons. simpl.
    destruct v0 as [ed0|]; simpl.
    + rewrite <-(mergeExam_is_Some existing ed0).
      destruct (mergeExam existing ed0) as [ex'|]; simpl.
      * rewrite IH. split; [intros; split; eauto|tauto].
      * split; [by intros [? ?]|by intros [[? ?] _]].
    + split; [by intros [? ?]|by intros [[] _]].
Qed.

(** The same, for the entries of the imported [exams] object. *)
Lemma mergeExams_map (es : gmap string (option ExamData)) cur cur' :
  mergeExams (map_to_list es) cur = Some cur' →
  streaks cur' = streaks cur ∧
  ∀ k, match es !! k with
       | Some v =>
           ∃ ed, v = Some ed ∧
             exams cur' !! k =
               mergeExam (default getDefaultExamProgress (exams cur !! k)) ed
       | None => exams cur' !! k = exams cur !! k
       end.
Proof.
  intros H.
  destruct (mergeExams_list _ _ _ (NoDup_fst_map_to_list es) H) as (Hs & Hin & Hout).
  split; [done|]. intros k. destruct (es !! k) as [v|] eqn:E.
  - apply Hin. by apply elem_of_map_to_list.
  - apply Hout. intros ([k' v] & -> & Hkv)%list_elem_of_fmap.
    apply elem_of_map_to_list in Hkv. simpl in E. congruence.
Qed.

Lemma mergeExams_map_is_Some (es : gmap string (option ExamData)) cur :
  is_Some (mergeExams (map_to_list es) cur) ↔ map_Forall (fun _ e => entryOk e) es.
Proof.
  rewrite mergeExams_is_Some, map_Forall_to_list.
  apply Forall_proper; [|done]. by intros [k v].
Qed.

Lemma data_eq (d1 d2 : ProgressData) :
  exams d1 = exams d2 → streaks d1 = streaks d2 → d1 = d2.
Proof. destruct d1, d2; simpl; congruence. Qed.

(** Merging the exams a second time changes nothing. *)
Lemma mergeExams_idempotent (es : gmap string (option ExamData)) cur cur' :
  mergeExams (map_to_list es) cur = Some cur' →
  mergeExams (map_to_list es) cur' = Some cur'.
Proof.
  intros H.
  assert (map_Forall (fun _ e => entryOk e) es) as Hok.
  { apply (mergeExams_map_is_Some es cur). eauto. }
  assert (is_Some (mergeExams (map_to_list es) cur')) as [cur'' H'].
  { by apply mergeExams_map_is_Some. }
  rewrite H'. f_equal.
  apply mergeExams_map in H as [Hs Hk].
  apply mergeExams_map in H' as [Hs' Hk'].
  apply data_eq; [|done]. apply map_eq. intros k.
  specialize (Hk k). specialize (Hk' k).
  destruct (es !! k) as [v|] eqn:Ek; [|done].
  destruct Hk as (ed & -> & Hk). destruct Hk' as (ed' & [= <-] & Hk').
  assert (is_Some (mergeExam (default getDefaultExamProgress (exams cur !! k)) ed))
    as [e' He'].
  { apply mergeExam_is_Some. apply (Hok k _ Ek). }
  rewrite He' in Hk. rewrite Hk', Hk. simpl.
  by apply mergeExam_idempotent in He'.
Qed.

Lemma set_streaks_id data : set_streaks data (streaks data) = data.
Proof. by destruct data. Qed.

Lemma Set_from_double {A} `{EqDecision A} (l : list A) :
  Set_from (l ++ l) = Set_from l.
Proof.
  rewrite Set_from_app. apply foldl_Set_add_absorb.
  intros x Hx. by apply Set_from_elem.
Qed.

Section WithHost.
Context {host : Host}.

(** [updateStreaks] reads the dates through [new Set]. *)
Lemma updateStreaks_Set_from today data c :
  updateStreaks today
    (set_streaks data {| dates := Set_from (dates (streaks data)); current := c;
                         longest := longest (streaks data) |}) =
  updateStreaks today data.
Proof.
  unfold updateStreaks. simpl.
  destruct (dates (streaks data)) as [|d ds] eqn:E; [done|].
  destruct (Set_from (d :: ds)) as [|d' ds'] eqn:E'.
  { by apply Set_from_nil_inv in E'. }
  rewrite <-E', (Set_from_id (Set_from (d :: ds))) by apply Set_from_NoDup.
  destruct (reverse _); [done|]. by destruct (1 <? _).
Qed.

Lemma mergeStreaks_exams today sd cur :
  exams (mergeStreaks today sd cur) = exams cur.
Proof.
  unfold mergeStreaks. destruct sd as [[[ds|] ln]|]; simpl; try done.
  by rewrite updateStreaks_exams.
Qed.

(** Merging the streak data a second time changes nothing. *)
Lemma mergeStreaks_idempotent today sd cur :
  mergeStreaks today sd (mergeStreaks today sd cur) = mergeStreaks today sd cur.
Proof.
  unfold mergeStreaks. destruct sd as [[[ds|] ln]|]; simpl; try done.
  set (x := set_streaks cur _).
  set (s1 := updateStreaks today x).
  assert (Set_from (dates (streaks s1) ++ ds) = dates (streaks s1)) as ->.
  { apply Set_from_app_absorb.
    - intros d Hd. apply updateStreaks_dates. simpl.
      rewrite Set_from_elem, elem_of_app. by right.
    - apply descending_NoDup, updateStreaks_dates. }
  assert (match ln with
          | Some n => Z.max (if longest (streaks s1) =? 0 then 0
                             else longest (streaks s1)) n
          | None => longest (streaks s1)
          end = longest (streaks s1)) as ->.
  { pose proof (updateStreaks_longest_mono today x) as Hm. fold s1 in Hm.
    simpl in Hm. destruct ln as [n|]; [|done].
    destruct (Z.eqb_spec (longest (streaks s1)) 0); lia. }
  replace (set_streaks s1 _) with s1.
  - apply updateStreaks_idempotent.
  - destruct s1 as [ex [d c l]]. done.
Qed.

(** Merging the store's own export only recomputes the streak. *)
Lemma mergeStreaks_exported today data :
  mergeStreaks today (s_streaks (snapshotOf data)) data = updateStreaks today data.
Proof.
  unfold mergeStreaks. simpl.
  rewrite Set_from_double.
  replace (Z.max _ _) with (longest (streaks data))
    by (destruct (Z.eqb_spec (longest (streaks data)) 0); lia).
  apply updateStreaks_Set_from.
Qed.

Lemma mergeExams_exported data :
  uniqueIds data →
  mergeExams (map_to_list ((fun e => Some (examDataOf e)) <$> exams data)) data =
    Some data.
Proof.
  intros Hu.
  set (es := (fun e => Some (examDataOf e)) <$> exams data).
  assert (is_Some (mergeExams (map_to_list es) data)) as [cur' H].
  { apply mergeExams_map_is_Some. intros k v Hk. unfold es in Hk.
    rewrite lookup_fmap in Hk. destruct (exams data !! k); simplify_eq/=.
    apply Forall_is_Some_fmap. }
  rewrite H. f_equal.
  apply mergeExams_map in H as [Hs Hk].
  apply data_eq; [|done]. apply map_eq. intros k. specialize (Hk k).
  unfold es in Hk. rewrite lookup_fmap in Hk.
  destruct (exams data !! k) as [e|] eqn:E; simpl in Hk; [|done].
  destruct Hk as (ed & [= <-] & Hk). rewrite Hk.
  destruct (Hu k e E). by apply mergeExam_exported.
Qed.

(** The whole effect of [importProgress]. *)
Lemma importProgress_run JSON_parse today json st :
  importProgress JSON_parse today json st =
    match importedObject JSON_parse json with
    | Some o =>
        match
          match s_exams o with
          | Some es => mergeExams (map_to_list es) (loaded st)
          | None => Some (loaded st)
          end
        with
        | Some cur => (Returned true, Some (mergeStreaks today (s_streaks o) cur))
        | None => (Returned false, st)
        end
    | None => (Returned false, st)
    end.
Proof.
  unfold importProgress, importedObject, tryCatch, bind, orThrow, loadProgress.
  destruct json as [| | | |s|o]; simpl; try done.
  - destruct (JSON_parse s) as [[| | | | |o]|]; simpl; try done.
    destruct st; simpl; destruct (s_exams o); simpl; try done;
      destruct (mergeExams _ _); done.
  - destruct st; simpl; destruct (s_exams o); simpl; try done;
      destruct (mergeExams _ _); done.
Qed.


Lemma importProgress_ok JSON_parse today json st o :
  importedObject JSON_parse json = Some o → snapshotOk o →
  ∃ cur,
    match s_exams o with
    | Some es => mergeExams (map_to_list es) (loaded st)
    | None => Some (loaded st)
    end = Some cur ∧
    importProgress JSON_parse today json st =
      (Returned true, Some (mergeStreaks today (s_streaks o) cur)).
Proof.
  intros Ho Hok. rewrite importProgress_run, Ho.
  unfold snapshotOk in Hok. destruct (s_exams o) as [es|].
  - apply (mergeExams_map_is_Some es (loaded st)) in Hok as [cur ->]. eauto.
  - eauto.
Qed.


Lemma later_merged (existing imported : option string) :
  imported ≠ Some ""%string →
  match imported with
  | Some t =>
      if truthy t then
        match existing with
        | Some t0 => if negb (truthy t0) || String.ltb t0 t then Some t
                     else Some t0
        | None => Some t
        end
      else existing
  | None => existing
  end = later existing imported.
Proof.
  intros Hne. unfold later. destruct imported as [t|]; [|by destruct existing].
  assert (t ≠ ""%string) as Ht by congruence.
  rewrite (proj2 (truthy_true t) Ht).
  destruct existing as [t0|]; [|done].
  destruct (truthy t0) eqn:E0; simpl; [done|].
  apply bool_decide_eq_false in E0. apply dec_stable in E0 as ->.
  by rewrite ltb_empty.
Qed.

(** C5: the per-exam merge of [importProgress].  For an exam id of the
    imported object, the import succeeds and the stored exam has: topics
    and chapters equal to the duplicate-free union of existing and
    imported; the existing quiz scores, in their order, followed by exactly
    the imported ones whose date is not among the existing dates;
    [flashcardsMastered] the maximum of both; [lastActivity] the later of
    both in string order. *)
Theorem importProgress_merges_exam JSON_parse today json st o es examId examData :
  importedObject JSON_parse json = Some o →
  snapshotOk o →
  s_exams o = Some es →
  es !! examId = Some (Some examData) →
  let existing := default getDefaultExamProgress (exams (loaded st) !! examId) in
  ∃ data' merged,
    importProgress JSON_parse today json st = (Returned true, Some data') ∧
    exams data' !! examId = Some merged ∧
    (∀ l, d_topicsStudied examData = Some l →
       NoDup (topicsStudied merged) ∧
       ∀ x, x ∈ topicsStudied merged ↔ x ∈ topicsStudied existing ∨ x ∈ l) ∧
    (∀ l, d_chaptersCompleted examData = Some l →
       NoDup (chaptersCompleted merged) ∧
       ∀ x, x ∈ chaptersCompleted merged ↔
            x ∈ chaptersCompleted existing ∨ x ∈ l) ∧
    (∀ l0, d_quizScores examData = Some (Some <$> l0) →
       (∀ q, q ∈ l0 → date q ≠ ""%string) →
       quizScores merged =
         quizScores existing ++
         filter (fun q => date q ∉ date <$> quizScores existing) l0) ∧
    (∀ n, d_flashcardsMastered examData = Some n →
       flashcardsMastered merged = Z.max (flashcardsMastered existing) n) ∧
    (d_lastActivity examData ≠ Some ""%string →
     lastActivity merged = later (lastActivity existing) (d_lastActivity examData)).
Proof.
  intros Ho Hok Hes Hk existing.
  destruct (importProgress_ok JSON_parse today json st o Ho Hok) as (cur & Hcur & Hrun).
  rewrite Hes in Hcur. apply mergeExams_map in Hcur as [_ Hlook].
  specialize (Hlook examId). rewrite Hk in Hlook.
  destruct Hlook as (ed & [= <-] & Hmerged). fold existing in Hmerged.
  assert (is_Some (mergeExam existing examData)) as [merged Hm].
  { apply mergeExam_is_Some.
    unfold snapshotOk in Hok. rewrite Hes in Hok. apply (Hok examId _ Hk). }
  exists (mergeStreaks today (s_streaks o) cur), merged.
  apply mergeExam_fields in Hm as Hf. destruct Hf as (Ht & Hc & Hq & Hfm & Hla).
  split_and!.
  - done.
  - by rewrite mergeStreaks_exams, Hmerged.
  - intros l Hl. rewrite Ht, Hl. split; [apply Set_from_NoDup|].
    intros x. by rewrite Set_from_elem, elem_of_app.
  - intros l Hl. rewrite Hc, Hl. split; [apply Set_from_NoDup|].
    intros x. by rewrite Set_from_elem, elem_of_app.
  - intros l0 Hl0 Hdates. rewrite Hl0, pushNewQuizzes_Some in Hq.
    injection Hq as <-. f_equal. apply filter_ext_in.
    intros q Hq. rewrite truthy_true, Set_from_elem. specialize (Hdates q Hq).
    tauto.
  - intros n Hn. by rewrite Hfm, Hn.
  - intros Hne. rewrite Hla. by apply later_merged.
Qed.

Lemma mergeExams_set_streaks entries cur s :
  mergeExams entries (set_streaks cur s) =
    (fun c => set_streaks c s) <$> mergeExams entries cur.
Proof.
  revert cur. induction entries as [|[k v] entries IH]; intros cur; simpl; [done|].
  unfold ensureExam. simpl. destruct (exams cur !! k) as [e|]; simpl.
  - destruct v as [ed|]; simpl; [|done].
    destruct (mergeExam e ed) as [e'|]; simpl; [|done].
    by rewrite <-IH.
  - destruct v as [ed|]; simpl; [|done].
    destruct (mergeExam getDefaultExamProgress ed) as [e'|]; simpl; [|done].
    by rewrite <-IH.
Qed.

(** Importing a snapshot a second time changes nothing and returns what
    the first import returned. *)
Lemma importProgress_twice JSON_parse today json st :
  let r := importProgress JSON_parse today json st in
  importProgress JSON_parse today json (snd r) = r.
Proof.
  intros r. subst r. rewrite (importProgress_run _ _ _ st).
  destruct (importedObject JSON_parse json) as [o|] eqn:Ho;
    [|by cbn [snd]; rewrite importProgress_run, Ho].
  destruct (match s_exams o with
            | Some es => mergeExams (map_to_list es) (loaded st)
            | None => Some (loaded st)
            end) as [cur|] eqn:Hcur;
    [|by cbn [snd]; rewrite importProgress_run, Ho, Hcur].
  cbn [snd]. rewrite importProgress_run, Ho. cbn [loaded].
  set (d1 := mergeStreaks today (s_streaks o) cur).
  assert (match s_exams o with
          | Some es => mergeExams (map_to_list es) d1
          | None => Some d1
          end = Some d1) as ->.
  { destruct (s_exams o) as [es|]; [|done].
    apply mergeExams_idempotent in Hcur.
    replace d1 with (set_streaks cur (streaks d1)).
    - by rewrite mergeExams_set_streaks, Hcur.
    - apply data_eq; simpl; [|done]. unfold d1. by rewrite mergeStreaks_exams. }
  unfold d1. by rewrite mergeStreaks_idempotent.
Qed.

Lemma import_export_run JSON_parse JSON_stringify today st :
  JSON_parse (JSON_stringify (loaded st)) =
    Some (VObject (snapshotOf (loaded st))) →
  uniqueIds (loaded st) →
  exportProgress JSON_stringify st = (Returned (JSON_stringify (loaded st)), st) ∧
  importProgress JSON_parse today (VString (JSON_stringify (loaded st))) st =
    (Returned true, Some (updateStreaks today (loaded st))).
Proof.
  intros Hjson Hu. split; [by destruct st|].
  rewrite importProgress_run. unfold importedObject. rewrite Hjson.
  cbn [s_exams snapshotOf]. rewrite mergeExams_exported by done.
  by rewrite mergeStreaks_exported.
Qed.

(** C6 (amended): for every store whose topic and chapter lists are
    duplicate-free, importing the store's own export succeeds, keeps every
    exam as it is and replaces the streak tracker by its recomputation for
    today; so the store reads back unchanged when its streak is already up
    to date for today, as it is right after [recordActivity].  And for
    every store and every argument, importing twice returns what importing
    once returned and leaves the store importing once left. *)
Theorem import_export_recomputes JSON_parse JSON_stringify today st :
  (JSON_parse (JSON_stringify (loaded st)) =
     Some (VObject (snapshotOf (loaded st))) →
   uniqueIds (loaded st) →
   ∃ text st',
     exportProgress JSON_stringify st = (Returned text, st) ∧
     importProgress JSON_parse today (VString text) st = (Returned true, st') ∧
     exams (loaded st') = exams (loaded st) ∧
     streaks (loaded st') = streaks (updateStreaks today (loaded st)) ∧
     (updateStreaks today (loaded st) = loaded st → loaded st' = loaded st) ∧
     (∀ st0, st = snd (recordActivity today st0) → st' = st)) ∧
  (∀ json,
     let r := importProgress JSON_parse today json st in
     importProgress JSON_parse today json (snd r) = r).
Proof.
  split; [|intros json; apply importProgress_twice].
  intros Hjson Hu.
  destruct (import_export_run JSON_parse JSON_stringify today st Hjson Hu) as [He Hi].
  exists (JSON_stringify (loaded st)), (Some (updateStreaks today (loaded st))).
  split_and!.
  - done.
  - done.
  - simpl. apply updateStreaks_exams.
  - done.
  - simpl. by intros ->.
  - intros st0 ->. rewrite recordActivity_run. simpl.
    by rewrite updateStreaks_idempotent.
Qed.

Lemma markTopicStudied_run today now examId topicId studied st :
  ∃ st', markTopicStudied today now examId topicId studied st =
           recordActivity today st'.
Proof.
  unfold markTopicStudied, bind, loadProgress, get. simpl.
  destruct st; simpl; destruct (ensureExam _ _); simpl; eauto.
Qed.

Lemma markChapterComplete_run today now examId chapterId complete st :
  ∃ st', markChapterComplete today now examId chapterId complete st =
           recordActivity today st'.
Proof.
  unfold markChapterComplete, bind, loadProgress, get. simpl.
  destruct st; simpl; destruct (ensureExam _ _); simpl; eauto.
Qed.

Lemma saveQuizScore_run today now examId score total passed st :
  ∃ st', saveQuizScore today now examId score total passed st =
           recordActivity today st'.
Proof.
  unfold saveQuizScore, bind, loadProgress, get. simpl.
  destruct st; simpl; destruct (ensureExam _ _); simpl; eauto.
Qed.

(** C9: the streak invariant after every recomputation.  After
    [recordActivity], [markTopicStudied], [markChapterComplete] and
    [saveQuizScore], on any store, and after an [importProgress] that
    carries streak dates, on a store whose [longest] is not negative,
    [longest >= current] holds and the stored dates have no duplicate. *)
Theorem streak_invariant_after_recomputation today now st :
  streakInvariant (loaded (snd (recordActivity today st))) ∧
  (∀ examId topicId studied,
     streakInvariant
       (loaded (snd (markTopicStudied today now examId topicId studied st)))) ∧
  (∀ examId chapterId complete,
     streakInvariant
       (loaded (snd (markChapterComplete today now examId chapterId complete st)))) ∧
  (∀ examId score total passed,
     streakInvariant
       (loaded (snd (saveQuizScore today now examId score total passed st)))) ∧
  (∀ JSON_parse json o sd ds,
     0 ≤ longest (streaks (loaded st)) →
     importedObject JSON_parse json = Some o → snapshotOk o →
     s_streaks o = Some sd → d_dates sd = Some ds →
     fst (importProgress JSON_parse today json st) = Returned true ∧
     streakInvariant (loaded (snd (importProgress JSON_parse today json st)))).
Proof.
  split_and!.
  - apply recordActivity_invariant.
  - intros examId topicId studied.
    destruct (markTopicStudied_run today now examId topicId studied st) as [st' ->].
    apply recordActivity_invariant.
  - intros examId chapterId complete.
    destruct (markChapterComplete_run today now examId chapterId complete st)
      as [st' ->].
    apply recordActivity_invariant.
  - intros examId sc tot pa.
    destruct (saveQuizScore_run today now examId sc tot pa st) as [st' ->].
    apply recordActivity_invariant.
  - intros JSON_parse json o sd ds Hl Ho Hok Hsd Hds.
    destruct (importProgress_ok JSON_parse today json st o Ho Hok) as (cur & Hcur & ->).
    split; [done|]. simpl.
    assert (streaks cur = streaks (loaded st)) as Hs.
    { destruct (s_exams o) as [es|]; [|congruence].
      by apply mergeExams_map in Hcur as [-> _]. }
    rewrite Hsd. unfold mergeStreaks. rewrite Hds.
    apply updateStreaks_invariant. simpl. rewrite Hs.
    destruct (d_longest sd) as [n|]; [|done].
    destruct (Z.eqb_spec (longest (streaks (loaded st))) 0); lia.
Qed.

End WithHost.

(** C6, as stated, fails: a store last touched three days ago (dates
    {7}, current 1, today 10) does not survive importing its own export,
    the current streak is recomputed to 0. *)
Lemma import_export_changes_stale_store :
  let data := {| exams := ∅;
                 streaks := {| dates := [7]; current := 1; longest := 1 |} |} in
  let JSON_stringify := fun _ : ProgressData => "snapshot"%string in
  let JSON_parse := fun _ : string => Some (VObject (snapshotOf data)) in
  ∃ text,
    exportProgress JSON_stringify (Some data) = (Returned text, Some data) ∧
    importProgress (host := utcHost) JSON_parse 10 (VString text) (Some data) =
      (Returned true,
       Some {| exams := ∅;
               streaks := {| dates := [7]; current := 0; longest := 1 |} |}) ∧
    snd (importProgress (host := utcHost) JSON_parse 10 (VString text) (Some data)) ≠ Some data.
Proof.
  intros data JSON_stringify JSON_parse.
  destruct (import_export_run (host := utcHost) JSON_parse JSON_stringify 10 (Some data)) as [He Hi].
  { done. }
  { intros k e Hk. simpl in Hk. by rewrite lookup_empty in Hk. }
  exists (JSON_stringify data). split_and!.
  - exact He.
  - exact Hi.
  - simpl in Hi. rewrite Hi. simpl. intros [= H].
Qed.

Import ProgressExamples.

Lemma sampleSnapshot_ok : snapshotOk sampleSnapshot.
Proof.
  unfold snapshotOk, sampleSnapshot. cbn [s_exams].
  apply map_Forall_singleton. simpl. repeat constructor; eauto.
Qed.

Lemma importProgress_merges_exam_witness :
  importedObject (fun _ => None) (VObject sampleSnapshot) = Some sampleSnapshot ∧
  snapshotOk sampleSnapshot ∧
  s_exams sampleSnapshot = Some {[ "sie"%string := Some sieImport ]} ∧
  ({[ "sie"%string := Some sieImport ]} : gmap string (option ExamData))
    !! "sie"%string = Some (Some sieImport) ∧
  ∃ data' merged,
    importProgress (host := utcHost) (fun _ => None) 10 (VObject sampleSnapshot) (Some sampleData) =
      (Returned true, Some data') ∧
    exams data' !! "sie"%string = Some merged ∧
    NoDup (topicsStudied merged) ∧
    NoDup (chaptersCompleted merged) ∧
    quizScores merged = [quizA; quizB] ∧
    flashcardsMastered merged = 7 ∧
    lastActivity merged = Some "2024-01-09T11:30:00.000Z"%string.
Proof.
  assert (({[ "sie"%string := Some sieImport ]} : gmap string (option ExamData))
            !! "sie"%string = Some (Some sieImport)) as Hk by reflexivity.
  split_and!; [reflexivity|exact sampleSnapshot_ok|reflexivity|exact Hk|].
  destruct (importProgress_merges_exam (host := utcHost) (fun _ => None) 10 (VObject sampleSnapshot)
              (Some sampleData) sampleSnapshot _ "sie"%string sieImport
              eq_refl sampleSnapshot_ok eq_refl Hk)
    as (data' & merged & Hrun & Hm & Ht & Hc & Hq & Hf & Hla).
  exists data', merged. split_and!; [exact Hrun|exact Hm| | | | |].
  - exact (proj1 (Ht _ eq_refl)).
  - exact (proj1 (Hc _ eq_refl)).
  - rewrite (Hq [quizA; quizB] eq_refl); [reflexivity|].
    intros q Hq'. rewrite !elem_of_cons, elem_of_nil in Hq'.
    destruct Hq' as [->|[->|[]]]; discriminate.
  - rewrite (Hf 7 eq_refl). reflexivity.
  - rewrite Hla; [reflexivity|discriminate].
Defined.



Lemma sampleData_uniqueIds : uniqueIds sampleData.
Proof.
  intros k e Hk. unfold sampleData in Hk. cbn [exams] in Hk.
  apply lookup_singleton_Some in Hk as [_ <-].
  split; apply NoDup_singleton.
Qed.

Lemma import_export_recomputes_witness :
  let JSON_stringify := fun _ : ProgressData => "snapshot"%string in
  let JSON_parse := fun _ : string => Some (VObject (snapshotOf sampleData)) in
  JSON_parse (JSON_stringify (loaded (Some sampleData))) =
    Some (VObject (snapshotOf (loaded (Some sampleData)))) ∧
  uniqueIds (loaded (Some sampleData)) ∧
  ∃ text st',
    exportProgress JSON_stringify (Some sampleData) = (Returned text, Some sampleData) ∧
    importProgress (host := utcHost) JSON_parse 10 (VString text) (Some sampleData) =
      (Returned true, st') ∧
    exams (loaded st') = exams sampleData ∧
    streaks (loaded st') = {| dates := [9; 8]; current := 2; longest := 4 |}.
Proof.
  intros JSON_stringify JSON_parse.
  split; [reflexivity|]. split; [exact sampleData_uniqueIds|].
  destruct (import_export_recomputes (host := utcHost) JSON_parse JSON_stringify 10 (Some sampleData))
    as [H _].
  destruct (H eq_refl sampleData_uniqueIds) as (text & st' & He & Hi & Hex & Hs & _).
  exists text, st'. split; [exact He|]. split; [exact Hi|]. split; [exact Hex|].
  rewrite Hs. reflexivity.
Defined.

Lemma streak_invariant_after_recomputation_witness :
  0 ≤ longest (streaks (loaded (Some sampleData))) ∧
  importedObject (fun _ => None) (VObject sampleSnapshot) = Some sampleSnapshot ∧
  snapshotOk sampleSnapshot ∧
  s_streaks sampleSnapshot = Some {| d_dates := Some [10; 9]; d_longest := Some 5 |} ∧
  fst (importProgress (host := utcHost) (fun _ => None) 10 (VObject sampleSnapshot) (Some sampleData)) =
    Returned true ∧
  streakInvariant
    (loaded (snd (importProgress (host := utcHost) (fun _ => None) 10 (VObject sampleSnapshot)
                    (Some sampleData)))).
Proof.
  assert (0 ≤ longest (streaks (loaded (Some sampleData)))) as Hl
    by (vm_compute; discriminate).
  split; [exact Hl|]. split; [reflexivity|]. split; [exact sampleSnapshot_ok|].
  split; [reflexivity|].
  destruct (streak_invariant_after_recomputation (host := utcHost) 10 "2024-01-10T09:00:00.000Z"
              (Some sampleData)) as (_ & _ & _ & _ & H).
  exact (H (fun _ => None) (VObject sampleSnapshot) sampleSnapshot _ [10; 9]
           Hl eq_refl sampleSnapshot_ok eq_refl eq_refl).
Defined.

End ImportFacts.

(** * Quiz scoring *)

Module QuizFacts.
Import Progress StreakFacts Quiz.

Lemma ensureExam_lookup data examId :
  exams (ensureExam data examId).1 !! examId = Some (ensureExam data examId).2.
Proof.
  unfold ensureExam. destruct (exams data !! examId) eqn:E; simpl; [done|].
  by rewrite lookup_insert_eq.
Qed.

Lemma showQuizSummary_saved now examId correct total st :
  lastScore (snd (showQuizSummary now (Some examId) correct total st)) examId =
    Some {| date := now; score := correct; total := total;
            passed := ge (if 0 <? total then percentOf correct total else Number 0)
                        (Number 70) |}.
Proof.
  unfold showQuizSummary, lastScore, bind, loadProgress, get.
  destruct st as [data|]; cbn -[Number percentOf ge];
    destruct (ensureExam _ examId) as [progress exam]; cbn -[Number percentOf ge];
    rewrite lookup_insert_eq; cbn -[Number percentOf ge]; by rewrite last_snoc.
Qed.

Lemma withToday_exams today data : exams (withToday today data) = exams data.
Proof. unfold withToday. by destruct (decide _). Qed.

Section WithHost.
Context {host : Host}.

Lemma showResults_saved today now examId examMeta correct count st :
  lastScore (snd (showResults today now examId examMeta correct count st)) examId =
    Some {| date := now; score := correct; total := count;
            passed := ge (percentOf correct count)
                        (Number (match examMeta with Some p => p | None => 70 end)) |}.
Proof.
  unfold showResults, saveQuizScore, lastScore, bind, loadProgress, get.
  destruct st as [data|]; cbn -[Number percentOf ge recordActivity];
    destruct (ensureExam _ examId) as [progress exam];
    cbn -[Number percentOf ge recordActivity];
    rewrite recordActivity_run; cbn -[Number percentOf ge updateStreaks withToday];
    rewrite updateStreaks_exams, withToday_exams;
    cbn -[Number percentOf ge];
    rewrite lookup_insert_eq; cbn -[Number percentOf ge]; by rewrite last_snoc.
Qed.

(** C8 (amended): the saved [passed] flag is [percent >= threshold] with
    [percent = Math.round(score / total * 100)]; the threshold is 70 in
    [showQuizSummary], and in [showResults] it is the [passingScore] of the
    exam metadata when metadata is loaded and 70 otherwise.  For 18 of 25
    the percentage is 72 and the score is saved as passed; for 18 of 24 it
    is 75 and the score is saved as passed (by [showResults] without
    metadata or with a [passingScore] of 70). *)
Theorem quiz_passed_flag today now examId st :
  (∀ correct total,
     lastScore (snd (showQuizSummary now (Some examId) correct total st)) examId =
       Some {| date := now; score := correct; total := total;
               passed := ge (if 0 <? total then percentOf correct total
                             else Number 0) (Number 70) |}) ∧
  (∀ examMeta correct count,
     lastScore (snd (showResults today now examId examMeta correct count st)) examId =
       Some {| date := now; score := correct; total := count;
               passed := ge (percentOf correct count)
                           (Number (match examMeta with
                                    | Some passingScore => passingScore
                                    | None => 70
                                    end)) |}) ∧
  percentOf 18 25 = Number 72 ∧
  percentOf 18 24 = Number 75 ∧
  lastScore (snd (showQuizSummary now (Some examId) 18 25 st)) examId =
    Some {| date := now; score := 18; total := 25; passed := true |} ∧
  (∀ examMeta, examMeta = None ∨ examMeta = Some 70 →
     lastScore (snd (showResults today now examId examMeta 18 25 st)) examId =
       Some {| date := now; score := 18; total := 25; passed := true |}) ∧
  lastScore (snd (showQuizSummary now (Some examId) 18 24 st)) examId =
    Some {| date := now; score := 18; total := 24; passed := true |} ∧
  (∀ examMeta, examMeta = None ∨ examMeta = Some 70 →
     lastScore (snd (showResults today now examId examMeta 18 24 st)) examId =
       Some {| date := now; score := 18; total := 24; passed := true |}).
Proof.
  split_and!.
  - intros correct total. by rewrite showQuizSummary_saved.
  - intros examMeta correct count. by rewrite showResults_saved.
  - by vm_compute.
  - by vm_compute.
  - by rewrite showQuizSummary_saved.
  - intros examMeta [->| ->]; by rewrite showResults_saved.
  - by rewrite showQuizSummary_saved.
  - intros examMeta [->| ->]; by rewrite showResults_saved.
Qed.

End WithHost.

(** C8, as stated, fails: a score of 18 out of 25 with the threshold 70 is
    saved with [passed = true], by both scoring paths. *)
Lemma quiz_18_of_25_is_passed :
  ∃ q1 q2,
    lastScore (snd (showQuizSummary "2024-01-10T12:00:00.000Z" (Some "sie"%string)
                      18 25 None)) "sie" = Some q1 ∧
    lastScore (snd (showResults (host := utcHost) 19732 "2024-01-10T12:00:00.000Z"
                      "sie" None 18 25 None)) "sie" = Some q2 ∧
    passed q1 ≠ false ∧ passed q2 ≠ false.
Proof.
  eexists. eexists. split_and!.
  - by rewrite showQuizSummary_saved.
  - by rewrite showResults_saved.
  - by vm_compute.
  - by vm_compute.
Qed.

End QuizFacts.

(** * Facts about the utilities *)

Module UtilsFacts.
Import Utils.

Lemma insert_delete_Permutation {A} (l : list A) i x y :
  l !! i = Some x → <[i := y]> l ≡ₚ y :: delete i l.
Proof.
  revert i. induction l as [|z l IH]; intros [|i] H; simplify_eq/=; [done|].
  rewrite (IH i H). apply Permutation_swap.
Qed.

Lemma swap_Permutation {A} i j (a : list A) : swap i j a ≡ₚ a.
Proof.
  unfold swap.
  destruct (a !! i) as [x|] eqn:Hi; [|done].
  destruct (a !! j) as [y|] eqn:Hj; [|done].
  destruct (decide (i = j)) as [->|Hne].
  - rewrite list_insert_insert_eq. simplify_eq. by rewrite list_insert_id.
  - assert (<[i := y]> a !! j = Some y) as Hb
      by (by rewrite list_lookup_insert_ne).
    rewrite (insert_delete_Permutation _ j y x Hb).
    trans (x :: delete i a); [|symmetry; by apply delete_Permutation].
    constructor.
    apply (Permutation_cons_inv (a := y)).
    rewrite <-(delete_Permutation _ j y Hb).
    by apply (insert_delete_Permutation _ _ x).
Qed.

Lemma shuffleLoop_Permutation {A} draw i (a : list A) :
  shuffleLoop draw i a ≡ₚ a.
Proof.
  revert a. induction i as [|i IH]; intros a; simpl; [done|].
  by rewrite IH, swap_Permutation.
Qed.

Lemma shuffleArray_perm {A} draw (arr : list A) : shuffleArray draw arr ≡ₚ arr.
Proof. apply shuffleLoop_Permutation. Qed.

Lemma shuffleArray_length {A} draw (arr : list A) :
  length (shuffleArray draw arr) = length arr.
Proof. by rewrite shuffleArray_perm. Qed.

(** X1: [shuffleArray] returns a rearrangement of its argument.  Whatever
    indices are drawn (each [j] is at most [i], as
    [Math.floor(Math.random() * (i + 1))] is), the result holds exactly the
    elements of the argument, each as often as the argument does; so no
    element is lost or repeated, and the length is kept. *)
Theorem shuffleArray_Permutation {A} (draw : nat → nat) (arr : list A) :
  (∀ i, (draw i ≤ i)%nat) →
  shuffleArray draw arr ≡ₚ arr ∧ length (shuffleArray draw arr) = length arr.
Proof. intros _. split; [apply shuffleArray_perm|apply shuffleArray_length]. Qed.

(** X2: [clamp] returns a value between the bounds when the bounds are in
    order: the value itself when it lies between them, the nearer bound
    otherwise. *)
Theorem clamp_range (val min max : Z) :
  min ≤ max →
  min ≤ clamp val min max ≤ max ∧
  (min ≤ val ≤ max → clamp val min max = val) ∧
  (val < min → clamp val min max = min) ∧
  (max < val → clamp val min max = max) ∧
  clamp (clamp val min max) min max = clamp val min max.
Proof. unfold clamp. lia. Qed.

Lemma shuffleArray_Permutation_witness :
  shuffleArray (fun _ => O) [1; 2; 3; 4] ≡ₚ [1; 2; 3; 4] ∧
  length (shuffleArray (fun _ => O) [1; 2; 3; 4]) = 4%nat.
Proof.
  apply (shuffleArray_Permutation (fun _ => O) [1; 2; 3; 4]).
  intros i. lia.
Defined.

Lemma clamp_range_witness :
  0 ≤ clamp 150 0 100 ≤ 100 ∧
  (0 ≤ 150 ≤ 100 → clamp 150 0 100 = 150) ∧
  (150 < 0 → clamp 150 0 100 = 0) ∧
  (100 < 150 → clamp 150 0 100 = 100) ∧
  clamp (clamp 150 0 100) 0 100 = clamp 150 0 100.
Proof. apply (clamp_range 150 0 100). lia. Defined.

End UtilsFacts.

(** * Facts about a study session *)

Module SessionFacts.
Import Flashcards FlashcardsSession FlashcardsFacts.

Lemma touched_others today c m m' i :
  touched today [c] m m' → i ≠ id c → leitnerState m' !! i = leitnerState m !! i.
Proof.
  intros (_&_&_&_&_&H) Hi. destruct (H i) as [E|(_&_&Hin)]; [done|].
  rewrite list_fmap_singleton, list_elem_of_singleton in Hin. done.
Qed.

Lemma touched_boxesOk today l m m' : touched today l m m' → boxesOk m → boxesOk m'.
Proof.
  intros (_&_&_&_&_&H) Hok i st Hi.
  destruct (H i) as [E|(_&E&_)].
  - rewrite E in Hi. by apply (Hok i).
  - rewrite E in Hi. simplify_eq. simpl. lia.
Qed.

Lemma stateOf_boxesOk today m i : boxesOk m → 1 ≤ box (stateOf today (leitnerState m) i) ≤ 5.
Proof.
  intros Hok. unfold stateOf. destruct (leitnerState m !! i) as [st|] eqn:E; simpl.
  - by apply (Hok i).
  - lia.
Qed.

Lemma interval_lookup b :
  1 ≤ b ≤ 5 → ∃ d, BOX_INTERVALS !! b = Some d ∧ 0 ≤ d ≤ 14 ∧ (2 ≤ b → 2 ≤ d).
Proof.
  intros Hb.
  assert (b = 1 ∨ b = 2 ∨ b = 3 ∨ b = 4 ∨ b = 5) as H by lia.
  destruct H as [-> | [-> | [-> | [-> | ->]]]]; eexists; (split; [reflexivity|lia]).
Qed.

Lemma interval_lookup_None b : ¬ 1 ≤ b ≤ 5 → BOX_INTERVALS !! b = None.
Proof.
  intros Hb. destruct (BOX_INTERVALS !! b) as [d|] eqn:E; [|done].
  apply BOX_INTERVALS_table in E. unfold intervalTable in E.
  rewrite !elem_of_cons, elem_of_nil in E.
  destruct E as [E | [E | [E | [E | [E | []]]]]]; simplify_eq; lia.
Qed.

Section WithHost.
Context {host : Host}.

(** The module after an answer, field by field. *)
Lemma handleAnswer_run today knowIt m queue card :
  arrays m !! studyQueue m = Some queue →
  queue !! currentIndex m = Some card →
  (knowIt = true → 0 ≤ box (stateOf today (leitnerState m) (id card))) →
  ∃ m' st',
    handleAnswer today knowIt m = (Returned tt, m') ∧
    arrays m' = arrays m ∧ studyQueue m' = studyQueue m ∧
    currentIndex m' = currentIndex m ∧
    sessionStats m' =
      (if knowIt
       then {| mastered := mastered (sessionStats m) + 1;
               reviewing := reviewing (sessionStats m);
               total := total (sessionStats m) |}
       else {| mastered := mastered (sessionStats m);
               reviewing := reviewing (sessionStats m) + 1;
               total := total (sessionStats m) |}) ∧
    stored m' = Some (leitnerState m') ∧
    leitnerState m' !! id card = Some st' ∧
    box st' = (if knowIt
               then Z.min (box (stateOf today (leitnerState m) (id card)) + 1) 5
               else 1) ∧
    (knowIt = true →
     ∃ d, BOX_INTERVALS !! box st' = Some d ∧ 0 ≤ d ≤ 14 ∧
          (1 ≤ box (stateOf today (leitnerState m) (id card)) → 2 ≤ d) ∧
          nextReview st' = isoDay (setDate (parseUTC today) d)) ∧
    (knowIt = false → nextReview st' = today) ∧
    (∀ i, i ≠ id card → leitnerState m' !! i = leitnerState m !! i).
Proof.
  intros Hq Hc Hbox.
  destruct (getCardState_run today card m) as (m1 & Hget & Hm1 & Hst).
  pose proof Hm1 as (Ha & Hsq & Hci & Hss & Hsto & _).
  set (st := stateOf today (leitnerState m) (id card)) in *.
  destruct knowIt.
  - destruct (interval_lookup (Z.min (box st + 1) 5)) as (d & Hd & Hd0 & Hd2);
      [specialize (Hbox eq_refl); lia|].
    eexists.
    exists {| box := Z.min (box st + 1) 5;
              nextReview := isoDay (setDate (parseUTC today) d) |}.
    split_and!.
    + unfold handleAnswer, bind, get, orThrow. simpl. rewrite Hq. simpl.
      rewrite Hc. simpl. rewrite Hget. rewrite Hd. simpl. reflexivity.
    + done.
    + done.
    + done.
    + simpl. by rewrite Hss.
    + done.
    + simpl. rewrite !lookup_alter_eq, Hst. done.
    + done.
    + intros _. exists d. simpl. split_and!; [done|lia|lia|intros; lia|done].
    + done.
    + intros i Hi. simpl. rewrite !lookup_alter_ne by done.
      by apply (touched_others today card).
  - eexists. exists {| box := 1; nextReview := today |}. split_and!.
    + unfold handleAnswer, bind, get, orThrow. simpl. rewrite Hq. simpl.
      rewrite Hc. simpl. rewrite Hget. simpl. reflexivity.
    + done.
    + done.
    + done.
    + simpl. by rewrite Hss.
    + done.
    + simpl. rewrite !lookup_alter_eq, Hst. done.
    + done.
    + done.
    + done.
    + intros i Hi. simpl. rewrite !lookup_alter_ne by done.
      by apply (touched_others today card).
Qed.

Lemma isDue_run today c m :
  ∃ m', isDue today (id c) m =
          (Returned (bool_decide (nextReview (stateOf today (leitnerState m) (id c)) ≤ today)), m') ∧
        touched today [c] m m'.
Proof.
  destruct (getCardState_run today c m) as (m1 & Hget & Hm1 & Hst).
  exists m1. split; [|done]. unfold isDue, bind. by rewrite Hget.
Qed.

Lemma renderCard_run today m queue :
  arrays m !! studyQueue m = Some queue →
  ∃ m', renderCard today m =
          (Returned (if bool_decide (length queue ≤ currentIndex m)%nat
                     then SummaryShown else CardShown), m') ∧
        (∀ l, touched today l m m' ∨ ∃ c, queue !! currentIndex m = Some c ∧ touched today [c] m m') ∧
        ((length queue ≤ currentIndex m)%nat → m' = m).
Proof.
  intros Hq. unfold renderCard, bind, get, orThrow. simpl. rewrite Hq. simpl.
  case_bool_decide as Hlen.
  - exists m. split_and!; [done| |done]. intros l. left. apply touched_refl.
  - destruct (lookup_lt_is_Some_2 queue (currentIndex m)) as [c Hc]; [lia|].
    rewrite Hc. simpl.
    destruct (getCardState_run today c m) as (m1 & Hget & Hm1 & Hst).
    rewrite Hget. exists m1. split_and!; [done| |lia].
    intros l. right. eauto.
Qed.

Lemma startSession_none today cards m :
  cards = None ∨ cards = Some [] →
  startSession today cards m =
    (Returned NoCards,
     set_leitnerState (fun _ => default ∅ (stored m))
       (set_sessionStats (fun _ => {| mastered := 0; reviewing := 0; total := 0 |}) m)).
Proof.
  intros [-> | ->]; unfold startSession, loadLeitnerState, bind, get, modify, ret;
    simpl; by destruct (stored m).
Qed.

Lemma startSession_run today l m :
  l ≠ [] →
  ∃ m',
    startSession today (Some l) m = (Returned CardShown, m') ∧
    arrays m' !! studyQueue m' =
      Some (sort_by (compareKeys today (default ∅ (stored m))) l) ∧
    currentIndex m' = 0%nat ∧
    sessionStats m' =
      {| mastered := 0; reviewing := 0; total := Z.of_nat (length l) |} ∧
    stored m' = stored m ∧
    (∀ r q, arrays m !! r = Some q → arrays m' !! r = Some q) ∧
    (∀ i, leitnerState m' !! i = default ∅ (stored m) !! i ∨
          (default ∅ (stored m) !! i = None ∧
           leitnerState m' !! i = Some (defaultState today) ∧
           i ∈ id <$> l)).
Proof.
  intros Hl. destruct l as [|c l']; [done|]. set (l := c :: l') in *.
  set (ls0 := default ∅ (stored m)).
  set (m0 := set_leitnerState (fun _ => ls0)
               (set_sessionStats
                  (fun _ => {| mastered := 0; reviewing := 0; total := 0 |}) m)).
  set (r := fresh (dom (arrays m))).
  set (m1 := set_arrays <[r := l]> m0).
  destruct (sortCards_run today m1 r l) as (r2 & mt & m2 & Hr2 & Hmt & Hm2 & Hsort).
  { simpl. by rewrite lookup_insert_eq. }
  pose proof Hmt as (Ha & Hsq & Hci & Hss & Hsto & Hls).
  set (m3 := set_sessionStats
               (fun s => {| mastered := mastered s; reviewing := reviewing s;
                            total := Z.of_nat (length l) |})
               (set_currentIndex (fun _ => O) (set_studyQueue r2 m2))).
  assert (arrays m3 !! studyQueue m3 = Some (sort_by (compareKeys today ls0) l)) as Hq3.
  { subst m3 m2. simpl. by rewrite lookup_insert_eq. }
  destruct (renderCard_run today m3 _ Hq3) as (m4 & Hrender & Ht4 & _).
  assert (touched today l m3 m4) as Hm4.
  { destruct (Ht4 l) as [H|(c0 & Hc0 & H)]; [done|].
    eapply touched_mono; [|exact H].
    intros x Hx. apply list_elem_of_singleton in Hx as ->.
    apply list_elem_of_lookup_2 in Hc0.
    by rewrite sort_by_Permutation in Hc0. }
  pose proof Hm4 as (Ha4 & Hsq4 & Hci4 & Hss4 & Hsto4 & Hls4).
  assert (r ∉ dom (arrays m)) as Hr by apply is_fresh.
  assert (r2 ∉ dom (arrays m1)) as Hr2' by (rewrite Hr2; apply is_fresh).
  exists m4. split_and!.
  - change (Some l) with (Some (c :: l')).
    unfold startSession, loadLeitnerState, bind, get, modify, ret.
    cbn [stored set_sessionStats].
    replace (match stored m with Some ls => ls | None => ∅ end) with ls0
      by (subst ls0; by destruct (stored m)).
    cbn beta iota. fold l. fold m0.
    change (fresh (dom (arrays m0))) with r. fold m1.
    rewrite Hsort. cbn beta iota. fold m3. rewrite Hrender.
    rewrite bool_decide_eq_false_2; [done|].
    rewrite sort_by_Permutation. simpl. lia.
  - rewrite Ha4, Hsq4. exact Hq3.
  - by rewrite Hci4.
  - rewrite Hss4. subst m3 m2. simpl. by rewrite Hss.
  - rewrite Hsto4. subst m3 m2. simpl. by rewrite Hsto.
  - intros r' q Hq. rewrite Ha4. subst m3 m2. simpl. rewrite Ha. simpl.
    assert (r' ≠ r) by (intros ->; apply Hr, elem_of_dom; eauto).
    assert (r' ≠ r2).
    { intros ->. apply Hr2', elem_of_dom. subst m1. simpl.
      rewrite lookup_insert_ne by done. eauto. }
    by rewrite !lookup_insert_ne.
  - intros i. destruct (Hls4 i) as [E4|(N4 & E4 & Hi4)];
      (destruct (Hls i) as [E|(N & E & Hi)]).
    + left. rewrite E4. subst m3 m2. simpl. by rewrite E.
    + right. split_and!; [done| |done]. rewrite E4. subst m3 m2. simpl. by rewrite E.
    + right. subst m3 m2. simpl in *. split_and!; [by rewrite <-E|done|done].
    + subst m3 m2. simpl in *. congruence.
Qed.

Lemma filter_bool_cons (v b : bool) rest :
  Z.of_nat (length (filter (fun x => x = v) (b :: rest))) =
    (if bool_decide (b = v) then 1 else 0) +
    Z.of_nat (length (filter (fun x => x = v) rest)).
Proof.
  rewrite filter_cons. case_bool_decide; destruct (decide (b = v)); try done;
    simpl; lia.
Qed.

(** The rounds of a session from position [currentIndex]: one answer for
    each card still in the queue. *)
Lemma study_run today answers : ∀ screen m queue,
  arrays m !! studyQueue m = Some queue →
  (currentIndex m + length answers = length queue)%nat →
  answers ≠ [] →
  boxesOk m →
  ∃ m',
    study today answers screen m = (Returned SummaryShown, m') ∧
    mastered (sessionStats m') =
      mastered (sessionStats m) + Z.of_nat (length (filter (fun b => b = true) answers)) ∧
    reviewing (sessionStats m') =
      reviewing (sessionStats m) + Z.of_nat (length (filter (fun b => b = false) answers)) ∧
    total (sessionStats m') = total (sessionStats m) ∧
    stored m' = Some (leitnerState m') ∧
    boxesOk m'.
Proof.
  induction answers as [|knowIt rest IH]; intros screen m queue Hq Hlen Hne Hok; [done|].
  simpl in Hlen.
  destruct (lookup_lt_is_Some_2 queue (currentIndex m)) as [card Hc]; [lia|].
  destruct (handleAnswer_run today knowIt m queue card Hq Hc)
    as (m1 & st' & Hrun & Ha & Hsq & Hci & Hss & Hsto & Hst' & Hbox & _ & _ & Hoth).
  { intros _. pose proof (stateOf_boxesOk today m (id card) Hok). lia. }
  assert (boxesOk m1) as Hok1.
  { intros i st Hi. destruct (decide (i = id card)) as [->|Hi'].
    - rewrite Hst' in Hi. simplify_eq. rewrite Hbox.
      pose proof (stateOf_boxesOk today m (id card) Hok). destruct knowIt; lia.
    - rewrite Hoth in Hi by done. by apply (Hok i). }
  set (m2 := set_currentIndex S m1).
  assert (arrays m2 !! studyQueue m2 = Some queue) as Hq2.
  { subst m2. simpl. by rewrite Ha, Hsq. }
  destruct (renderCard_run today m2 queue Hq2) as (m3 & Hrender & Ht3 & Hsame).
  assert (study today (knowIt :: rest) screen m =
          study today rest
            (if bool_decide (length queue ≤ currentIndex m2)%nat
             then SummaryShown else CardShown) m3) as Hstep.
  { cbn [study]. unfold answerAndAdvance, advance, bind, modify.
    rewrite Hrun. cbn beta iota. fold m2. by rewrite Hrender. }
  rewrite Hstep.
  assert (currentIndex m2 = S (currentIndex m)) as Hci2
    by (subst m2; simpl; by rewrite Hci).
  destruct rest as [|k rest'].
  - rewrite bool_decide_eq_true_2 by (simpl in Hlen; lia).
    rewrite Hsame by (simpl in Hlen; lia).
    exists m2. cbn [study]. unfold ret. split_and!; [done|..|done|done].
    + rewrite filter_bool_cons. subst m2. simpl. rewrite Hss.
      destruct knowIt; simpl; lia.
    + rewrite filter_bool_cons. subst m2. simpl. rewrite Hss.
      destruct knowIt; simpl; lia.
    + subst m2. simpl. rewrite Hss. by destruct knowIt.
  - assert (touched today queue m2 m3) as Hm3.
    { destruct (Ht3 queue) as [H|(c0 & Hc0 & H)]; [done|].
      eapply touched_mono; [|exact H].
      intros x Hx. apply list_elem_of_singleton in Hx as ->.
      by apply list_elem_of_lookup_2 in Hc0. }
    pose proof Hm3 as (Ha3 & Hsq3 & Hci3 & Hss3 & Hsto3 & _).
    destruct (IH (if bool_decide (length queue ≤ currentIndex m2)%nat
                  then SummaryShown else CardShown) m3 queue)
      as (m' & Hrun' & Hma & Hre & Hto & Hsto' & Hok'); [| |done| |].
    + by rewrite Ha3, Hsq3.
    + rewrite Hci3, Hci2. simpl in Hlen |- *. lia.
    + eapply touched_boxesOk; [exact Hm3|]. done.
    + exists m'. split_and!; [done|..|done|done].
      * rewrite Hma, Hss3, (filter_bool_cons true knowIt). subst m2. simpl.
        rewrite Hss. destruct knowIt; simpl; lia.
      * rewrite Hre, Hss3, (filter_bool_cons false knowIt). subst m2. simpl.
        rewrite Hss. destruct knowIt; simpl; lia.
      * rewrite Hto, Hss3. subst m2. simpl. rewrite Hss. by destruct knowIt.
Qed.

Lemma sampleModule_boxesOk : boxesOk FlashcardsExamples.sampleModule.
Proof.
  intros i st. unfold FlashcardsExamples.sampleModule. simpl.
  rewrite lookup_insert_Some, lookup_singleton_Some.
  intros [[_ <-]|[_ [_ <-]]]; simpl; lia.
Qed.

Lemma asCard (i : string) : i = id {| id := i; term := ""; definition := "" |}.
Proof. done. Qed.

(** X3: an answer counts once.  On a card of the queue, with every stored
    box in 1..5, [handleAnswer] returns; it adds one to [mastered] when
    the card was known and one to [reviewing] when it was not, and leaves
    [total], the queue, the arrays and [currentIndex] as they were; every
    stored box is still in 1..5. *)
Theorem handleAnswer_counts today knowIt m queue card :
  arrays m !! studyQueue m = Some queue →
  queue !! currentIndex m = Some card →
  boxesOk m →
  ∃ m',
    handleAnswer today knowIt m = (Returned tt, m') ∧
    mastered (sessionStats m') =
      mastered (sessionStats m) + (if knowIt then 1 else 0) ∧
    reviewing (sessionStats m') =
      reviewing (sessionStats m) + (if knowIt then 0 else 1) ∧
    total (sessionStats m') = total (sessionStats m) ∧
    arrays m' = arrays m ∧ studyQueue m' = studyQueue m ∧
    currentIndex m' = currentIndex m ∧
    boxesOk m'.
Proof.
  intros Hq Hc Hok.
  pose proof (stateOf_boxesOk today m (id card) Hok) as Hb.
  destruct (handleAnswer_run today knowIt m queue card Hq Hc)
    as (m1 & st' & Hrun & Ha & Hsq & Hci & Hss & Hsto & Hst' & Hbox & _ & _ & Hoth);
    [intros _; lia|].
  exists m1. split_and!; try done.
  - rewrite Hss. destruct knowIt; simpl; lia.
  - rewrite Hss. destruct knowIt; simpl; lia.
  - rewrite Hss. by destruct knowIt.
  - intros i st Hi. destruct (decide (i = id card)) as [->|Hi'].
    + rewrite Hst' in Hi. simplify_eq. rewrite Hbox. destruct knowIt; lia.
    + rewrite Hoth in Hi by done. by apply (Hok i).
Qed.

(** X4: a known card rests.  On a host whose zone keeps one offset from
    UTC, after [handleAnswer(true)] on a card whose box was in 1..5, the
    card is not due on the day of the answer nor on the next day, and it is
    due again at the latest 14 days later; asking [isDue] changes nothing. *)
Theorem known_card_rests off today m queue card :
  constantOffset off →
  arrays m !! studyQueue m = Some queue →
  queue !! currentIndex m = Some card →
  1 ≤ box (stateOf today (leitnerState m) (id card)) ≤ 5 →
  ∃ m',
    handleAnswer today true m = (Returned tt, m') ∧
    (∀ day, today ≤ day ≤ today + 1 →
            isDue day (id card) m' = (Returned false, m')) ∧
    (∀ day, today + 14 ≤ day →
            isDue day (id card) m' = (Returned true, m')).
Proof.
  intros Hoff Hq Hc Hb.
  destruct (handleAnswer_run today true m queue card Hq Hc)
    as (m1 & st' & Hrun & _ & _ & _ & _ & _ & Hst' & _ & Hnr & _ & _);
    [intros _; lia|].
  destruct (Hnr eq_refl) as (d & _ & Hd & Hd2 & Hrest).
  rewrite (addDays_constant off) in Hrest by done.
  specialize (Hd2 (proj1 Hb)).
  exists m1. split_and!; [done|..]; intros day Hday;
    unfold isDue, getCardState, bind, get, ret; rewrite Hst'; do 2 f_equal.
  - apply bool_decide_eq_false. lia.
  - apply bool_decide_eq_true. lia.
Qed.

(** X5: an answer past the end of the queue throws.  When
    [currentIndex] is not a position of the queue, [studyQueue[currentIndex]]
    is [undefined], reading [card.id] throws, and nothing has been
    written: the module variables and the stored item are as before. *)
Theorem handleAnswer_past_end today knowIt m queue :
  arrays m !! studyQueue m = Some queue →
  (length queue ≤ currentIndex m)%nat →
  handleAnswer today knowIt m = (Thrown, m).
Proof.
  intros Hq Hlen. unfold handleAnswer, bind, get, orThrow. simpl. rewrite Hq.
  simpl. by rewrite (lookup_ge_None_2 queue (currentIndex m)).
Qed.

(** X6: a negative stored box makes a known answer throw half way.  When
    the box of the card is below 0, [Math.min(box + 1, 5)] has no entry in
    [BOX_INTERVALS], [addDays] throws on the invalid date, and the module
    is left with the box already raised by one while the review date, the
    counters and the stored item keep their old values.  An unknown
    answer on the same card returns and resets it to box 1. *)
Theorem handleAnswer_negative_box today m queue card st :
  arrays m !! studyQueue m = Some queue →
  queue !! currentIndex m = Some card →
  leitnerState m !! id card = Some st →
  box st < 0 →
  (∃ m',
     handleAnswer today true m = (Thrown, m') ∧
     leitnerState m' !! id card =
       Some {| box := box st + 1; nextReview := nextReview st |} ∧
     sessionStats m' = sessionStats m ∧
     stored m' = stored m) ∧
  (∃ m',
     handleAnswer today false m = (Returned tt, m') ∧
     leitnerState m' !! id card = Some {| box := 1; nextReview := today |}).
Proof.
  intros Hq Hc Hst Hb. split.
  - eexists. split_and!.
    + unfold handleAnswer, getCardState, bind, get, orThrow. simpl. rewrite Hq.
      simpl. rewrite Hc. simpl. rewrite Hst. simpl.
      rewrite interval_lookup_None by lia. simpl. reflexivity.
    + simpl. rewrite lookup_alter_eq, Hst. simpl. do 2 f_equal. lia.
    + done.
    + done.
  - destruct (handleAnswer_run today false m queue card Hq Hc)
      as (m1 & st' & Hrun & _ & _ & _ & _ & _ & Hst' & Hbox & _ & Hnr & _);
      [done|].
    exists m1. split; [done|]. rewrite Hst'. f_equal.
    destruct st' as [b d]. simpl in *. rewrite Hbox, (Hnr eq_refl). done.
Qed.

(** X7: a session without cards.  When the deck did not load or is empty,
    [startSession] shows the empty screen; the counters are reset and the
    Leitner map is reloaded from the stored item, and the queue, the
    arrays, [currentIndex] and the stored item are untouched, so a queue
    of an earlier session stays in place. *)
Theorem startSession_no_cards today m :
  ∃ m',
    startSession today None m = (Returned NoCards, m') ∧
    startSession today (Some []) m = (Returned NoCards, m') ∧
    sessionStats m' = {| mastered := 0; reviewing := 0; total := 0 |} ∧
    leitnerState m' = default ∅ (stored m) ∧
    arrays m' = arrays m ∧ studyQueue m' = studyQueue m ∧
    currentIndex m' = currentIndex m ∧ stored m' = stored m.
Proof.
  eexists. split_and!.
  - apply startSession_none. by left.
  - apply startSession_none. by right.
  - done.
  - done.
  - done.
  - done.
  - done.
  - done.
Qed.

(** X8: the start of a session.  On a deck with at least one card
    [startSession] shows a card; the queue is the deck sorted by the
    comparator of [sortCards] over the stored Leitner map, hence a
    rearrangement of the deck; [currentIndex] is 0, the counters are 0 and
    [total] is the number of cards; the stored item and every array that
    existed before are untouched; and the Leitner map is the stored one
    with a default state added for some cards of the deck. *)
Theorem startSession_queue today l m :
  l ≠ [] →
  ∃ m' queue,
    startSession today (Some l) m = (Returned CardShown, m') ∧
    arrays m' !! studyQueue m' = Some queue ∧
    queue = sort_by (compareKeys today (default ∅ (stored m))) l ∧
    queue ≡ₚ l ∧
    currentIndex m' = 0%nat ∧
    sessionStats m' =
      {| mastered := 0; reviewing := 0; total := Z.of_nat (length l) |} ∧
    stored m' = stored m ∧
    (∀ r q, arrays m !! r = Some q → arrays m' !! r = Some q) ∧
    (∀ i, leitnerState m' !! i = default ∅ (stored m) !! i ∨
          (default ∅ (stored m) !! i = None ∧
           leitnerState m' !! i = Some (defaultState today) ∧
           i ∈ id <$> l)).
Proof.
  intros Hl.
  destruct (startSession_run today l m Hl)
    as (m' & Hrun & Hq & Hci & Hss & Hsto & Hold & Hls).
  exists m', (sort_by (compareKeys today (default ∅ (stored m))) l).
  split_and!; try done. apply sort_by_Permutation.
Qed.

(** X9: the accounting of a session.  Start a session on a deck of n >= 1
    cards, the stored boxes being in 1..5, and give one answer per card:
    every call returns, the last one shows the summary, [mastered] is the
    number of known answers, [reviewing] the number of unknown ones, their
    sum ([reviewed] of the summary) equals [total] = n, the Leitner map is
    the stored item, and every box is in 1..5. *)
Theorem study_session_accounting today l answers m :
  l ≠ [] →
  length answers = length l →
  (∀ ls i st, stored m = Some ls → ls !! i = Some st → 1 ≤ box st ≤ 5) →
  ∃ m1 m2,
    startSession today (Some l) m = (Returned CardShown, m1) ∧
    study today answers CardShown m1 = (Returned SummaryShown, m2) ∧
    mastered (sessionStats m2) =
      Z.of_nat (length (filter (fun b => b = true) answers)) ∧
    reviewing (sessionStats m2) =
      Z.of_nat (length (filter (fun b => b = false) answers)) ∧
    reviewed m2 = total (sessionStats m2) ∧
    total (sessionStats m2) = Z.of_nat (length l) ∧
    stored m2 = Some (leitnerState m2) ∧
    boxesOk m2.
Proof.
  intros Hl Hlen Hstored.
  destruct (startSession_run today l m Hl)
    as (m1 & Hrun & Hq & Hci & Hss & Hsto & Hold & Hls).
  assert (boxesOk m1) as Hok1.
  { intros i st Hi. destruct (Hls i) as [E|(_ & E & _)].
    - rewrite E in Hi. destruct (stored m) as [ls|] eqn:Es; simpl in Hi.
      + by apply (Hstored ls i).
      + by rewrite lookup_empty in Hi.
    - rewrite E in Hi. simplify_eq. simpl. lia. }
  destruct (study_run today answers CardShown m1 _ Hq)
    as (m2 & Hstudy & Hma & Hre & Hto & Hsto2 & Hok2); [| |done|].
  { rewrite Hci, sort_by_Permutation. simpl. lia. }
  { intros ->. destruct l; [done|discriminate]. }
  assert (length answers =
          (length (filter (fun b => b = true) answers) +
           length (filter (fun b => b = false) answers))%nat) as Hsplit.
  { clear. induction answers as [|[] rest IH]; [done|..].
    - rewrite filter_cons_True, filter_cons_False by done. simpl. lia.
    - rewrite filter_cons_False, filter_cons_True by done. simpl. lia. }
  exists m1, m2. rewrite Hss in Hma, Hre, Hto. simpl in Hma, Hre, Hto.
  split_and!; try done; unfold reviewed; lia.
Qed.

(** X10: an answer survives a restart.  After [handleAnswer] returned,
    a later [startSession], on any day and any deck, finds the answered
    card with the box and review date the answer gave it. *)
Theorem answer_survives_restart today knowIt m queue card later cards :
  arrays m !! studyQueue m = Some queue →
  queue !! currentIndex m = Some card →
  boxesOk m →
  ∃ m1 st screen m2,
    handleAnswer today knowIt m = (Returned tt, m1) ∧
    leitnerState m1 !! id card = Some st ∧
    startSession later cards m1 = (Returned screen, m2) ∧
    leitnerState m2 !! id card = Some st.
Proof.
  intros Hq Hc Hok.
  pose proof (stateOf_boxesOk today m (id card) Hok) as Hb.
  destruct (handleAnswer_run today knowIt m queue card Hq Hc)
    as (m1 & st' & Hrun & _ & _ & _ & _ & Hsto & Hst' & _);
    [intros _; lia|].
  exists m1, st'.
  destruct cards as [[|c l']|].
  - eexists _, _. split_and!; [done|done|by apply startSession_none; right|].
    simpl. by rewrite Hsto.
  - destruct (startSession_run later (c :: l') m1)
      as (m2 & Hstart & _ & _ & _ & _ & _ & Hls); [done|].
    exists CardShown, m2. split_and!; [done|done|done|].
    rewrite Hsto in Hls. simpl in Hls.
    destruct (Hls (id card)) as [E|(N & _)]; congruence.
  - eexists _, _. split_and!; [done|done|by apply startSession_none; left|].
    simpl. by rewrite Hsto.
Qed.

(** X11: the boxes stay in 1..5.  From a module whose stored boxes are
    all in 1..5, whatever [getCardState], [isDue], [sortCards],
    [renderCard] or [handleAnswer] do, and whether they return or throw,
    every box of the Leitner map is in 1..5 afterwards. *)
Theorem boxes_stay_in_range m :
  boxesOk m →
  (∀ today cardId, boxesOk (getCardState today cardId m).2) ∧
  (∀ today cardId, boxesOk (isDue today cardId m).2) ∧
  (∀ today cards, boxesOk (sortCards today cards m).2) ∧
  (∀ today, boxesOk (renderCard today m).2) ∧
  (∀ today knowIt, boxesOk (handleAnswer today knowIt m).2).
Proof.
  intros Hok. split_and!.
  - intros today i. rewrite (asCard i).
    destruct (getCardState_run today {| id := i; term := ""; definition := "" |} m)
      as (m1 & -> & Hm1 & _).
    by eapply touched_boxesOk.
  - intros today i. rewrite (asCard i).
    destruct (isDue_run today {| id := i; term := ""; definition := "" |} m)
      as (m1 & -> & Hm1).
    by eapply touched_boxesOk.
  - intros today cards. destruct (arrays m !! cards) as [l|] eqn:E.
    + destruct (sortCards_run today m cards l E) as (r & m0 & m' & _ & Hm0 & -> & ->).
      simpl. intros i st Hi. simpl in Hi.
      eapply (touched_boxesOk today l _ m0 Hm0); [|exact Hi].
      intros j sj Hj. by apply (Hok j).
    + unfold sortCards, spread, bind, get, orThrow. by rewrite E.
  - intros today. destruct (arrays m !! studyQueue m) as [queue|] eqn:E.
    + destruct (renderCard_run today m queue E) as (m1 & -> & Ht & _).
      destruct (Ht []) as [H|(c & _ & H)]; simpl; by eapply touched_boxesOk.
    + unfold renderCard, bind, get, orThrow. by rewrite E.
  - intros today knowIt.
    destruct (arrays m !! studyQueue m) as [queue|] eqn:Eq.
    2:{ unfold handleAnswer, bind, get, orThrow. simpl. by rewrite Eq. }
    destruct (queue !! currentIndex m) as [card|] eqn:Ec.
    2:{ unfold handleAnswer, bind, get, orThrow. simpl. rewrite Eq. simpl.
        by rewrite Ec. }
    pose proof (stateOf_boxesOk today m (id card) Hok) as Hb.
    destruct (handleAnswer_run today knowIt m queue card Eq Ec)
      as (m1 & st' & -> & _ & _ & _ & _ & _ & Hst' & Hbox & _ & _ & Hoth);
      [intros _; lia|].
    simpl. intros i st Hi. destruct (decide (i = id card)) as [->|Hi'].
    + rewrite Hst' in Hi. simplify_eq. rewrite Hbox. destruct knowIt; lia.
    + rewrite Hoth in Hi by done. by apply (Hok i).
Qed.

End WithHost.

Lemma savedModule_boxes ls i st :
  stored FlashcardsExamples.savedModule = Some ls → ls !! i = Some st →
  1 ≤ box st ≤ 5.
Proof.
  intros [= <-]. rewrite lookup_insert_Some, lookup_singleton_Some.
  intros [[_ <-]|[_ [_ <-]]]; simpl; lia.
Qed.

Lemma handleAnswer_counts_witness :
  ∃ m',
    handleAnswer (host := utcHost) 10 true FlashcardsExamples.sampleModule = (Returned tt, m') ∧
    mastered (sessionStats m') = 1 ∧ reviewing (sessionStats m') = 0 ∧
    total (sessionStats m') = 3.
Proof.
  destruct (handleAnswer_counts (host := utcHost) 10 true FlashcardsExamples.sampleModule
              [FlashcardsExamples.bond; FlashcardsExamples.stock;
               FlashcardsExamples.option] FlashcardsExamples.stock)
    as (m' & Hrun & Hma & Hre & Hto & _).
  - reflexivity.
  - reflexivity.
  - exact sampleModule_boxesOk.
  - exists m'. split_and!; [exact Hrun|exact Hma|exact Hre|exact Hto].
Defined.

Lemma known_card_rests_witness :
  ∃ m',
    handleAnswer (host := utcHost) 10 true FlashcardsExamples.sampleModule = (Returned tt, m') ∧
    isDue 11 "stock" m' = (Returned false, m') ∧
    isDue 24 "stock" m' = (Returned true, m').
Proof.
  destruct (known_card_rests (host := utcHost) 0 10 FlashcardsExamples.sampleModule
              [FlashcardsExamples.bond; FlashcardsExamples.stock;
               FlashcardsExamples.option] FlashcardsExamples.stock)
    as (m' & Hrun & Hrest & Hdue).
  - exact utcHost_constant.
  - reflexivity.
  - reflexivity.
  - vm_compute. split; discriminate.
  - exists m'. split_and!; [exact Hrun|apply (Hrest 11); lia|apply (Hdue 24); lia].
Defined.

Lemma handleAnswer_past_end_witness :
  handleAnswer (host := utcHost) 10 true
    (set_currentIndex (fun _ => 3%nat) FlashcardsExamples.sampleModule) =
    (Thrown, set_currentIndex (fun _ => 3%nat) FlashcardsExamples.sampleModule).
Proof.
  apply (handleAnswer_past_end (host := utcHost) 10 true _
           [FlashcardsExamples.bond; FlashcardsExamples.stock;
            FlashcardsExamples.option]).
  - reflexivity.
  - simpl. lia.
Defined.

Lemma handleAnswer_negative_box_witness :
  ∃ m',
    handleAnswer (host := utcHost) 10 true FlashcardsExamples.damagedModule = (Thrown, m') ∧
    leitnerState m' !! "stock"%string = Some {| box := 0; nextReview := 9 |} ∧
    stored m' = None.
Proof.
  destruct (handleAnswer_negative_box (host := utcHost) 10 FlashcardsExamples.damagedModule
              [FlashcardsExamples.stock] FlashcardsExamples.stock
              {| box := -1; nextReview := 9 |})
    as [(m' & Hrun & Hst & _ & Hsto) _].
  - reflexivity.
  - reflexivity.
  - reflexivity.
  - simpl. lia.
  - exists m'. split_and!; [exact Hrun|exact Hst|exact Hsto].
Defined.

Lemma startSession_queue_witness :
  ∃ m',
    startSession 10 (Some [FlashcardsExamples.bond; FlashcardsExamples.stock])
      FlashcardsExamples.savedModule = (Returned CardShown, m') ∧
    arrays m' !! studyQueue m' =
      Some [FlashcardsExamples.stock; FlashcardsExamples.bond] ∧
    total (sessionStats m') = 2.
Proof.
  destruct (startSession_queue 10
              [FlashcardsExamples.bond; FlashcardsExamples.stock]
              FlashcardsExamples.savedModule)
    as (m' & queue & Hrun & Hq & Hqueue & _ & _ & Hss & _).
  - discriminate.
  - exists m'. split_and!; [exact Hrun| |by rewrite Hss].
    rewrite Hq, Hqueue. reflexivity.
Defined.

Lemma study_session_accounting_witness :
  ∃ m1 m2,
    startSession 10 (Some [FlashcardsExamples.bond; FlashcardsExamples.stock])
      FlashcardsExamples.savedModule = (Returned CardShown, m1) ∧
    study (host := utcHost) 10 [true; false] CardShown m1 = (Returned SummaryShown, m2) ∧
    mastered (sessionStats m2) = 1 ∧ reviewing (sessionStats m2) = 1 ∧
    total (sessionStats m2) = 2.
Proof.
  destruct (study_session_accounting (host := utcHost) 10
              [FlashcardsExamples.bond; FlashcardsExamples.stock] [true; false]
              FlashcardsExamples.savedModule)
    as (m1 & m2 & Hstart & Hstudy & Hma & Hre & _ & Hto & _).
  - discriminate.
  - reflexivity.
  - exact savedModule_boxes.
  - exists m1, m2.
    split_and!; [exact Hstart|exact Hstudy|exact Hma|exact Hre|exact Hto].
Defined.

Lemma answer_survives_restart_witness :
  ∃ m1 st screen m2,
    handleAnswer (host := utcHost) 10 true FlashcardsExamples.sampleModule = (Returned tt, m1) ∧
    leitnerState m1 !! "stock"%string = Some st ∧
    startSession 12 (Some [FlashcardsExamples.stock]) m1 = (Returned screen, m2) ∧
    leitnerState m2 !! "stock"%string = Some st.
Proof.
  apply (answer_survives_restart (host := utcHost) 10 true FlashcardsExamples.sampleModule
           [FlashcardsExamples.bond; FlashcardsExamples.stock;
            FlashcardsExamples.option] FlashcardsExamples.stock 12
           (Some [FlashcardsExamples.stock])).
  - reflexivity.
  - reflexivity.
  - exact sampleModule_boxesOk.
Defined.

Lemma boxes_stay_in_range_witness :
  boxesOk (handleAnswer (host := utcHost) 10 true FlashcardsExamples.sampleModule).2 ∧
  boxesOk (sortCards 10 0%nat FlashcardsExamples.sampleModule).2.
Proof.
  destruct (boxes_stay_in_range (host := utcHost) FlashcardsExamples.sampleModule
              sampleModule_boxesOk) as (_ & _ & Hsort & _ & Hans).
  split; [apply (Hans 10 true)|apply (Hsort 10 0%nat)].
Defined.

End SessionFacts.

(** * Facts about the progress store *)

Module StoreFacts.
Import Progress ProgressReads StreakFacts ImportFacts QuizFacts.

Section WithHost.
Context {host : Host}.

Lemma updateStreaks_streaks_ext today d1 d2 :
  streaks d1 = streaks d2 →
  streaks (updateStreaks today d1) = streaks (updateStreaks today d2).
Proof.
  intros H. unfold updateStreaks. rewrite H.
  destruct (dates (streaks d2)); [done|].
  destruct (reverse _); [done|].
  by destruct (1 <? _).
Qed.

Lemma withToday_streaks_ext today d1 d2 :
  streaks d1 = streaks d2 →
  streaks (withToday today d1) = streaks (withToday today d2).
Proof.
  intros H. unfold withToday. rewrite H. by destruct (decide _).
Qed.

Lemma withToday_longest today d :
  longest (streaks (withToday today d)) = longest (streaks d).
Proof. unfold withToday. by destruct (decide _). Qed.

Lemma withToday_current today d :
  current (streaks (withToday today d)) = current (streaks d).
Proof. unfold withToday. by destruct (decide _). Qed.

Lemma withToday_dates today d x :
  x ∈ dates (streaks (withToday today d)) ↔ x = today ∨ x ∈ dates (streaks d).
Proof.
  unfold withToday. destruct (decide _) as [H|H]; simpl.
  - split; [by right|]. by intros [->|].
  - rewrite elem_of_app, list_elem_of_singleton. tauto.
Qed.

(** The three writers of an exam share one shape: load, update the exam
    object, save, record the activity. *)
Lemma update_exam_run today examId (f : ExamProgress → ExamProgress) st :
  ∃ data',
    ((data <- loadProgress ;;
      let '(data, exam) := ensureExam data examId in
      saveProgress (set_exam data examId (f exam)) ;;;
      recordActivity today)%js) st = (Returned tt, Some data') ∧
    exams data' !! examId = Some (f (examOf st examId)) ∧
    (∀ k, k ≠ examId → exams data' !! k = exams (loaded st) !! k) ∧
    streaks data' = streaks (updateStreaks today (withToday today (loaded st))).
Proof.
  destruct (ensureExam_spec (loaded st) examId) as (He & Hs & Hk).
  exists (updateStreaks today
            (withToday today
               (set_exam (ensureExam (loaded st) examId).1 examId
                  (f (ensureExam (loaded st) examId).2)))).
  split_and!.
  - unfold loadProgress, bind, get, saveProgress, put, ret.
    destruct st as [d|]; cbn [loaded]; destruct (ensureExam _ examId) as [data exam];
      cbn beta iota; by rewrite recordActivity_run.
  - rewrite updateStreaks_exams, withToday_exams. simpl.
    rewrite lookup_insert_eq. by rewrite He.
  - intros k Hne. rewrite updateStreaks_exams, withToday_exams. simpl.
    rewrite lookup_insert_ne by done. by apply Hk.
  - by apply updateStreaks_streaks_ext, withToday_streaks_ext.
Qed.

Lemma markChapterComplete_store today now examId chapterId complete st :
  ∃ data',
    markChapterComplete today now examId chapterId complete st =
      (Returned tt, Some data') ∧
    exams data' !! examId =
      Some (let exam := examOf st examId in
            set_lastActivity
              (if complete && negb (bool_decide (chapterId ∈ chaptersCompleted exam))
               then set_chaptersCompleted exam (chaptersCompleted exam ++ [chapterId])
               else if negb complete
                    then set_chaptersCompleted exam
                           (filter (fun c => c ≠ chapterId) (chaptersCompleted exam))
                    else exam)
              (Some now)) ∧
    (∀ k, k ≠ examId → exams data' !! k = exams (loaded st) !! k) ∧
    streaks data' = streaks (updateStreaks today (withToday today (loaded st))).
Proof.
  exact (update_exam_run today examId
           (fun exam =>
              set_lastActivity
                (if complete && negb (bool_decide (chapterId ∈ chaptersCompleted exam))
                 then set_chaptersCompleted exam (chaptersCompleted exam ++ [chapterId])
                 else if negb complete
                      then set_chaptersCompleted exam
                             (filter (fun c => c ≠ chapterId) (chaptersCompleted exam))
                      else exam)
                (Some now)) st).
Qed.

Lemma markTopicStudied_store today now examId topicId studied st :
  ∃ data',
    markTopicStudied today now examId topicId studied st =
      (Returned tt, Some data') ∧
    exams data' !! examId =
      Some (let exam := examOf st examId in
            set_lastActivity
              (if studied && negb (bool_decide (topicId ∈ topicsStudied exam))
               then set_topicsStudied exam (topicsStudied exam ++ [topicId])
               else if negb studied
                    then set_topicsStudied exam
                           (filter (fun t => t ≠ topicId) (topicsStudied exam))
                    else exam)
              (Some now)) ∧
    (∀ k, k ≠ examId → exams data' !! k = exams (loaded st) !! k) ∧
    streaks data' = streaks (updateStreaks today (withToday today (loaded st))).
Proof.
  exact (update_exam_run today examId
           (fun exam =>
              set_lastActivity
                (if studied && negb (bool_decide (topicId ∈ topicsStudied exam))
                 then set_topicsStudied exam (topicsStudied exam ++ [topicId])
                 else if negb studied
                      then set_topicsStudied exam
                             (filter (fun t => t ≠ topicId) (topicsStudied exam))
                      else exam)
                (Some now)) st).
Qed.

Lemma saveQuizScore_store today now examId sc tot pa st :
  ∃ data',
    saveQuizScore today now examId sc tot pa st = (Returned tt, Some data') ∧
    exams data' !! examId =
      Some (let exam := examOf st examId in
            set_lastActivity
              (set_quizScores exam
                 (quizScores exam ++
                    [{| date := now; score := sc; total := tot; passed := pa |}]))
              (Some now)) ∧
    (∀ k, k ≠ examId → exams data' !! k = exams (loaded st) !! k) ∧
    streaks data' = streaks (updateStreaks today (withToday today (loaded st))).
Proof.
  exact (update_exam_run today examId
           (fun exam =>
              set_lastActivity
                (set_quizScores exam
                   (quizScores exam ++
                      [{| date := now; score := sc; total := tot; passed := pa |}]))
                (Some now)) st).
Qed.

Lemma isChapterComplete_run examId chapterId st :
  isChapterComplete examId chapterId st =
    (Returned (bool_decide (chapterId ∈ chaptersOf st examId)), st).
Proof.
  unfold isChapterComplete, chaptersOf, examOf, bind, loadProgress, get, ret.
  destruct st as [data|]; simpl.
  - by destruct (exams data !! examId).
  - by rewrite lookup_empty.
Qed.

Lemma getCompletedChapters_run examId st :
  getCompletedChapters examId st = (Returned (chaptersOf st examId), st).
Proof.
  unfold getCompletedChapters, chaptersOf, examOf, bind, loadProgress, get, ret.
  destruct st as [data|]; simpl.
  - by destruct (exams data !! examId).
  - by rewrite lookup_empty.
Qed.

Lemma getExamProgress_run examId st :
  getExamProgress examId st = (Returned (examOf st examId), st).
Proof.
  unfold getExamProgress, examOf, bind, loadProgress, get, ret. by destruct st.
Qed.

Lemma examOf_lookup data examId exam :
  exams data !! examId = Some exam → examOf (Some data) examId = exam.
Proof. intros H. unfold examOf. simpl. by rewrite H. Qed.

Lemma run_bound (l : list Z) start (n : nat) :
  (∀ j : nat, (j < n)%nat → start - Z.of_nat j ∈ l) → (n ≤ length l)%nat.
Proof.
  intros Hrun.
  assert ((fun j : nat => start - Z.of_nat j) <$> seq 0 n ⊆+ l) as Hsub.
  { apply NoDup_submseteq.
    - apply NoDup_fmap_2; [intros a b; lia|apply NoDup_seq].
    - intros x (j & -> & Hj)%list_elem_of_fmap. apply Hrun.
      apply elem_of_seq in Hj. lia. }
  apply submseteq_length in Hsub. by rewrite length_fmap, length_seq in Hsub.
Qed.

Lemma run_exists (l : list Z) start :
  start ∈ l → ∃ n : nat, (1 ≤ n)%nat ∧ consecutiveDays l start n.
Proof.
  intros Hin.
  assert (∀ fuel k : nat, (length l < k + fuel)%nat →
            (∀ j : nat, (j < k)%nat → start - Z.of_nat j ∈ l) →
            ∃ n : nat, (k ≤ n)%nat ∧ consecutiveDays l start n) as Hsearch.
  { induction fuel as [|fuel IH]; intros k Hlen Hrun.
    - apply run_bound in Hrun. lia.
    - destruct (decide (start - Z.of_nat k ∈ l)) as [Hk|Hk].
      + destruct (IH (S k)) as (n & Hn & Hc); [lia| |exists n; split; [lia|done]].
        intros j Hj. destruct (decide (j = k)) as [->|]; [done|]. apply Hrun. lia.
      + exists k. split; [lia|]. by split. }
  apply (Hsearch (length l) 1%nat); [lia|].
  intros j Hj. replace j with 0%nat by lia. by rewrite Z.sub_0_r.
Qed.

Lemma pushNewQuizzes_prefix D l qs qs' :
  pushNewQuizzes D l qs = Some qs' → qs `prefix_of` qs'.
Proof.
  revert qs. induction l as [|[q|] l IH]; intros qs H; simpl in H.
  - by simplify_eq.
  - apply IH in H. destruct (truthy (date q) && _); [|done].
    etrans; [|exact H]. by apply prefix_app_r.
  - done.
Qed.

Lemma NoDup_snoc_fresh {A} (l : list A) x : x ∉ l → NoDup l → NoDup (l ++ [x]).
Proof.
  intros Hx Hl. apply NoDup_app. split_and!; [done| |apply NoDup_singleton].
  intros y Hy ->%list_elem_of_singleton. done.
Qed.

Lemma filter_ne_fresh (l : list string) c :
  c ∉ l → filter (fun x => x ≠ c) l = l.
Proof.
  intros Hc. induction l as [|y l IH]; [done|].
  apply not_elem_of_cons in Hc as [Hne Hc].
  rewrite filter_cons_True by done. by rewrite IH.
Qed.

(** X12: the status of a chapter after [markChapterComplete].  On any
    store the call returns; [isChapterComplete] then answers the flag that
    was passed, without writing; the status of every other chapter of the
    exam is as before; a chapter marked complete twice is listed once; and
    a list of completed chapters without duplicates stays so. *)
Theorem markChapterComplete_status today now examId chapterId complete st :
  ∃ st',
    markChapterComplete today now examId chapterId complete st = (Returned tt, st') ∧
    isChapterComplete examId chapterId st' = (Returned complete, st') ∧
    (∀ c, c ≠ chapterId →
          (isChapterComplete examId c st').1 = (isChapterComplete examId c st).1) ∧
    (NoDup (chaptersOf st examId) → NoDup (chaptersOf st' examId)) ∧
    (∀ now', (markChapterComplete today now' examId chapterId complete st').1 =
               Returned tt ∧
             chaptersOf
               (markChapterComplete today now' examId chapterId complete st').2 examId =
               chaptersOf st' examId).
Proof.
  destruct (markChapterComplete_store today now examId chapterId complete st)
    as (data' & Hrun & Hex & _).
  apply examOf_lookup in Hex.
  assert (chaptersOf (Some data') examId =
          if complete && negb (bool_decide (chapterId ∈ chaptersOf st examId))
          then chaptersOf st examId ++ [chapterId]
          else if negb complete
               then filter (fun c => c ≠ chapterId) (chaptersOf st examId)
               else chaptersOf st examId) as Hch.
  { unfold chaptersOf at 1. rewrite Hex. unfold chaptersOf. simpl.
    destruct complete; simpl; [|done]. by case_bool_decide. }
  exists (Some data'). split_and!.
  - done.
  - rewrite isChapterComplete_run, Hch. do 2 f_equal.
    destruct complete; simpl.
    + case_bool_decide as Hin; simpl; apply bool_decide_eq_true; [done|].
      rewrite elem_of_app, list_elem_of_singleton. by right.
    + apply bool_decide_eq_false. rewrite list_elem_of_filter. tauto.
  - intros c Hc. rewrite !isChapterComplete_run. simpl.
    rewrite Hch. f_equal. apply bool_decide_ext.
    destruct complete; simpl.
    + case_bool_decide as Hin; simpl; [done|].
      rewrite elem_of_app, list_elem_of_singleton. tauto.
    + rewrite list_elem_of_filter. tauto.
  - intros Hnd. rewrite Hch.
    destruct complete; simpl.
    + case_bool_decide as Hin; simpl; [done|]. by apply NoDup_snoc_fresh.
    + by apply NoDup_filter.
  - intros now'.
    destruct (markChapterComplete_store today now' examId chapterId complete (Some data'))
      as (data2 & Hrun2 & Hex2 & _).
    apply examOf_lookup in Hex2.
    rewrite Hrun2. split; [done|]. simpl.
    unfold chaptersOf at 1. rewrite Hex2. simpl.
    fold (chaptersOf (Some data') examId).
    destruct complete; simpl.
    + rewrite bool_decide_eq_true_2; [done|].
      rewrite Hch. simpl. case_bool_decide as Hin; simpl; [done|].
      rewrite elem_of_app, list_elem_of_singleton. by right.
    + rewrite Hch. simpl. apply filter_ne_fresh.
      rewrite list_elem_of_filter. tauto.
Qed.

(** X13: marking a chapter and unmarking it is a round trip on the list.
    When the chapter is not in the list of completed chapters,
    [markChapterComplete(..., true)] followed by
    [markChapterComplete(..., false)] leaves the list exactly as it was,
    while [lastActivity] is the time of the second call. *)
Theorem mark_unmark_round_trip today now now' examId chapterId st :
  chapterId ∉ chaptersOf st examId →
  ∃ st1 st2,
    markChapterComplete today now examId chapterId true st = (Returned tt, st1) ∧
    markChapterComplete today now' examId chapterId false st1 = (Returned tt, st2) ∧
    chaptersOf st1 examId = chaptersOf st examId ++ [chapterId] ∧
    chaptersOf st2 examId = chaptersOf st examId ∧
    lastActivity (examOf st2 examId) = Some now'.
Proof.
  intros Hnew.
  destruct (markChapterComplete_store today now examId chapterId true st)
    as (data1 & Hrun1 & Hex1 & _).
  destruct (markChapterComplete_store today now' examId chapterId false (Some data1))
    as (data2 & Hrun2 & Hex2 & _).
  apply examOf_lookup in Hex1, Hex2.
  exists (Some data1), (Some data2).
  assert (chaptersOf (Some data1) examId = chaptersOf st examId ++ [chapterId]) as H1.
  { unfold chaptersOf at 1. rewrite Hex1. simpl.
    fold (chaptersOf st examId). by rewrite bool_decide_eq_false_2. }
  split_and!; [done|done|done| |].
  - unfold chaptersOf at 1. rewrite Hex2. simpl.
    fold (chaptersOf (Some data1) examId).
    rewrite H1, filter_app, filter_ne_fresh by done.
    rewrite filter_cons_False, filter_nil by (intros H; by apply H).
    by rewrite app_nil_r.
  - by rewrite Hex2.
Qed.

(** X14: the writers of one exam leave the other exams alone.  After
    [markTopicStudied], [markChapterComplete] or [saveQuizScore] on an
    exam, [getExamProgress] of any other exam returns what it returned
    before. *)
Theorem exam_updates_are_local today now examId st :
  (∀ topicId studied other, other ≠ examId →
     examOf (markTopicStudied today now examId topicId studied st).2 other =
       examOf st other) ∧
  (∀ chapterId complete other, other ≠ examId →
     examOf (markChapterComplete today now examId chapterId complete st).2 other =
       examOf st other) ∧
  (∀ sc tot pa other, other ≠ examId →
     examOf (saveQuizScore today now examId sc tot pa st).2 other =
       examOf st other) ∧
  (∀ other, getExamProgress other st = (Returned (examOf st other), st)).
Proof.
  split_and!.
  - intros topicId studied other Hne.
    destruct (markTopicStudied_store today now examId topicId studied st)
      as (data' & -> & _ & Hk & _).
    unfold examOf. simpl. by rewrite Hk.
  - intros chapterId complete other Hne.
    destruct (markChapterComplete_store today now examId chapterId complete st)
      as (data' & -> & _ & Hk & _).
    unfold examOf. simpl. by rewrite Hk.
  - intros sc tot pa other Hne.
    destruct (saveQuizScore_store today now examId sc tot pa st)
      as (data' & -> & _ & Hk & _).
    unfold examOf. simpl. by rewrite Hk.
  - intros other. apply getExamProgress_run.
Qed.

(** X15: the streak after an activity.  On a host whose zone keeps one
    offset from UTC, when no stored date is later than today,
    [recordActivity] stores the old dates and today, and with n >= 1 the
    length of the run of consecutive days ending today (at most the number
    of stored dates), it sets [current] to n at or west of UTC, and to 0
    east of UTC. *)
Theorem recordActivity_streak_is_run off today st :
  constantOffset off →
  - msPerDay < off < msPerDay →
  (∀ d, d ∈ dates (streaks (loaded st)) → d ≤ today) →
  ∃ data' (n : nat),
    recordActivity today st = (Returned tt, Some data') ∧
    (1 ≤ n)%nat ∧
    current (streaks data') = (if bool_decide (off ≤ 0) then Z.of_nat n else 0) ∧
    consecutiveDays (dates (streaks data')) today n ∧
    (n ≤ length (dates (streaks data')))%nat ∧
    (∀ x, x ∈ dates (streaks data') ↔
          x = today ∨ x ∈ dates (streaks (loaded st))).
Proof.
  intros Hoff Hrange Hmax. rewrite recordActivity_run.
  set (data1 := withToday today (loaded st)).
  assert (today ∈ dates (streaks data1)) as Hin by apply withToday_elem.
  assert (∀ d, d ∈ dates (streaks data1) → d ≤ today) as Hmax1.
  { intros d [->|Hd]%withToday_dates; [lia|by apply Hmax]. }
  destruct (run_exists _ _ Hin) as (n & Hn & Hrun).
  destruct (updateStreaks_dates today data1) as [_ Hel].
  assert (consecutiveDays (dates (streaks (updateStreaks today data1))) today n) as Hrun'.
  { eapply consecutiveDays_elem; [|exact Hrun]. intros x. by rewrite Hel. }
  exists (updateStreaks today data1), n. split_and!; [done|done| |done| |].
  - case_bool_decide as Hwest.
    + apply (updateStreaks_current_today off); [done|lia|done|done|done].
    + apply (updateStreaks_current_east off); [done|lia|done|done].
  - apply (run_bound _ today). apply Hrun'.
  - intros x. rewrite Hel. apply withToday_dates.
Qed.

(** X16: a stored date in the future stops the streak.  When some stored
    date is later than today, [recordActivity] records today and sets
    [current] to 0: the most recent date is neither today nor
    yesterday. *)
Theorem future_date_zeroes_streak today st d :
  d ∈ dates (streaks (loaded st)) → today < d →
  ∃ data',
    recordActivity today st = (Returned tt, Some data') ∧
    today ∈ dates (streaks data') ∧
    current (streaks data') = 0.
Proof.
  intros Hd Hlt. rewrite recordActivity_run.
  set (data1 := withToday today (loaded st)).
  assert (d ∈ dates (streaks data1)) as Hd1 by (apply withToday_dates; by right).
  assert (dates (streaks data1) ≠ []) as Hne
    by (intros H; rewrite H in Hd1; by apply elem_of_nil in Hd1).
  destruct (sorted_dates_nonempty _ Hne) as (top & rest & E).
  assert (d ≤ top) as Htop.
  { pose proof (sorted_dates_descending (dates (streaks data1))) as Hdesc.
    pose proof (proj2 (sorted_dates_elem (dates (streaks data1)) d) Hd1) as Hin.
    rewrite E in Hdesc, Hin. apply elem_of_cons in Hin as [->|Hin]; [lia|].
    apply StronglySorted_inv in Hdesc as [_ Hall].
    rewrite Forall_forall in Hall. specialize (Hall d Hin). simpl in Hall. lia. }
  exists (updateStreaks today data1). split_and!; [done| |].
  - apply updateStreaks_dates, withToday_elem.
  - rewrite (updateStreaks_unfold today data1 top rest Hne E).
    pose proof (parseLocal_mono today top) as Hmid.
    assert ((parseLocal today - parseLocal top) `div` msPerDay ≤ 0) as Hdiff.
    { apply Z.div_le_upper_bound; [done|lia]. }
    pose proof (midnightNotLater today) as Hday.
    replace (1 <? _) with false by (symmetry; apply Z.ltb_ge; lia).
    cbn [set_streaks streaks current streakLoop].
    replace (top =? isoDay (setDate (parseLocal today) (- 0))) with false.
    2:{ symmetry. apply Z.eqb_neq. unfold setDate, parseLocal.
        change (- 0 * msPerDay) with 0. rewrite Z.add_0_r. lia. }
    replace (_ =? 1) with false by (symmetry; apply Z.eqb_neq; lia).
    by rewrite andb_false_r.
Qed.

(** X17: [longest] never decreases.  After [recordActivity],
    [markTopicStudied], [markChapterComplete], [saveQuizScore] and
    [importProgress], whatever they are given and whatever
    [importProgress] returns, the stored [longest] is at least what it
    was. *)
Theorem longest_never_decreases today now st :
  let before := longest (streaks (loaded st)) in
  before ≤ longest (streaks (loaded (recordActivity today st).2)) ∧
  (∀ examId topicId studied,
     before ≤ longest (streaks (loaded
                (markTopicStudied today now examId topicId studied st).2))) ∧
  (∀ examId chapterId complete,
     before ≤ longest (streaks (loaded
                (markChapterComplete today now examId chapterId complete st).2))) ∧
  (∀ examId sc tot pa,
     before ≤ longest (streaks (loaded
                (saveQuizScore today now examId sc tot pa st).2))) ∧
  (∀ JSON_parse json,
     before ≤ longest (streaks (loaded (importProgress JSON_parse today json st).2))).
Proof.
  intros before.
  assert (before ≤ longest (streaks (updateStreaks today (withToday today (loaded st)))))
    as Hrec.
  { etrans; [|apply updateStreaks_longest_mono]. by rewrite withToday_longest. }
  split_and!.
  - by rewrite recordActivity_run.
  - intros examId topicId studied.
    destruct (markTopicStudied_store today now examId topicId studied st)
      as (data' & -> & _ & _ & Hs). simpl. by rewrite Hs.
  - intros examId chapterId complete.
    destruct (markChapterComplete_store today now examId chapterId complete st)
      as (data' & -> & _ & _ & Hs). simpl. by rewrite Hs.
  - intros examId sc tot pa.
    destruct (saveQuizScore_store today now examId sc tot pa st)
      as (data' & -> & _ & _ & Hs). simpl. by rewrite Hs.
  - intros JSON_parse json. rewrite importProgress_run.
    destruct (importedObject JSON_parse json) as [o|]; [|done].
    destruct (match s_exams o with
              | Some es => mergeExams (map_to_list es) (loaded st)
              | None => Some (loaded st)
              end) as [cur|] eqn:Hcur; [|done].
    assert (streaks cur = streaks (loaded st)) as Hs.
    { destruct (s_exams o) as [es|]; [|by simplify_eq].
      by apply mergeExams_map in Hcur as [? _]. }
    simpl. unfold mergeStreaks.
    destruct (s_streaks o) as [[[ds|] ln]|]; simpl; try (rewrite Hs; done).
    etrans; [|apply updateStreaks_longest_mono]. simpl. rewrite Hs.
    fold before. destruct ln as [n|]; [|done].
    destruct (before =? 0) eqn:E; [apply Z.eqb_eq in E|]; lia.
Qed.

(** X18: an import never loses local progress.  Whatever
    [importProgress] is given and whatever it returns, every exam of the
    store is still there afterwards, with every topic and chapter it had,
    its quiz scores as a prefix of the new list, and a
    [flashcardsMastered] that is not lower. *)
Theorem import_never_loses_progress JSON_parse today json st :
  ∀ examId,
    let old := examOf st examId in
    let new := examOf (importProgress JSON_parse today json st).2 examId in
    (is_Some (exams (loaded st) !! examId) →
     is_Some (exams (loaded (importProgress JSON_parse today json st).2) !! examId)) ∧
    (∀ t, t ∈ topicsStudied old → t ∈ topicsStudied new) ∧
    (∀ c, c ∈ chaptersCompleted old → c ∈ chaptersCompleted new) ∧
    quizScores old `prefix_of` quizScores new ∧
    flashcardsMastered old ≤ flashcardsMastered new.
Proof.
  intros examId. rewrite importProgress_run.
  destruct (importedObject JSON_parse json) as [o|]; [|by cbn zeta].
  destruct (match s_exams o with
            | Some es => mergeExams (map_to_list es) (loaded st)
            | None => Some (loaded st)
            end) as [cur|] eqn:Hcur; [|by cbn zeta].
  cbn [snd]. unfold examOf. cbn [loaded]. rewrite mergeStreaks_exams.
  destruct (s_exams o) as [es|]; [|by simplify_eq].
  pose proof (proj1 (mergeExams_map_is_Some es (loaded st))
                (ex_intro _ cur Hcur)) as Hok.
  apply mergeExams_map in Hcur as [_ Hlook]. specialize (Hlook examId).
  destruct (es !! examId) as [v|] eqn:Ev; [|by rewrite Hlook].
  destruct Hlook as (ed & -> & Hm).
  destruct (proj2 (mergeExam_is_Some
                     (default getDefaultExamProgress (exams (loaded st) !! examId)) ed)
              (Hok examId _ Ev)) as [e' He'].
  rewrite Hm, He'. cbv zeta. change (default getDefaultExamProgress (Some e')) with e'.
  destruct (mergeExam_fields _ _ _ He') as (Ht & Hc & Hq & Hf & _).
  split_and!.
  - eauto.
  - intros t Hin. rewrite Ht. destruct (d_topicsStudied ed); [|done].
    apply Set_from_elem, elem_of_app. by left.
  - intros c Hin. rewrite Hc. destruct (d_chaptersCompleted ed); [|done].
    apply Set_from_elem, elem_of_app. by left.
  - destruct (d_quizScores ed); [|by rewrite Hq].
    by eapply pushNewQuizzes_prefix.
  - rewrite Hf. destruct (d_flashcardsMastered ed); lia.
Qed.

(** X19: an import without streak dates leaves the streak alone.  When
    the imported object has no [streaks], or streaks without an array of
    dates, [importProgress] does not call [updateStreaks]: the stored
    dates, [current] and [longest] are exactly as before, whether the
    import succeeds or not, even when [current] is out of date. *)
Theorem import_without_streaks JSON_parse today json st o :
  importedObject JSON_parse json = Some o →
  (∀ sd, s_streaks o = Some sd → d_dates sd = None) →
  streaks (loaded (importProgress JSON_parse today json st).2) =
    streaks (loaded st).
Proof.
  intros Ho Hsd. rewrite importProgress_run, Ho.
  destruct (match s_exams o with
            | Some es => mergeExams (map_to_list es) (loaded st)
            | None => Some (loaded st)
            end) as [cur|] eqn:Hcur; [|done].
  assert (streaks cur = streaks (loaded st)) as Hs.
  { destruct (s_exams o) as [es|]; [|by simplify_eq].
    by apply mergeExams_map in Hcur as [? _]. }
  cbn [snd loaded]. unfold mergeStreaks.
  destruct (s_streaks o) as [sd|]; [|done].
  by rewrite (Hsd sd eq_refl).
Qed.

Lemma stats_fold l nt nq b :
  foldl statsStep (nt, nq, b) l =
    (nt + Z.of_nat (length (l ≫= topicsStudied)),
     nq + Z.of_nat (length (l ≫= quizScores)),
     foldl bestStep b (l ≫= quizScores)).
Proof.
  revert nt nq b. induction l as [|e l IH]; intros nt nq b; simpl.
  - by rewrite !Z.add_0_r.
  - by rewrite IH, !length_app, foldl_app, !Nat2Z.inj_add, !Z.add_assoc.
Qed.

Lemma bestStep_is_Some b qs :
  is_Some (foldl bestStep b qs) ↔ is_Some b ∨ qs ≠ [].
Proof.
  revert b. induction qs as [|q qs IH]; intros b; simpl.
  - split; [by left|]. by intros [?|?].
  - rewrite IH. split; [by right|]. intros _. left.
    unfold bestStep. destruct b; [destruct (SFltb _ _)|]; eauto.
Qed.

Lemma values_insert (m : gmap string ExamProgress) k e' :
  snd <$> map_to_list (<[k := e']> m) ≡ₚ e' :: (snd <$> map_to_list (delete k m)).
Proof.
  rewrite <-insert_delete_eq.
  rewrite map_to_list_insert by apply lookup_delete_eq. done.
Qed.

Lemma values_lookup (m : gmap string ExamProgress) k :
  snd <$> map_to_list m ≡ₚ
    match m !! k with
    | Some e => e :: (snd <$> map_to_list (delete k m))
    | None => snd <$> map_to_list (delete k m)
    end.
Proof.
  destruct (m !! k) as [e|] eqn:E.
  - by rewrite <-(map_to_list_delete m k e E).
  - by rewrite delete_id.
Qed.

Lemma bind_length_perm {A B} (f : A → list B) (l1 l2 : list A) :
  l1 ≡ₚ l2 → length (l1 ≫= f) = length (l2 ≫= f).
Proof. intros H. apply Permutation_length. by apply bind_Permutation. Qed.

Lemma stats_quizzes data :
  os_quizzesTaken (computeOverallStats data) =
    Z.of_nat (length ((snd <$> map_to_list (exams data)) ≫= quizScores)) ∧
  os_topicsStudied (computeOverallStats data) =
    Z.of_nat (length ((snd <$> map_to_list (exams data)) ≫= topicsStudied)) ∧
  os_bestScore (computeOverallStats data) =
    foldl bestStep None ((snd <$> map_to_list (exams data)) ≫= quizScores).
Proof.
  unfold computeOverallStats. rewrite stats_fold. simpl. split_and!; [lia|lia|done].
Qed.

(** X20: the dashboard shows a best score exactly when a quiz was taken.
    For every store, [bestScore] of [computeOverallStats] is [null] if
    and only if [quizzesTaken] is 0; neither figure is negative. *)
Theorem bestScore_null_iff_no_quiz st :
  (os_bestScore (statsOf st) = None ↔ os_quizzesTaken (statsOf st) = 0) ∧
  0 ≤ os_quizzesTaken (statsOf st) ∧
  0 ≤ os_topicsStudied (statsOf st).
Proof.
  unfold statsOf. destruct (stats_quizzes (loaded st)) as (-> & -> & ->).
  split_and!; [|lia|lia].
  rewrite eq_None_not_Some, bestStep_is_Some.
  destruct (_ ≫= quizScores) as [|q qs]; simpl.
  - split; [done|]. intros _ [[? [=]]|?]; done.
  - split; [|lia]. intros H. destruct H. by right.
Qed.

(** X21: a saved quiz is counted once.  After [saveQuizScore] on any
    store, [computeOverallStats] reports one more quiz taken, the same
    number of topics studied, and a best score. *)
Theorem saveQuizScore_counted today now examId sc tot pa st :
  let st' := (saveQuizScore today now examId sc tot pa st).2 in
  os_quizzesTaken (statsOf st') = os_quizzesTaken (statsOf st) + 1 ∧
  os_topicsStudied (statsOf st') = os_topicsStudied (statsOf st) ∧
  is_Some (os_bestScore (statsOf st')).
Proof.
  destruct (saveQuizScore_store today now examId sc tot pa st)
    as (data' & -> & Hex & Hk & _).
  cbn [snd]. cbv zeta in Hex |- *.
  set (e' := set_lastActivity _ _) in Hex.
  assert (exams data' = <[examId := e']> (exams (loaded st))) as Hmap.
  { apply map_eq. intros k. destruct (decide (k = examId)) as [->|Hne].
    - by rewrite lookup_insert_eq.
    - rewrite lookup_insert_ne by done. by apply Hk. }
  unfold statsOf. cbn [loaded].
  destruct (stats_quizzes data') as (-> & -> & ->).
  destruct (stats_quizzes (loaded st)) as (-> & -> & _).
  pose proof (values_insert (exams (loaded st)) examId e') as H1.
  rewrite <-Hmap in H1.
  pose proof (values_lookup (exams (loaded st)) examId) as H2.
  assert (quizScores e' =
          quizScores (examOf st examId) ++
            [{| date := now; score := sc; total := tot; passed := pa |}]) as Hq by done.
  assert (topicsStudied e' = topicsStudied (examOf st examId)) as Ht by done.
  unfold examOf in Hq, Ht.
  rewrite (bind_length_perm quizScores _ _ H1), (bind_length_perm quizScores _ _ H2).
  rewrite (bind_length_perm topicsStudied _ _ H1),
    (bind_length_perm topicsStudied _ _ H2).
  assert (Z.of_nat (length ((e' :: (snd <$> map_to_list (delete examId (exams (loaded st)))))
                              ≫= quizScores)) =
          Z.of_nat (length (match exams (loaded st) !! examId with
                            | Some e => e :: (snd <$> map_to_list (delete examId (exams (loaded st))))
                            | None => snd <$> map_to_list (delete examId (exams (loaded st)))
                            end ≫= quizScores)) + 1) as Hcount.
  { rewrite bind_cons, length_app, Hq, length_app. cbn [length].
    destruct (exams (loaded st) !! examId) as [e|].
    - rewrite bind_cons, length_app.
      change (default getDefaultExamProgress (Some e)) with e. lia.
    - change (quizScores (default getDefaultExamProgress None)) with (@nil QuizScore).
      cbn [length]. lia. }
  split_and!.
  - exact Hcount.
  - rewrite bind_cons, length_app, Ht.
    destruct (exams (loaded st) !! examId) as [e|].
    + rewrite bind_cons, length_app.
      change (default getDefaultExamProgress (Some e)) with e. lia.
    + change (topicsStudied (default getDefaultExamProgress None)) with (@nil string).
      cbn [length]. lia.
  - apply bestStep_is_Some. right. intros Hnil.
    pose proof (bind_length_perm quizScores _ _ H1) as Hlen.
    rewrite Hnil, bind_cons, length_app, Hq, length_app in Hlen.
    cbn [length] in Hlen. lia.
Qed.

(** X22: the readers never write.  [isChapterComplete],
    [getCompletedChapters], [getExamProgress], [getAllProgress] and
    [exportProgress] return with the store untouched; on an exam that is
    not in the store they answer false, the empty list and the default
    progress, and do not create it. *)
Theorem readers_never_write st examId :
  (∀ chapterId, (isChapterComplete examId chapterId st).2 = st) ∧
  (getCompletedChapters examId st).2 = st ∧
  (getExamProgress examId st).2 = st ∧
  (getAllProgress st).2 = st ∧
  (∀ JSON_stringify, (exportProgress JSON_stringify st).2 = st) ∧
  (exams (loaded st) !! examId = None →
   (∀ chapterId, isChapterComplete examId chapterId st = (Returned false, st)) ∧
   getCompletedChapters examId st = (Returned [], st) ∧
   getExamProgress examId st = (Returned getDefaultExamProgress, st)).
Proof.
  split_and!.
  - intros c. by rewrite isChapterComplete_run.
  - by rewrite getCompletedChapters_run.
  - by rewrite getExamProgress_run.
  - unfold getAllProgress, loadProgress, bind, get. by destruct st.
  - intros f. unfold exportProgress, loadProgress, bind, get. by destruct st.
  - intros Hnone.
    rewrite getCompletedChapters_run, getExamProgress_run.
    unfold chaptersOf, examOf. rewrite Hnone. split_and!; [|done|done].
    intros c. rewrite isChapterComplete_run. unfold chaptersOf, examOf.
    by rewrite Hnone.
Qed.

End WithHost.

Lemma mark_unmark_round_trip_witness :
  ∃ st1 st2,
    markChapterComplete (host := utcHost) 10 "2024-01-10T09:00:00.000Z" "sie" "ch2" true
      (Some ProgressExamples.sampleData) = (Returned tt, st1) ∧
    markChapterComplete (host := utcHost) 10 "2024-01-10T09:05:00.000Z" "sie" "ch2" false st1 =
      (Returned tt, st2) ∧
    chaptersOf st1 "sie" = ["ch1"; "ch2"]%string ∧
    chaptersOf st2 "sie" = ["ch1"%string].
Proof.
  destruct (mark_unmark_round_trip (host := utcHost) 10 "2024-01-10T09:00:00.000Z"
              "2024-01-10T09:05:00.000Z" "sie" "ch2"
              (Some ProgressExamples.sampleData))
    as (st1 & st2 & H1 & H2 & H3 & H4 & _).
  - change (chaptersOf (Some ProgressExamples.sampleData) "sie")
      with ["ch1"%string].
    apply not_elem_of_cons. split; [discriminate|apply not_elem_of_nil].
  - exists st1, st2. split_and!; [exact H1|exact H2|exact H3|exact H4].
Defined.

Lemma recordActivity_streak_is_run_witness :
  ∃ data',
    recordActivity (host := utcHost) 10 (Some ProgressExamples.sampleData) = (Returned tt, Some data') ∧
    1 ≤ current (streaks data') ∧
    10 ∈ dates (streaks data').
Proof.
  destruct (recordActivity_streak_is_run (host := utcHost) 0 10
              (Some ProgressExamples.sampleData))
    as (data' & n & Hrun & Hn & Hcur & _ & _ & Hel).
  - exact utcHost_constant.
  - done.
  - intros d Hd. simpl in Hd. rewrite !elem_of_cons in Hd.
    destruct Hd as [-> | [-> | Hd]]; [lia|lia|by apply elem_of_nil in Hd].
  - exists data'. split_and!; [exact Hrun| |apply Hel; by left].
    rewrite Hcur. simpl. lia.
Defined.

Lemma future_date_zeroes_streak_witness :
  ∃ data',
    recordActivity (host := utcHost) 7 (Some ProgressExamples.sampleData) = (Returned tt, Some data') ∧
    7 ∈ dates (streaks data') ∧
    current (streaks data') = 0.
Proof.
  apply (future_date_zeroes_streak (host := utcHost) 7 (Some ProgressExamples.sampleData) 9).
  - simpl. apply elem_of_cons. by left.
  - lia.
Defined.

Lemma import_without_streaks_witness :
  (importProgress (host := utcHost) (fun _ => None) 20 (VObject ProgressExamples.datelessSnapshot)
     (Some ProgressExamples.sampleData)).1 = Returned true ∧
  streaks (loaded (importProgress (host := utcHost) (fun _ => None) 20
                     (VObject ProgressExamples.datelessSnapshot)
                     (Some ProgressExamples.sampleData)).2) =
    {| dates := [9; 8]; current := 2; longest := 4 |}.
Proof.
  split; [by vm_compute|].
  apply (import_without_streaks (host := utcHost) (fun _ => None) 20
           (VObject ProgressExamples.datelessSnapshot)
           (Some ProgressExamples.sampleData) ProgressExamples.datelessSnapshot).
  - reflexivity.
  - intros sd [= <-]. reflexivity.
Defined.

End StoreFacts.

(** * Facts about the lesson pages *)

Module LearnFacts.
Import Progress ProgressReads Learn StreakFacts ImportFacts QuizFacts StoreFacts.

Lemma toggleChapter_unfold today now examId chapterId st :
  toggleChapter today now examId chapterId st =
    (Returned tt,
     Some (let current := (ensureExam (loaded st) examId).1 in
           let exam := (ensureExam (loaded st) examId).2 in
           if bool_decide (chapterId ∈ chaptersCompleted exam)
           then set_exam current examId
                  (set_chaptersCompleted exam
                     (filter (fun c => c ≠ chapterId) (chaptersCompleted exam)))
           else withToday today
                  (set_exam current examId
                     (set_lastActivity
                        (set_chaptersCompleted exam
                           (chaptersCompleted exam ++ [chapterId]))
                        (Some now))))).
Proof.
  unfold toggleChapter, withToday, loadProgress, bind, get, saveProgress, put, ret.
  destruct st as [d|]; cbn [loaded];
    destruct (ensureExam _ examId) as [cur exam];
    cbn beta iota zeta; cbn [fst snd]; by case_bool_decide.
Qed.

Lemma toggleChapter_run today now examId chapterId st :
  ∃ data',
    toggleChapter today now examId chapterId st = (Returned tt, Some data') ∧
    examOf (Some data') examId =
      (let exam := examOf st examId in
       if bool_decide (chapterId ∈ chaptersCompleted exam)
       then set_chaptersCompleted exam
              (filter (fun c => c ≠ chapterId) (chaptersCompleted exam))
       else set_lastActivity
              (set_chaptersCompleted exam (chaptersCompleted exam ++ [chapterId]))
              (Some now)) ∧
    (∀ k, k ≠ examId → examOf (Some data') k = examOf st k) ∧
    streaks data' =
      (if bool_decide (chapterId ∈ chaptersOf st examId)
       then streaks (loaded st)
       else streaks (withToday today (loaded st))).
Proof.
  destruct (ensureExam_spec (loaded st) examId) as (He & Hs & Hk).
  rewrite toggleChapter_unfold. eexists. split; [done|].
  cbv zeta. unfold chaptersOf, examOf in *. cbn [loaded].
  rewrite He. case_bool_decide as Hin.
  - split_and!; [| |done].
    + simpl. by rewrite lookup_insert_eq.
    + intros k Hne. simpl. rewrite lookup_insert_ne by done. by rewrite Hk.
  - split_and!.
    + rewrite withToday_exams. simpl. by rewrite lookup_insert_eq.
    + intros k Hne. rewrite withToday_exams. simpl.
      rewrite lookup_insert_ne by done. by rewrite Hk.
    + by apply withToday_streaks_ext.
Qed.

Section WithHost.
Context {host : Host}.

(** X23: the lesson page's button toggles the chapter, and agrees with
    the progress module on the list.  A click returns; the chapter is
    complete afterwards exactly when it was not before; the list of
    completed chapters is the one [markChapterComplete] would store for
    that new status; the other exams are untouched; and [lastActivity] is
    set only when the chapter becomes complete. *)
Theorem toggleChapter_agrees today now examId chapterId st :
  let was := bool_decide (chapterId ∈ chaptersOf st examId) in
  ∃ st',
    toggleChapter today now examId chapterId st = (Returned tt, st') ∧
    isChapterComplete examId chapterId st' = (Returned (negb was), st') ∧
    chaptersOf st' examId =
      chaptersOf (markChapterComplete today now examId chapterId (negb was) st).2
        examId ∧
    (∀ other, other ≠ examId → examOf st' other = examOf st other) ∧
    lastActivity (examOf st' examId) =
      (if was then lastActivity (examOf st examId) else Some now).
Proof.
  intros was.
  destruct (toggleChapter_run today now examId chapterId st)
    as (data' & Hrun & Hex & Hk & _).
  destruct (markChapterComplete_store today now examId chapterId (negb was) st)
    as (data2 & -> & Hex2 & _).
  apply examOf_lookup in Hex2. cbv zeta in Hex, Hex2.
  fold (chaptersOf st examId) in Hex, Hex2. fold was in Hex, Hex2.
  assert (chaptersOf (Some data') examId =
          if was then filter (fun c => c ≠ chapterId) (chaptersOf st examId)
          else chaptersOf st examId ++ [chapterId]) as Hch.
  { unfold chaptersOf at 1. rewrite Hex. by destruct was. }
  assert (chaptersOf (Some data2) examId =
          if was then filter (fun c => c ≠ chapterId) (chaptersOf st examId)
          else chaptersOf st examId ++ [chapterId]) as Hch2.
  { unfold chaptersOf at 1. rewrite Hex2. by destruct was. }
  exists (Some data'). split_and!; [done| | |done|].
  - rewrite isChapterComplete_run, Hch. do 2 f_equal.
    subst was. case_bool_decide as Hin; simpl.
    + apply bool_decide_eq_false. rewrite list_elem_of_filter. tauto.
    + apply bool_decide_eq_true. rewrite elem_of_app, list_elem_of_singleton.
      by right.
  - cbn [snd]. by rewrite Hch, Hch2.
  - rewrite Hex. by destruct was.
Qed.

(** X24: the lesson page's button never recomputes the streak.  A click
    leaves [current] and [longest] as stored; when the chapter becomes
    complete, today is added to the dates if it is not there, and
    otherwise the dates are untouched.  On an empty store the click
    leaves [current] at 0 with today among the dates, where
    [markChapterComplete] sets it to 1 on a host at or west of UTC (and
    leaves it at 0 on a host east of UTC), the zone keeping one offset. *)
Theorem toggleChapter_keeps_streak_counters today now examId chapterId st :
  let st' := (toggleChapter today now examId chapterId st).2 in
  current (streaks (loaded st')) = current (streaks (loaded st)) ∧
  longest (streaks (loaded st')) = longest (streaks (loaded st)) ∧
  (∀ x, x ∈ dates (streaks (loaded st')) ↔
        x ∈ dates (streaks (loaded st)) ∨
        (x = today ∧ chapterId ∉ chaptersOf st examId)) ∧
  (st = None →
   current (streaks (loaded st')) = 0 ∧
   dates (streaks (loaded st')) = [today] ∧
   ∀ off, constantOffset off → - msPerDay < off < msPerDay →
     current (streaks (loaded
                (markChapterComplete today now examId chapterId true st).2)) =
       (if bool_decide (off ≤ 0) then 1 else 0)).
Proof.
  destruct (toggleChapter_run today now examId chapterId st)
    as (data' & -> & _ & _ & Hs).
  cbn [snd loaded]. rewrite Hs. split_and!.
  - case_bool_decide; [done|apply withToday_current].
  - case_bool_decide; [done|apply withToday_longest].
  - intros x. case_bool_decide as Hin; [tauto|].
    rewrite withToday_dates. tauto.
  - intros ->. rewrite bool_decide_eq_false_2 by apply not_elem_of_nil.
    split_and!; [done|done|]. intros off Hoff Hrange.
    destruct (markChapterComplete_store today now examId chapterId true None)
      as (data2 & -> & _ & _ & Hs2).
    cbn [snd loaded]. rewrite Hs2.
    assert (∀ d, d ∈ dates (streaks (withToday today (loaded None))) → d ≤ today)
      as Hmax.
    { intros d Hd. apply withToday_dates in Hd as [->|Hd]; [lia|].
      by apply elem_of_nil in Hd. }
    destruct (decide (off ≤ 0)) as [Hwest|Heast].
    + rewrite (bool_decide_eq_true_2 (off ≤ 0)) by done.
      apply (updateStreaks_current_today off Hoff today _ 1);
        [lia|apply withToday_elem|exact Hmax|].
      split.
      * intros j Hj. replace j with 0%nat by lia. rewrite Z.sub_0_r.
        apply withToday_elem.
      * intros Hd. apply withToday_dates in Hd as [Hd|Hd]; [lia|].
        by apply elem_of_nil in Hd.
    + rewrite (bool_decide_eq_false_2 (off ≤ 0)) by done.
      apply (updateStreaks_current_east off Hoff);
        [lia|apply withToday_elem|exact Hmax].
Qed.

End WithHost.

Lemma scanFrom_Some completed items : ∀ i k,
  scanFrom completed i items (Some k) = Some k.
Proof.
  induction items as [|item rest IH]; intros i k; simpl; [done|].
  replace (scanStep completed (Some k) i item) with (Some k); [apply IH|].
  unfold scanStep. destruct item as [c|]; [|done]. by destruct (bool_decide _).
Qed.

Lemma scanFrom_spec completed items : ∀ i r,
  scanFrom completed i items None = Some r ↔
  ∃ j c, r = (i + j)%nat ∧ items !! j = Some (Some c) ∧ (c ∉ completed) ∧
         (∀ j' c', (j' < j)%nat → items !! j' = Some (Some c') → c' ∈ completed).
Proof.
  induction items as [|item rest IH]; intros i r; simpl.
  - split; [done|]. by intros (j & c & _ & ? & _).
  - destruct item as [c|]; simpl.
    + case_bool_decide as Hin.
      * rewrite IH. split.
        -- intros (j & c0 & -> & Hj & Hc0 & Hbefore).
           exists (S j), c0. split_and!; [lia|done|done|].
           intros [|j'] c' Hlt Hl; simpl in Hl; [by simplify_eq|].
           apply (Hbefore j'); [lia|done].
        -- intros ([|j] & c0 & -> & Hj & Hc0 & Hbefore); simpl in Hj.
           { by simplify_eq. }
           exists j, c0. split_and!; [lia|done|done|].
           intros j' c' Hlt Hl. apply (Hbefore (S j')); [lia|done].
      * rewrite scanFrom_Some. split.
        -- intros [= <-]. exists 0%nat, c. split_and!; [lia|done|done|].
           intros j' c' Hlt. lia.
        -- intros ([|j] & c0 & -> & Hj & Hc0 & Hbefore); [f_equal; lia|].
           exfalso. apply Hin. apply (Hbefore 0%nat); [lia|done].
    + rewrite IH. split.
      * intros (j & c0 & -> & Hj & Hc0 & Hbefore).
        exists (S j), c0. split_and!; [lia|done|done|].
        intros [|j'] c' Hlt Hl; simpl in Hl; [done|].
        apply (Hbefore j'); [lia|done].
      * intros ([|j] & c0 & -> & Hj & Hc0 & Hbefore); simpl in Hj; [done|].
        exists j, c0. split_and!; [lia|done|done|].
        intros j' c' Hlt Hl. apply (Hbefore (S j')); [lia|done].
Qed.

(** X25: the chapter marked as current is the first one not completed.
    The scan of [initCourseOverview] returns position r exactly when the
    item at r carries a chapter id that is not completed and every item
    before it either carries no id or a completed one; it returns nothing
    exactly when every chapter id on the page is completed. *)
Theorem firstIncomplete_spec completed items :
  (∀ r, firstIncomplete completed items = Some r ↔
        ∃ c, items !! r = Some (Some c) ∧ (c ∉ completed) ∧
             (∀ j c', (j < r)%nat → items !! j = Some (Some c') → c' ∈ completed)) ∧
  (firstIncomplete completed items = None ↔
   ∀ j c, items !! j = Some (Some c) → c ∈ completed).
Proof.
  assert (∀ r, firstIncomplete completed items = Some r ↔
            ∃ c, items !! r = Some (Some c) ∧ (c ∉ completed) ∧
                 (∀ j c', (j < r)%nat → items !! j = Some (Some c') → c' ∈ completed))
    as Hsome.
  { intros r. unfold firstIncomplete. rewrite scanFrom_spec. split.
    - intros (j & c & -> & ?). by exists c.
    - intros (c & ?). by exists r, c. }
  split; [exact Hsome|].
  split.
  - intros Hnone j. induction (lt_wf j) as [j _ IH]. intros c Hj.
    destruct (decide (c ∈ completed)) as [|Hc]; [done|].
    assert (firstIncomplete completed items = Some j) as E; [|congruence].
    apply Hsome. exists c. split_and!; [done|done|].
    intros j' c' Hlt Hj'. by apply (IH j').
  - intros Hall. apply eq_None_not_Some. intros [r E].
    apply Hsome in E as (c & Hr & Hc & _). destruct Hc. by apply (Hall r).
Qed.

End LearnFacts.

(** * Facts about the quiz engine *)

Module EngineFacts.
Import QuizEngine.

Lemma slice0_submseteq {A} (l : list A) e : slice0 l e ⊆+ l.
Proof.
  unfold slice0. destruct (e <? 0); apply sublist_submseteq, sublist_take.
Qed.

Lemma slice0_length {A} (l : list A) e :
  Z.of_nat (length (slice0 l e)) =
    if e <? 0 then Z.max (Z.of_nat (length l) + e) 0
    else Z.min e (Z.of_nat (length l)).
Proof.
  unfold slice0. destruct (e <? 0) eqn:E; rewrite length_take.
  - apply Z.ltb_lt in E. lia.
  - apply Z.ltb_ge in E. lia.
Qed.

(** Where [currentIndex] is on a question, as in a running quiz,
    [renderQuestion] returns. *)
Lemma renderQuestion_running st : running st → renderQuestion st = Returned tt.
Proof.
  intros (Hc & Hi & _). unfold renderQuestion, currentQuestion.
  replace (currentIndex st <? 0) with false by (symmetry; apply Z.ltb_ge; lia).
  destruct (lookup_lt_is_Some_2 (questions st) (Z.to_nat (currentIndex st)))
    as [q ->]; [lia|done].
Qed.

(** X26: what [startQuiz] sets up.  No quiz is started exactly when the
    question bank did not load or is empty.  Otherwise [state.questions]
    is drawn from the bank without repetition, [state.count] is its
    length: all of the bank for 'all', [min(n, bank size)] for a count
    n >= 0, and the bank size less [-n], or 0, for a negative count; the
    answers and flags are empty, the first question is current and the
    quiz is not submitted.  The closing [renderQuiz] returns, on a running
    quiz, when [state.count] is positive, and throws, with [state]
    assigned as said, when no question was drawn. *)
Theorem startQuiz_setup draw cfg exams bank :
  (∀ i, (draw i ≤ i)%nat) →
  (startQuiz draw cfg exams bank = None ↔ bank = None ∨ bank = Some []) ∧
  ∀ r st, startQuiz draw cfg exams bank = Some (r, st) →
    ∃ qs, bank = Some qs ∧
      questions st ⊆+ qs ∧
      count st = Z.of_nat (length (questions st)) ∧
      count st =
        match c_count cfg with
        | Infinity => Z.of_nat (length qs)
        | Finite n =>
            if n <? 0 then Z.max (Z.of_nat (length qs) + n) 0
            else Z.min n (Z.of_nat (length qs))
        end ∧
      (c_count cfg = Infinity → questions st ≡ₚ qs) ∧
      answers st = ∅ ∧ flagged st = ∅ ∧ currentIndex st = 0 ∧
      submitted st = false ∧ reviewMode st = false ∧
      examId st = c_examId cfg ∧
      (0 < count st → r = Returned tt ∧ running st) ∧
      (count st ≤ 0 → r = Thrown ∧ questions st = []).
Proof.
  intros Hdraw. split.
  - unfold startQuiz. destruct bank as [[|q qs]|]; split; try done.
    + by right.
    + intros [|]; done.
    + by left.
  - intros r st Hst. unfold startQuiz in Hst.
    destruct bank as [[|q qs]|]; [done| |done].
    exists (q :: qs). set (bank := q :: qs) in *.
    pose proof (UtilsFacts.shuffleArray_perm draw bank) as Hperm.
    pose proof (UtilsFacts.shuffleArray_length draw bank) as Hlen.
    injection Hst as <- <-. cbn [questions count answers flagged currentIndex
                                 submitted reviewMode examId].
    split_and!; try done.
    + trans (Utils.shuffleArray draw bank); [apply slice0_submseteq|].
      by apply Permutation_submseteq.
    + rewrite slice0_length, Hlen.
      destruct (c_count cfg) as [n|].
      * destruct (Z.min n _ <? 0) eqn:E1, (n <? 0) eqn:E2;
          rewrite ?Z.ltb_lt, ?Z.ltb_ge in E1, E2; lia.
      * replace (Z.of_nat (length bank) <? 0) with false
          by (symmetry; apply Z.ltb_ge; lia). lia.
    + intros ->. trans (Utils.shuffleArray draw bank); [|done].
      unfold slice0.
      replace (Z.of_nat (length (Utils.shuffleArray draw bank)) <? 0) with false
        by (symmetry; apply Z.ltb_ge; lia).
      by rewrite Nat2Z.id, take_ge.
    + intros Hpos.
      match goal with |- renderQuiz ?s = _ ∧ _ => assert (running s) as Hrun end.
      { unfold running.
        cbn [questions count answers flagged currentIndex].
        split_and!; [done|lia|lia| |].
        * intros i [x Hx]. by rewrite lookup_empty in Hx.
        * intros i Hi. by apply not_elem_of_empty in Hi. }
      split; [|done]. by apply renderQuestion_running.
    + intros Hzero.
      destruct (slice0 _ _) as [|q0 l0] eqn:Eq; [done|]. simpl in Hzero. lia.
Qed.

Section WithHost.
Context {host : Host}.

Lemma showResults_run today now w :
  ∃ st',
    showResults today now w = (Returned tt, {| quiz := quiz w; store := st' |}) ∧
    savedScores st' (examId (quiz w)) =
      savedScores (store w) (examId (quiz w)) ++
        [{| Progress.date := now;
            Progress.score := (score (quiz w)).1;
            Progress.total := count (quiz w);
            Progress.passed :=
              Quiz.ge (Quiz.percentOf (score (quiz w)).1 (count (quiz w)))
                (Quiz.Number (match examMeta (quiz w) with
                              | Some p => p
                              | None => 70
                              end)) |}] ∧
    (∀ other, other ≠ examId (quiz w) →
              savedScores st' other = savedScores (store w) other).
Proof.
  unfold showResults, bind, get, onStore, tryCatch.
  destruct (score (quiz w)) as [nCorrect topicScores] eqn:Es. cbn [fst].
  unfold Quiz.showResults.
  destruct (StoreFacts.saveQuizScore_store today now (examId (quiz w)) nCorrect
              (count (quiz w))
              (Quiz.ge (Quiz.percentOf nCorrect (count (quiz w)))
                 (Quiz.Number (match examMeta (quiz w) with
                               | Some p => p
                               | None => 70
                               end)))
              (store w)) as (data' & Hrun & Hex & Hk & _).
  exists (Some data'). rewrite Hrun. split_and!; [done| |].
  - unfold savedScores. cbn [Progress.loaded]. rewrite Hex. done.
  - intros other Hne. unfold savedScores. cbn [Progress.loaded]. by rewrite Hk.
Qed.

(** Every handler returns, and changes [state] in one of a few ways. *)
Lemma handle_run today now ev w :
  ∃ w', handle today now ev w = (Returned tt, w') ∧
    questions (quiz w') = questions (quiz w) ∧
    count (quiz w') = count (quiz w) ∧
    examId (quiz w') = examId (quiz w) ∧
    examMeta (quiz w') = examMeta (quiz w) ∧
    (submitted (quiz w) = true → submitted (quiz w') = true) ∧
    (answers (quiz w') = answers (quiz w) ∨
     ∃ c, submitted (quiz w) = false ∧
          answers (quiz w') = <[currentIndex (quiz w) := c]> (answers (quiz w))) ∧
    (flagged (quiz w') = flagged (quiz w) ∨
     flagged (quiz w') = flagged (quiz w) ∖ {[currentIndex (quiz w)]} ∨
     flagged (quiz w') = flagged (quiz w) ∪ {[currentIndex (quiz w)]}) ∧
    (currentIndex (quiz w') = currentIndex (quiz w) ∨
     0 ≤ currentIndex (quiz w') < count (quiz w) ∨
     currentIndex (quiz w') = 0).
Proof.
  assert (∀ w0 : World, ∃ w', showResults today now w0 = (Returned tt, w') ∧
            quiz w' = quiz w0) as Hshow.
  { intros w0. destruct (showResults_run today now w0) as (st' & -> & _). eauto. }
  assert (∀ index, ∃ w', goToQuestion today now index w = (Returned tt, w') ∧
            (quiz w' = quiz w ∨
             (quiz w' = set_currentIndex index (quiz w) ∧
              0 ≤ index < count (quiz w)))) as Hgo.
  { intros index. unfold goToQuestion, bind, get.
    destruct (index <? 0) eqn:E1; simpl.
    - destruct (submitted (quiz w) && (count (quiz w) <=? index)).
      + destruct (Hshow w) as (w' & -> & ?). eauto.
      + eauto.
    - destruct (count (quiz w) <=? index) eqn:E2; simpl.
      + destruct (submitted (quiz w)); simpl.
        * destruct (Hshow w) as (w' & -> & ?). eauto.
        * eauto.
      + eexists. split; [done|]. right. split; [done|].
        apply Z.ltb_ge in E1. apply Z.leb_gt in E2. lia. }
  assert (∀ w' : World,
            (quiz w' = quiz w ∨
             ∃ index, quiz w' = set_currentIndex index (quiz w) ∧
                      0 ≤ index < count (quiz w)) →
            questions (quiz w') = questions (quiz w) ∧
            count (quiz w') = count (quiz w) ∧
            examId (quiz w') = examId (quiz w) ∧
            examMeta (quiz w') = examMeta (quiz w) ∧
            (submitted (quiz w) = true → submitted (quiz w') = true) ∧
            (answers (quiz w') = answers (quiz w) ∨
             ∃ c, submitted (quiz w) = false ∧
                  answers (quiz w') = <[currentIndex (quiz w) := c]> (answers (quiz w))) ∧
            (flagged (quiz w') = flagged (quiz w) ∨
             flagged (quiz w') = flagged (quiz w) ∖ {[currentIndex (quiz w)]} ∨
             flagged (quiz w') = flagged (quiz w) ∪ {[currentIndex (quiz w)]}) ∧
            (currentIndex (quiz w') = currentIndex (quiz w) ∨
             0 ≤ currentIndex (quiz w') < count (quiz w) ∨
             currentIndex (quiz w') = 0)) as Hnav.
  { intros w' [->|(index & -> & Hi)]; simpl; split_and!; auto. }
  destruct ev as [c| |index| |confirm|]; simpl.
  - unfold selectAnswer, bind, get, onQuiz, modify.
    destruct (submitted (quiz w)) eqn:Es.
    + eexists. split; [done|]. split_and!; auto.
    + eexists. split; [done|]. simpl. split_and!; eauto; congruence.
  - unfold toggleFlag, onQuiz, modify. eexists. split; [done|].
    cbn [quiz]. case_bool_decide; simpl; split_and!; auto.
  - destruct (Hgo index) as (w' & -> & [H|[H Hi]]); exists w'; (split; [done|]);
      apply Hnav; eauto.
  - unfold prevClick, bind, get.
    destruct (Hgo (currentIndex (quiz w) - 1)) as (w' & -> & [H|[H Hi]]);
      exists w'; (split; [done|]); apply Hnav; eauto.
  - unfold nextClick, bind, get.
    destruct ((currentIndex (quiz w) =? count (quiz w) - 1) && negb (submitted (quiz w))).
    + unfold confirmSubmit. destruct confirm.
      * unfold submitQuiz, bind, onQuiz, modify.
        destruct (Hshow {| quiz := set_submitted true (quiz w); store := store w |})
          as (w' & -> & Hq).
        exists w'. split; [done|]. rewrite Hq. simpl. split_and!; auto.
      * eexists. split; [done|]. split_and!; auto.
    + destruct (Hgo (currentIndex (quiz w) + 1)) as (w' & -> & [H|[H Hi]]);
        exists w'; (split; [done|]); apply Hnav; eauto.
  - unfold reviewClick, onQuiz, modify. eexists. split; [done|]. simpl.
    split_and!; auto.
Qed.

Lemma handle_running today now ev w :
  running (quiz w) → running (quiz (handle today now ev w).2).
Proof.
  intros (Hc & Hi & Ha & Hf).
  destruct (handle_run today now ev w)
    as (w' & -> & Hq & Hn & _ & _ & _ & Hans & Hfl & Hidx).
  cbn [snd]. unfold running. rewrite Hq, Hn. split_and!.
  - done.
  - destruct Hidx as [->|[?| ->]]; lia.
  - destruct Hidx as [->|[?| ->]]; lia.
  - intros i His. destruct Hans as [E|(c & _ & E)]; rewrite E in His.
    + by apply Ha.
    + destruct (decide (i = currentIndex (quiz w))) as [->|Hne]; [lia|].
      rewrite lookup_insert_ne in His by done. by apply Ha.
  - intros i Hin. destruct Hfl as [E|[E|E]]; rewrite E in Hin.
    + by apply Hf.
    + apply elem_of_difference in Hin as [Hin _]. by apply Hf.
    + apply elem_of_union in Hin as [Hin|Hin]; [by apply Hf|].
      apply elem_of_singleton in Hin as ->. lia.
Qed.

(** X27: the handlers keep the quiz well formed.  From a running quiz
    ([count] questions, the current index among them, answers and flags
    only at their positions), any sequence of answer selections, flag
    toggles, jumps, Previous, Next (with or without confirming the
    submission) and Review returns and leaves the quiz running, with the
    same questions; so the number of unanswered questions shown by
    [confirmSubmit] is between 0 and [count]. *)
Theorem handlers_keep_running today now evs w :
  running (quiz w) →
  ∃ w',
    handleAll today now evs w = (Returned tt, w') ∧
    running (quiz w') ∧
    questions (quiz w') = questions (quiz w) ∧
    0 ≤ unanswered (quiz w') ≤ count (quiz w').
Proof.
  intros Hrun.
  assert (∀ st, running st → 0 ≤ unanswered st ≤ count st) as Hun.
  { intros st (Hc & Hi & Ha & _). unfold unanswered.
    assert (size (answers st) ≤ Z.to_nat (count st))%nat; [|lia].
    assert (dom (answers st) ⊆
            list_to_set (Z.of_nat <$> seq 0 (Z.to_nat (count st)))) as Hsub.
    { intros i Hin. apply elem_of_dom in Hin. apply Ha in Hin.
      apply elem_of_list_to_set, list_elem_of_fmap.
      exists (Z.to_nat i). split; [lia|]. apply elem_of_seq. lia. }
    apply subseteq_size in Hsub. rewrite size_dom in Hsub.
    etrans; [exact Hsub|].
    rewrite size_list_to_set.
    - by rewrite length_fmap, length_seq.
    - apply NoDup_fmap_2; [intros a b; lia|apply NoDup_seq]. }
  revert w Hrun. induction evs as [|ev evs IH]; intros w Hrun.
  - exists w. split_and!; [done|done|done|by apply Hun|by apply Hun].
  - pose proof (handle_running today now ev w Hrun) as Hrun1.
    destruct (handle_run today now ev w) as (w1 & Hev & Hq & _).
    rewrite Hev in Hrun1. cbn [snd] in Hrun1.
    destruct (IH w1 Hrun1) as (w' & Hall & Hrun' & Hq' & Hu).
    exists w'. split_and!; [|done|congruence|apply Hu|apply Hu].
    cbn [handleAll]. unfold bind. by rewrite Hev.
Qed.

(** X28: a submitted quiz cannot be changed.  Once [submitted] is set,
    no sequence of answer selections, flag toggles, jumps, Previous,
    Next or Review changes an answer, a question or the score, and the
    quiz stays submitted. *)
Theorem submitted_answers_frozen today now evs w :
  submitted (quiz w) = true →
  ∃ w',
    handleAll today now evs w = (Returned tt, w') ∧
    submitted (quiz w') = true ∧
    answers (quiz w') = answers (quiz w) ∧
    questions (quiz w') = questions (quiz w) ∧
    score (quiz w') = score (quiz w).
Proof.
  revert w. induction evs as [|ev evs IH]; intros w Hsub.
  - by exists w.
  - destruct (handle_run today now ev w)
      as (w1 & Hev & Hq & _ & _ & _ & Hs & Hans & _).
    assert (answers (quiz w1) = answers (quiz w)) as Ha.
    { destruct Hans as [E|(c & E & _)]; [done|congruence]. }
    destruct (IH w1 (Hs Hsub)) as (w' & Hall & Hs' & Ha' & Hq' & Hsc).
    exists w'. split_and!; [|done|congruence|congruence|].
    + cbn [handleAll]. unfold bind. by rewrite Hev.
    + rewrite Hsc. unfold score. by rewrite Ha, Hq.
Qed.

Section TopicSums.
Context (f : TopicScore → Z).

Lemma topic_sum_perm (l1 l2 : list (string * TopicScore)) :
  l1 ≡ₚ l2 →
  foldr (uncurry (fun (_ : string) e acc => f e + acc)) 0 l1 =
  foldr (uncurry (fun (_ : string) e acc => f e + acc)) 0 l2.
Proof.
  induction 1 as [|[k e] l1 l2 _ IH|[k1 e1] [k2 e2] l|l1 l2 l3 _ IH1 _ IH2];
    simpl; [done|by rewrite IH|lia|congruence].
Qed.

Lemma topic_sum_insert (ts : gmap string TopicScore) k e' :
  map_fold (fun _ e acc => f e + acc) 0 (<[k := e']> ts) =
    f e' + map_fold (fun _ e acc => f e + acc) 0 (delete k ts).
Proof.
  rewrite !map_fold_foldr, <-insert_delete_eq.
  rewrite (topic_sum_perm _ _ (map_to_list_insert (delete k ts) k e'
                                 (lookup_delete_eq ts k))).
  done.
Qed.

Lemma topic_sum_lookup (ts : gmap string TopicScore) k :
  map_fold (fun _ e acc => f e + acc) 0 ts =
    match ts !! k with
    | Some e => f e
    | None => 0
    end + map_fold (fun _ e acc => f e + acc) 0 (delete k ts).
Proof.
  destruct (ts !! k) as [e|] eqn:E.
  - rewrite !map_fold_foldr.
    by rewrite <-(topic_sum_perm _ _ (map_to_list_delete ts k e E)).
  - by rewrite delete_id.
Qed.

End TopicSums.

Lemma scoreStep_spec answers c ts i q :
  ∃ (d : Z) t e',
    (d = 0 ∨ d = 1) ∧
    (d = 1 ↔ answers !! i = Some (correct q)) ∧
    scoreStep answers (c, ts) i q = (c + d, <[t := e']> ts) ∧
    t_total e' = match ts !! t with Some e => t_total e | None => 0 end + 1 ∧
    t_correct e' = match ts !! t with Some e => t_correct e | None => 0 end + d.
Proof.
  unfold scoreStep.
  set (t := match topic q with
            | Some t => if Progress.truthy t then t else "General"%string
            | None => "General"%string
            end).
  case_bool_decide as Hc.
  - exists 1, t. eexists. split_and!; [by right|done|done|..];
      by destruct (ts !! t).
  - exists 0, t. eexists. split_and!; [by left|split; [done|tauto]| |..].
    + by rewrite Z.add_0_r.
    + by destruct (ts !! t).
    + destruct (ts !! t); simpl; lia.
Qed.

Lemma scoreFrom_spec answers qs : ∀ i c ts,
  topicsOk ts →
  ∃ c' ts',
    scoreFrom answers i qs (c, ts) = (c', ts') ∧
    c ≤ c' ≤ c + Z.of_nat (length qs) ∧
    sumTotal ts' = sumTotal ts + Z.of_nat (length qs) ∧
    sumCorrect ts' = sumCorrect ts + (c' - c) ∧
    topicsOk ts' ∧
    ((∀ (j : nat) q, qs !! j = Some q →
        answers !! (i + Z.of_nat j) ≠ Some (correct q)) → c' = c) ∧
    ((∀ (j : nat) q, qs !! j = Some q →
        answers !! (i + Z.of_nat j) = Some (correct q)) →
     c' = c + Z.of_nat (length qs)).
Proof.
  induction qs as [|q qs IH]; intros i c ts Hok.
  - exists c, ts. simpl. split_and!; try done; lia.
  - destruct (scoreStep_spec answers c ts i q)
      as (d & t & e' & Hd & Hd1 & Hstep & Htot & Hcor).
    assert (topicsOk (<[t := e']> ts)) as Hok1.
    { intros t0 e0. destruct (decide (t0 = t)) as [->|Hne].
      - rewrite lookup_insert_eq. intros [= <-]. rewrite Htot, Hcor.
        destruct (ts !! t) as [e|] eqn:E; [|lia].
        destruct (Hok t e E). lia.
      - rewrite lookup_insert_ne by done. apply Hok. }
    destruct (IH (i + 1) (c + d) (<[t := e']> ts) Hok1)
      as (c' & ts' & Hrun & Hb & Hst & Hsc & Hok' & Hnone & Hall).
    exists c', ts'. cbn [scoreFrom length]. rewrite Hstep.
    split_and!; [done|lia|lia| | |done| |].
    + rewrite Hst. unfold sumTotal.
      rewrite (topic_sum_insert t_total), (topic_sum_lookup t_total ts t), Htot.
      lia.
    + rewrite Hsc. unfold sumCorrect.
      rewrite (topic_sum_insert t_correct), (topic_sum_lookup t_correct ts t), Hcor.
      lia.
    + intros Hno. rewrite Hnone.
      * destruct Hd as [->| ->]; [lia|].
        exfalso. apply (Hno 0%nat q eq_refl). rewrite Z.add_0_r. by apply Hd1.
      * intros j q0 Hj. replace (i + 1 + Z.of_nat j) with (i + Z.of_nat (S j)) by lia.
        by apply Hno.
    + intros Hyes. rewrite Hall.
      * assert (d = 1); [|lia]. apply Hd1.
        specialize (Hyes 0%nat q eq_refl). by rewrite Z.add_0_r in Hyes.
      * intros j q0 Hj. replace (i + 1 + Z.of_nat j) with (i + Z.of_nat (S j)) by lia.
        by apply Hyes.
Qed.

(** X29: the score adds up.  For every state, the number of correct
    answers computed by [showResults] is between 0 and the number of
    questions; the per-topic totals sum to the number of questions and
    the per-topic correct counts sum to the score; each topic listed has
    at least one question and no more correct answers than questions; a
    quiz with no correctly answered question scores 0, and one with
    every question answered correctly scores the number of questions. *)
Theorem score_adds_up st :
  let n := Z.of_nat (length (questions st)) in
  0 ≤ (score st).1 ≤ n ∧
  sumTotal (score st).2 = n ∧
  sumCorrect (score st).2 = (score st).1 ∧
  topicsOk (score st).2 ∧
  ((∀ (j : nat) q, questions st !! j = Some q →
      answers st !! Z.of_nat j ≠ Some (correct q)) → (score st).1 = 0) ∧
  ((∀ (j : nat) q, questions st !! j = Some q →
      answers st !! Z.of_nat j = Some (correct q)) → (score st).1 = n).
Proof.
  intros n. unfold score.
  destruct (scoreFrom_spec (answers st) (questions st) 0 0 ∅)
    as (c' & ts' & -> & Hb & Hst & Hsc & Hok & Hnone & Hall).
  { intros t e H. by rewrite lookup_empty in H. }
  cbn [fst snd]. unfold sumTotal, sumCorrect in Hst, Hsc.
  rewrite !map_fold_empty in Hst, Hsc.
  split_and!; [lia|lia|done|unfold sumCorrect; lia|done| |].
  - intros H. by apply Hnone.
  - intros H. rewrite Hall; [subst n; lia|done].
Qed.

Lemma goToQuestion_inside today now index w :
  0 ≤ index < count (quiz w) →
  goToQuestion today now index w =
    (Returned tt, {| quiz := set_currentIndex index (quiz w); store := store w |}).
Proof.
  intros Hi. unfold goToQuestion, bind, get, onQuiz, modify.
  replace (index <? 0) with false by (symmetry; apply Z.ltb_ge; lia).
  replace (count (quiz w) <=? index) with false by (symmetry; apply Z.leb_gt; lia).
  done.
Qed.

Lemma showResults_saved_attempt today now w :
  ∃ st',
    showResults today now w = (Returned tt, {| quiz := quiz w; store := st' |}) ∧
    savedScores st' (examId (quiz w)) =
      savedScores (store w) (examId (quiz w)) ++ [attempt now (quiz w)].
Proof.
  destruct (showResults_run today now w) as (st' & Hrun & Hsaved & _). eauto.
Qed.

(** X30: an attempt can be saved twice.  From a running quiz that is not
    submitted, going to the last question and confirming Next submits
    the quiz and saves one record: the score, [count] as total, the
    time.  Opening the review, going to the last question and pressing
    Next (labelled See Results) calls [showResults] again, which saves a
    second record for the same attempt, with the same score and total
    and the later time. *)
Theorem attempt_saved_twice today t1 t2 confirm w :
  running (quiz w) →
  submitted (quiz w) = false →
  let last := count (quiz w) - 1 in
  let saved := savedScores (store w) (examId (quiz w)) in
  ∃ w1 w2,
    handleAll today t1 [GoTo last; Next true] w = (Returned tt, w1) ∧
    savedScores (store w1) (examId (quiz w)) = saved ++ [attempt t1 (quiz w)] ∧
    handleAll today t2 [Review; GoTo last; Next confirm] w1 = (Returned tt, w2) ∧
    savedScores (store w2) (examId (quiz w)) =
      saved ++ [attempt t1 (quiz w); attempt t2 (quiz w)] ∧
    answers (quiz w2) = answers (quiz w).
Proof.
  intros (Hc & Hi & _) Hsub last saved.
  assert (0 ≤ last < count (quiz w)) as Hlast by (subst last; lia).
  set (wa := {| quiz := set_currentIndex last (quiz w); store := store w |}).
  set (wb := {| quiz := set_submitted true (quiz wa); store := store wa |}).
  destruct (showResults_saved_attempt today t1 wb) as (s1 & Hshow1 & Hsaved1).
  set (w1 := {| quiz := quiz wb; store := s1 |}) in *.
  set (wc := {| quiz := set_currentIndex 0 (set_reviewMode true (quiz w1));
                store := store w1 |}).
  set (wd := {| quiz := set_currentIndex last (quiz wc); store := store wc |}).
  destruct (showResults_saved_attempt today t2 wd) as (s2 & Hshow2 & Hsaved2).
  set (w2 := {| quiz := quiz wd; store := s2 |}) in *.
  exists w1, w2. split_and!.
  - cbn [handleAll handle]. unfold bind.
    rewrite (goToQuestion_inside today t1 last w Hlast). fold wa.
    unfold nextClick, bind, get.
    replace (currentIndex (quiz wa) =? count (quiz wa) - 1) with true
      by (symmetry; apply Z.eqb_eq; done).
    replace (submitted (quiz wa)) with false by done.
    cbn [andb negb confirmSubmit]. unfold submitQuiz, bind, onQuiz, modify.
    fold wb. by rewrite Hshow1.
  - exact Hsaved1.
  - cbn [handleAll handle]. unfold bind, reviewClick, onQuiz, modify.
    fold wc. rewrite (goToQuestion_inside today t2 last wc Hlast). fold wd.
    unfold nextClick, bind, get.
    replace (submitted (quiz wd)) with true by done.
    rewrite andb_false_r. unfold goToQuestion, bind, get.
    replace (currentIndex (quiz wd) + 1 <? 0) with false
      by (symmetry; apply Z.ltb_ge; simpl; lia).
    replace (count (quiz wd) <=? currentIndex (quiz wd) + 1) with true
      by (symmetry; apply Z.leb_le; simpl; lia).
    replace (submitted (quiz wd)) with true by done.
    cbn [orb andb]. by rewrite Hshow2.
  - change (savedScores s2 (examId (quiz wd)) =
            saved ++ [attempt t1 (quiz wb); attempt t2 (quiz wd)]).
    rewrite Hsaved2. change (store wd) with s1.
    change (examId (quiz wd)) with (examId (quiz wb)).
    rewrite Hsaved1. by rewrite <-app_assoc.
  - done.
Qed.

End WithHost.

Lemma sampleQuiz_running : running QuizExamples.sampleQuiz.
Proof.
  unfold running. simpl. split_and!; [done|lia|lia| |].
  - intros i [x Hx]. rewrite lookup_insert_Some, lookup_singleton_Some in Hx.
    destruct Hx as [[<- _]|[_ [<- _]]]; lia.
  - intros i Hi. apply elem_of_singleton in Hi as ->. lia.
Qed.

Lemma startQuiz_setup_witness :
  ∃ st,
    startQuiz (fun _ => O) QuizExamples.sampleConfig (Some (Some 70))
      (Some [QuizExamples.q1; QuizExamples.q2; QuizExamples.q3]) =
      Some (Returned tt, st) ∧
    count st = 2 ∧
    running st.
Proof.
  destruct (startQuiz_setup (fun _ => O) QuizExamples.sampleConfig (Some (Some 70))
              (Some [QuizExamples.q1; QuizExamples.q2; QuizExamples.q3]))
    as [_ H]; [intros i; lia|].
  destruct (H _ _ eq_refl)
    as (qs & _ & _ & Hcount & _ & _ & _ & _ & _ & _ & _ & _ & Hrun & _).
  eexists. split; [reflexivity|]. split; [reflexivity|].
  apply Hrun. rewrite Hcount. reflexivity.
Defined.

(** A direct launch with [?count=-3] on a bank of three questions: no
    question is drawn and the first rendering throws. *)
Lemma startQuiz_negative_count :
  ∃ st,
    startQuiz (fun _ => O)
      {| c_examId := "sie"; c_count := Finite (-3); c_timed := false |}
      (Some (Some 70))
      (Some [QuizExamples.q1; QuizExamples.q2; QuizExamples.q3]) =
      Some (Thrown, st) ∧
    questions st = [] ∧ count st = 0 ∧ currentIndex st = 0.
Proof. eexists. split; [reflexivity|]. done. Qed.

Lemma handlers_keep_running_witness :
  ∃ w',
    handleAll (host := utcHost) 10 "2024-01-10T09:00:00.000Z" [Select 2; Flag; Prev; Next false]
      QuizExamples.sampleWorld = (Returned tt, w') ∧
    running (quiz w') ∧
    0 ≤ unanswered (quiz w') ≤ count (quiz w').
Proof.
  destruct (handlers_keep_running (host := utcHost) 10 "2024-01-10T09:00:00.000Z"
              [Select 2; Flag; Prev; Next false] QuizExamples.sampleWorld
              sampleQuiz_running) as (w' & Hrun & Hok & _ & Hun).
  exists w'. split_and!; [exact Hrun|exact Hok|apply Hun|apply Hun].
Defined.

Lemma submitted_answers_frozen_witness :
  ∃ w',
    handleAll (host := utcHost) 10 "2024-01-10T09:00:00.000Z" [Review; Select 1; GoTo 0; Select 3]
      {| quiz := set_submitted true QuizExamples.sampleQuiz;
         store := Some ProgressExamples.sampleData |} = (Returned tt, w') ∧
    answers (quiz w') = {[ 0 := 0; 1 := 3 ]}.
Proof.
  destruct (submitted_answers_frozen (host := utcHost) 10 "2024-01-10T09:00:00.000Z"
              [Review; Select 1; GoTo 0; Select 3]
              {| quiz := set_submitted true QuizExamples.sampleQuiz;
                 store := Some ProgressExamples.sampleData |})
    as (w' & Hrun & _ & Hans & _).
  - reflexivity.
  - exists w'. split; [exact Hrun|exact Hans].
Defined.

Lemma attempt_saved_twice_witness :
  ∃ w1 w2,
    handleAll (host := utcHost) 10 "2024-01-10T09:00:00.000Z" [GoTo 2; Next true]
      QuizExamples.sampleWorld = (Returned tt, w1) ∧
    handleAll (host := utcHost) 10 "2024-01-10T09:10:00.000Z" [Review; GoTo 2; Next true] w1 =
      (Returned tt, w2) ∧
    length (savedScores (store QuizExamples.sampleWorld) "sie") = 1%nat ∧
    length (savedScores (store w2) "sie") = 3%nat.
Proof.
  destruct (attempt_saved_twice (host := utcHost) 10 "2024-01-10T09:00:00.000Z"
              "2024-01-10T09:10:00.000Z" true QuizExamples.sampleWorld
              sampleQuiz_running eq_refl)
    as (w1 & w2 & H1 & _ & H2 & Hsaved & _).
  exists w1, w2. split_and!; [exact H1|exact H2|reflexivity|].
  change (examId (quiz QuizExamples.sampleWorld)) with "sie"%string in Hsaved.
  rewrite Hsaved, length_app. reflexivity.
Defined.

End EngineFacts.
